(** * Trip adviser core: budget estimator, haversine metric, bounding box
      prefilter, range filter and recommend operation of [main.py].

    Number model.  Python [int]s are unbounded integers and are embedded as
    [Z].  A Python [float] is embedded as the real number it denotes; how an
    operation rounds its result is not fixed: the float operations and the
    functions of [math] are the fields of the class [FloatArith], and the
    program is written once, over any such arithmetic.  A statement that
    quantifies over the arithmetic holds however the results are rounded,
    so for the floats of the running program; [exact_arith] is the arithmetic
    that does not round, and the statements about exact distances are made
    for it.  What an operation raises is Python's and does not depend on the
    rounding: a division raises on a zero divisor, [math.sqrt] on a negative
    argument, the conversion of an int on one beyond the float range.
    Infinite and NaN results of the arithmetic are outside the model (a
    missing cell of a table is a NaN of its own).

    [trip_logic] is generic in the float type, so that it also runs on IEEE
    binary64 numbers (primitive floats), bit for bit. *)

From Stdlib Require Import Floats SpecFloat.
From Stdlib Require Import Reals Lra Lia ZArith List String Bool.
From Stdlib Require Import Permutation Sorted.
Import ListNotations.

Local Open Scope R_scope.

(** ** Exceptions and the error monad *)

Inductive exn : Type :=
| KeyError (key : string)
| TypeError
| ValueError
| ZeroDivisionError
| OverflowError
| GeocoderError.

Inductive result (A : Type) : Type :=
| Ok (a : A)
| Raise (e : exn).
Arguments Ok {A} a.
Arguments Raise {A} e.

Definition rbind {A B : Type} (c : result A) (k : A -> result B) : result B :=
  match c with
  | Ok a => k a
  | Raise e => Raise e
  end.

Declare Scope result_scope.
Delimit Scope result_scope with result.
Notation "x <- c ;; k" := (rbind c (fun x => k))
  (at level 61, c at next level, right associativity) : result_scope.

(** ** Python floats *)

Class PyFloat (F : Type) : Type := {
  (* conversion of an int operand in mixed int/float arithmetic *)
  of_int : Z -> result F;
  fmul : F -> F -> F;
  (* float true division; a zero divisor raises *)
  fdiv : F -> F -> result F
}.

(** Exact real arithmetic: an int converts to the real it is, whatever its
    size.  The statements about exact values are made on it. *)
#[export] Instance PyFloat_R : PyFloat R := {
  of_int z := Ok (IZR z);
  fmul := Rmult;
  fdiv x y := if Req_EM_T y 0 then Raise ZeroDivisionError else Ok (x / y)
}.

(** IEEE binary64.  An int is converted with round-to-nearest-even; one that
    rounds out of the finite range raises [OverflowError]. *)
Definition int_to_binary64 (z : Z) : result float :=
  match binary_normalize 53 1024 z 0 false with
  | S754_infinity _ => Raise OverflowError
  | f => Ok (SF2Prim f)
  end.

#[export] Instance PyFloat_binary64 : PyFloat float := {
  of_int := int_to_binary64;
  fmul := PrimFloat.mul;
  fdiv x y := if PrimFloat.eqb y 0%float then Raise ZeroDivisionError
              else Ok (PrimFloat.div x y)
}.

(** [a / b] on two ints: both operands are converted, then divided (exact for
    operands below 2^53 in magnitude, as the literals of the source are). *)
Definition int_truediv {F : Type} `{PyFloat F} (a b : Z) : result F :=
  (x <- of_int a ;; y <- of_int b ;; fdiv x y)%result.

(** ** Float arithmetic on the reals, up to rounding *)

Class FloatArith : Type := {
  fl_int : Z -> R;              (* float(n), for an int beyond 2^53 *)
  fl_add : R -> R -> R;
  fl_sub : R -> R -> R;
  fl_mul : R -> R -> R;
  fl_div : R -> R -> R;
  fl_pow : R -> nat -> R;       (* x ** n *)
  fl_radians : R -> R;          (* math.radians *)
  fl_sin : R -> R;              (* math.sin *)
  fl_cos : R -> R;              (* math.cos *)
  fl_sqrt : R -> R;             (* math.sqrt *)
  fl_atan2 : R -> R -> R;       (* math.atan2 *)
  fl_round2 : R -> R            (* round(x, 2) *)
}.

Declare Scope fl_scope.
Delimit Scope fl_scope with fl.

(* the operands of a float operation are float expressions *)
Arguments fl_add {FloatArith} (_ _)%_fl_scope.
Arguments fl_sub {FloatArith} (_ _)%_fl_scope.
Arguments fl_mul {FloatArith} (_ _)%_fl_scope.
Arguments fl_div {FloatArith} (_ _)%_fl_scope.
Arguments fl_pow {FloatArith} _%_fl_scope _%_nat_scope.

Notation "x + y" := (fl_add x y) : fl_scope.
Notation "x - y" := (fl_sub x y) : fl_scope.
Notation "x * y" := (fl_mul x y) : fl_scope.
Notation "x / y" := (fl_div x y) : fl_scope.
Notation "x ^ n" := (fl_pow x n) : fl_scope.

(** The angle of the point (x, y), in (-pi, pi]. *)
Definition angle (y x : R) : R :=
  if Rlt_dec 0 x then atan (y / x)
  else if Rlt_dec x 0 then
    (if Rle_dec 0 y then atan (y / x) + PI else atan (y / x) - PI)
  else if Rlt_dec 0 y then PI / 2
  else if Rlt_dec y 0 then - (PI / 2)
  else 0.

(** To the nearest hundredth, ties to the even one. *)
Definition round2 (x : R) : R :=
  let y := x * 100 in
  let n := Int_part y in
  let f := y - IZR n in
  IZR (if Rlt_dec f (1 / 2) then n
       else if Rlt_dec (1 / 2) f then n + 1
       else if Z.even n then n else n + 1) / 100.

(** The arithmetic that does not round. *)
#[export] Instance exact_arith : FloatArith | 10 := {
  fl_int := IZR;
  fl_add := Rplus;
  fl_sub := Rminus;
  fl_mul := Rmult;
  fl_div := Rdiv;
  fl_pow := pow;
  fl_radians x := x * (PI / 180);
  fl_sin := sin;
  fl_cos := cos;
  fl_sqrt := sqrt;
  fl_atan2 := angle;
  fl_round2 := round2
}.

(** An arithmetic whose additions err upward by one part in 2^53, the most
    that rounding to nearest allows; all else is exact. *)
Definition upward_arith : FloatArith := {|
  fl_int := IZR;
  fl_add x y := (x + y) * (1 + / 2 ^ 53);
  fl_sub := Rminus;
  fl_mul := Rmult;
  fl_div := Rdiv;
  fl_pow := pow;
  fl_radians x := x * (PI / 180);
  fl_sin := sin;
  fl_cos := cos;
  fl_sqrt := sqrt;
  fl_atan2 := angle;
  fl_round2 := round2
|}.

Section Floats.
Context {A : FloatArith}.

(* x / y on floats: a zero divisor raises *)
Definition truediv (x y : R) : result R :=
  if Req_EM_T y 0 then Raise ZeroDivisionError else Ok (x / y)%fl.

(** The arithmetic as a [PyFloat]: an int up to 2^53 converts exactly, a
    larger one is rounded, and one that rounds beyond the largest float,
    2^1024 - 2^971, raises [OverflowError]. *)
Definition float_of_int (z : Z) : result R :=
  if (Z.abs z <=? 2 ^ 53)%Z then Ok (IZR z)
  else if (Z.abs z <? 2 ^ 1024 - 2 ^ 970)%Z then Ok (fl_int z)
  else Raise OverflowError.

Definition python_float : PyFloat R := {|
  of_int := float_of_int;
  fmul := fl_mul;
  fdiv := truediv
|}.

End Floats.

(** ** The [math] module *)

Module math.
Section Libm.
Context {A : FloatArith}.

Definition radians (x : R) : R := fl_radians x.
Definition sin (x : R) : R := fl_sin x.
Definition cos (x : R) : R := fl_cos x.

(* a negative argument is a domain error *)
Definition sqrt (x : R) : result R :=
  if Rlt_dec x 0 then Raise ValueError else Ok (fl_sqrt x).

Definition atan2 (y x : R) : R := fl_atan2 y x.

End Libm.
End math.

(** ** Haversine distance (lines 24-35) *)

Section Geometry.
Context {A : FloatArith}.

Definition haversine (lat1 lon1 lat2 lon2 : R) : result R :=
  let R_ := 6371 in
  let dlat := math.radians (lat2 - lat1)%fl in
  let dlon := math.radians (lon2 - lon1)%fl in
  let a := (math.sin (dlat / 2)%fl ^ 2 +
            math.cos (math.radians lat1) *
            math.cos (math.radians lat2) *
            math.sin (dlon / 2)%fl ^ 2)%fl in
  (s1 <- math.sqrt a ;;
   s2 <- math.sqrt (1 - a)%fl ;;
   let c := (2 * math.atan2 s1 s2)%fl in
   Ok (R_ * c)%fl)%result.

(** ** Bounding box (lines 73-76)

    The second division raises when the arithmetic computes its divisor as
    0: the exact cosine of 90 degrees is 0, a rounded one need not be. *)

Definition bounding_box (lat lon distance_km : R) : result (R * R * R * R) :=
  (delta_lat <- truediv distance_km 111 ;;
   delta_lon <- truediv distance_km (111 * math.cos (math.radians lat))%fl ;;
   Ok ((lat - delta_lat)%fl, (lat + delta_lat)%fl,
       (lon - delta_lon)%fl, (lon + delta_lon)%fl))%result.

End Geometry.

(** ** Trip logic (lines 55-66) *)

Section TripLogic.
Context {F : Type} `{PyFloat F}.

Definition trip_logic (days speed sleep meal buffer : Z) (compromise : bool)
  : result (F * Z) :=
  let total_hours := (days * 24)%Z in
  let usable := (total_hours - (days * (sleep + meal + buffer)))%Z in
  let usable := if compromise then (usable + (sleep - 4))%Z else usable in
  (two_thirds <- int_truediv 2 3 ;;
   u <- of_int usable ;;
   let travel_hours := fmul two_thirds u in
   one_third <- int_truediv 1 3 ;;
   u' <- of_int usable ;;
   let explore_hours := fmul one_third u' in
   s <- of_int speed ;;
   let max_distance := fmul travel_hours s in
   Ok (max_distance, usable))%result.

(** Keyword defaults of the signature:
    [speed=50, sleep=6, meal=3, buffer=2, compromise=False]. *)
Definition trip_logic_kw (days : Z) (speed sleep meal buffer : option Z)
    (compromise : option bool) : result (F * Z) :=
  trip_logic days
    (match speed with Some v => v | None => 50%Z end)
    (match sleep with Some v => v | None => 6%Z end)
    (match meal with Some v => v | None => 3%Z end)
    (match buffer with Some v => v | None => 2%Z end)
    (match compromise with Some v => v | None => false end).

End TripLogic.

(** ** Catalog tables

    A pandas [DataFrame] is a list of column labels and a list of rows; a
    cell is a float, a missing value (NaN) or a string.  A row shorter than
    the header reads as NaN beyond its end. *)

Inductive value : Type :=
| VNum (x : R)
| VNaN
| VStr (s : string).

Definition Row : Type := list value.

Record DataFrame : Type := mkDF { columns : list string; rows : list Row }.

Fixpoint get_loc (name : string) (cols : list string) : option nat :=
  match cols with
  | [] => None
  | c :: cols' =>
      if String.eqb name c then Some 0%nat
      else option_map S (get_loc name cols')
  end.

Definition cell (i : nat) (r : Row) : value := nth i r VNaN.

(* row[name] *)
Definition row_getitem (cols : list string) (r : Row) (name : string)
  : result value :=
  match get_loc name cols with
  | Some i => Ok (cell i r)
  | None => Raise (KeyError name)
  end.

(* df[name] *)
Definition column (d : DataFrame) (name : string) : result (list value) :=
  match get_loc name (columns d) with
  | Some i => Ok (map (cell i) (rows d))
  | None => Raise (KeyError name)
  end.

Definition Rleb (x y : R) : bool := if Rle_dec x y then true else false.

(* v >= x and v <= x on one cell: NaN compares false, a string raises *)
Definition value_ge (x : R) (v : value) : result bool :=
  match v with
  | VNum y => Ok (Rleb x y)
  | VNaN => Ok false
  | VStr _ => Raise TypeError
  end.

Definition value_le (x : R) (v : value) : result bool :=
  match v with
  | VNum y => Ok (Rleb y x)
  | VNaN => Ok false
  | VStr _ => Raise TypeError
  end.

Fixpoint mapM {A B : Type} (f : A -> result B) (l : list A) : result (list B) :=
  match l with
  | [] => Ok []
  | x :: l' => (y <- f x ;; ys <- mapM f l' ;; Ok (y :: ys))%result
  end.

(* series >= x, series <= x, mask & mask *)
Definition series_ge (s : list value) (x : R) : result (list bool) :=
  mapM (value_ge x) s.
Definition series_le (s : list value) (x : R) : result (list bool) :=
  mapM (value_le x) s.
Definition mask_and (m1 m2 : list bool) : list bool :=
  map (fun p => fst p && snd p) (combine m1 m2).

(* df[mask]: the rows whose mask entry is True *)
Fixpoint select {A : Type} (l : list A) (mask : list bool) : list A :=
  match l, mask with
  | x :: l', b :: mask' => if b then x :: select l' mask' else select l' mask'
  | _, _ => []
  end.

Fixpoint set_cell (i : nat) (v : value) (r : Row) : Row :=
  match i, r with
  | O, [] => [v]
  | O, _ :: r' => v :: r'
  | S i', [] => VNaN :: set_cell i' v []
  | S i', x :: r' => x :: set_cell i' v r'
  end.

(* df[name] = series: overwrites the column, or appends a new one *)
Definition set_column (d : DataFrame) (name : string) (vals : list value)
  : result DataFrame :=
  if negb (Nat.eqb (List.length vals) (List.length (rows d))) then Raise ValueError
  else
    match get_loc name (columns d) with
    | Some i =>
        Ok (mkDF (columns d)
                 (map (fun p => set_cell i (fst p) (snd p)) (combine vals (rows d))))
    | None =>
        Ok (mkDF (columns d ++ [name])
                 (map (fun p => set_cell (List.length (columns d)) (fst p) (snd p))
                      (combine vals (rows d))))
    end.

Definition value_eq_dec (a b : value) : {a = b} + {a <> b}.
Proof.
  decide equality; [apply Req_EM_T | apply string_dec].
Defined.

(* x in list; cells read from one object column share their NaN object, so a
   missing value is found again by identity *)
Definition value_in (c : value) (l : list value) : bool :=
  existsb (fun x => if value_eq_dec c x then true else false) l.

(** Order of [sort_values] on a column: ascending, missing values last. *)
Definition key_le (a b : value) : Prop :=
  match a, b with
  | VNum x, VNum y => x <= y
  | VNaN, VNum _ => False
  | _, _ => True
  end.

(** ** The process state: a heap of table objects and standard output *)

Inductive output : Type :=
| PrintList (l : list value)
| PrintStr (s : string).

Record world : Type := mkWorld { heap : list DataFrame; stdout : list output }.

Definition addr : Type := nat.

Definition M (A : Type) : Type := world -> result A * world.

Definition ret {A : Type} (a : A) : M A := fun w => (Ok a, w).

Definition bind {A B : Type} (m : M A) (k : A -> M B) : M B :=
  fun w =>
    match m w with
    | (Ok a, w') => k a w'
    | (Raise e, w') => (Raise e, w')
    end.

Definition lift {A : Type} (r : result A) : M A := fun w => (r, w).

Declare Scope py_scope.
Delimit Scope py_scope with py.
Notation "x <- c ;; k" := (bind c (fun x => k))
  (at level 61, c at next level, right associativity) : py_scope.
Notation "c ;;; k" := (bind c (fun _ => k))
  (at level 61, right associativity) : py_scope.

Fixpoint update {A : Type} (i : nat) (x : A) (l : list A) : list A :=
  match l, i with
  | [], _ => []
  | _ :: l', O => x :: l'
  | y :: l', S i' => y :: update i' x l'
  end.

Definition empty_frame : DataFrame := mkDF [] [].

Definition alloc (d : DataFrame) : M addr :=
  fun w => (Ok (List.length (heap w)), mkWorld (heap w ++ [d]) (stdout w)).
Definition deref (a : addr) : M DataFrame :=
  fun w => (Ok (nth a (heap w) empty_frame), w).
Definition assign (a : addr) (d : DataFrame) : M unit :=
  fun w => (Ok tt, mkWorld (update a d (heap w)) (stdout w)).
Definition print (o : output) : M unit :=
  fun w => (Ok tt, mkWorld (heap w) (stdout w ++ [o])).

Local Open Scope py_scope.

(* df[name] *)
Definition getitem (df : addr) (name : string) : M (list value) :=
  d <- deref df ;; lift (column d name).

(* df[mask]: a new table object *)
Definition getitem_mask (df : addr) (mask : list bool) : M addr :=
  d <- deref df ;; alloc (mkDF (columns d) (select (rows d) mask)).

(* df.copy() *)
Definition copy (df : addr) : M addr :=
  d <- deref df ;; alloc d.

(* df.apply(f, axis=1): f on every row, in order *)
Definition apply_rows (df : addr) (f : (string -> result value) -> result value)
  : M (list value) :=
  d <- deref df ;; lift (mapM (fun r => f (row_getitem (columns d) r)) (rows d)).

(* df[name] = series, in place *)
Definition setitem (df : addr) (name : string) (vals : list value) : M unit :=
  d <- deref df ;; d' <- lift (set_column d name vals) ;; assign df d'.

(* lines 100-102: the loop over iterrows *)
Fixpoint city_loop (cols : list string) (rs : list Row) (city : list value)
  : result (list value) :=
  match rs with
  | [] => Ok city
  | row :: rest =>
      (c <- row_getitem cols row "City" ;;
       city_loop cols rest (if value_in c city then city else city ++ [c]))%result
  end.

(** ** Range filter (lines 80-107) *)

Section RangeFilter.
Context {A : FloatArith}.

(* the lambda of step 2 *)
Definition haversine_cells (lat_x lon_x : R) (la lo : value) : result value :=
  match la, lo with
  | VNum lat2, VNum lon2 =>
      (d <- haversine lat_x lon_x lat2 lon2 ;; Ok (VNum d))%result
  | VStr _, _ => Raise TypeError
  | _, VStr _ => Raise TypeError
  | _, _ => Ok VNaN
  end.

(* lines 81-91: bounding box filter, copy, distance column *)
Definition box_candidates (df : addr) (lat_x lon_x max_distance_km tolerance : R)
  : M addr :=
  box <- lift (bounding_box lat_x lon_x (max_distance_km + tolerance)%fl) ;;
  let '(min_lat, max_lat, min_lon, max_lon) := box in
  la1 <- getitem df "Latitude" ;;
  m1 <- lift (series_ge la1 min_lat) ;;
  la2 <- getitem df "Latitude" ;;
  m2 <- lift (series_le la2 max_lat) ;;
  lo1 <- getitem df "Longitude" ;;
  m3 <- lift (series_ge lo1 min_lon) ;;
  lo2 <- getitem df "Longitude" ;;
  m4 <- lift (series_le lo2 max_lon) ;;
  sel <- getitem_mask df (mask_and (mask_and (mask_and m1 m2) m3) m4) ;;
  candidates <- copy sel ;;
  dist <- apply_rows candidates
            (fun row =>
               (la <- row "Latitude"%string ;;
                lo <- row "Longitude"%string ;;
                haversine_cells lat_x lon_x la lo)%result) ;;
  setitem candidates "distance_km" dist ;;;
  ret candidates.

(* lines 94-96: keep only max_distance +- tolerance *)
Definition band_filter (candidates : addr) (max_distance_km tolerance : R)
  : M addr :=
  let min_dist := (max_distance_km - tolerance)%fl in
  let max_dist := (max_distance_km + tolerance)%fl in
  d1 <- getitem candidates "distance_km" ;;
  b1 <- lift (series_ge d1 min_dist) ;;
  d2 <- getitem candidates "distance_km" ;;
  b2 <- lift (series_le d2 max_dist) ;;
  getitem_mask candidates (mask_and b1 b2).

(** [sort_values] leaves the sorting algorithm to pandas; the model takes
    it as a parameter and asks only for what every choice delivers: the
    rows come back permuted, and in ascending key order when the keys are
    floats or missing values. *)
Variable sort_rows : (Row -> value) -> list Row -> list Row.

Definition sort_contract : Prop :=
  forall (key : Row -> value) (l : list Row),
    Permutation (sort_rows key l) l /\
    (Forall (fun r => match key r with VStr _ => False | _ => True end) l ->
     StronglySorted (fun r1 r2 => key_le (key r1) (key r2)) (sort_rows key l)).

(* df.sort_values(by=name): a new table object *)
Definition sort_values (df : addr) (name : string) : M addr :=
  d <- deref df ;;
  match get_loc name (columns d) with
  | Some i => alloc (mkDF (columns d) (sort_rows (cell i) (rows d)))
  | None => lift (Raise (KeyError name))
  end.

(* lines 97-107: sort, collect each city once, print, truncate *)
Definition collect_cities (filtered_df : addr) : M (list value) :=
  filtered_df <- sort_values filtered_df "distance_km" ;;
  d <- deref filtered_df ;;
  if existsb (String.eqb "City") (columns d)
     && existsb (String.eqb "Name") (columns d)
  then
    city <- lift (city_loop (columns d) (rows d) []) ;;
    print (PrintList (firstn 5 city)) ;;;
    ret (firstn 5 city)
  else
    print (PrintStr "Columns 'City' and 'Name' not found in DataFrame") ;;;
    ret (firstn 5 []).

Definition filter_places (df : addr) (lat_x lon_x max_distance_km tolerance : R)
  : M (list value) :=
  candidates <- box_candidates df lat_x lon_x max_distance_km tolerance ;;
  filtered_df <- band_filter candidates max_distance_km tolerance ;;
  collect_cities filtered_df.

(** Keyword default of the signature: [tolerance=150]. *)
Definition filter_places_kw (df : addr) (lat_x lon_x max_distance_km : R)
    (tolerance : option R) : M (list value) :=
  filter_places df lat_x lon_x max_distance_km
    (match tolerance with Some t => t | None => 150 end).

(** ** Recommend cities (lines 113-152) *)

Record RecommendRequest : Type := mkRequest {
  user_location : string;
  trip_days : Z;
  speed : Z
}.

Inductive response : Type :=
| ErrorResponse (error : string)
| Recommendation (max_distance_km : R) (recommended_cities : list value).

(* the geocoding service behind get_lat_lon: coordinates, no match, or a
   failure of the service; and the global catalog df *)
Variable get_lat_lon : string -> result (option (R * R)).
Variable df : addr.

Definition recommend_cities (request : RecommendRequest) : M response :=
  coords <- lift (get_lat_lon (user_location request)) ;;
  match coords with
  | None => ret (ErrorResponse "Location not found")
  | Some (lat, lon) =>
      r <- lift (trip_logic_kw (H := python_float) (trip_days request)
                   (Some (speed request)) None None None None) ;;
      let '(max_distance, usable_hours) := r in
      tour_city <- filter_places_kw df lat lon max_distance None ;;
      ret (Recommendation (fl_round2 max_distance) (firstn 5 tour_city))
  end.

End RangeFilter.

Local Close Scope py_scope.

(** ** Vocabulary of the statements *)

Section Vocabulary.
Context {A : FloatArith}.

(** The quantity [a] of the haversine formula. *)
Definition hav (lat1 lon1 lat2 lon2 : R) : R :=
  (math.sin (math.radians (lat2 - lat1)%fl / 2)%fl ^ 2 +
   math.cos (math.radians lat1) * math.cos (math.radians lat2) *
   math.sin (math.radians (lon2 - lon1)%fl / 2)%fl ^ 2)%fl.

(** Cells that comparisons accept: floats and missing values. *)
Definition numeric (v : value) : Prop :=
  match v with
  | VStr _ => False
  | _ => True
  end.

Definition geb (x : R) (v : value) : bool :=
  match v with
  | VNum y => Rleb x y
  | _ => false
  end.

Definition leb (x : R) (v : value) : bool :=
  match v with
  | VNum y => Rleb y x
  | _ => false
  end.

(** Membership of a row in the box, as the mask of step 1 computes it. *)
Definition in_box (box : R * R * R * R) (ilat ilon : nat) (r : Row) : bool :=
  let '(min_lat, max_lat, min_lon, max_lon) := box in
  geb min_lat (cell ilat r) && leb max_lat (cell ilat r)
  && geb min_lon (cell ilon r) && leb max_lon (cell ilon r).

(** Membership of a distance cell in the band, as the mask of step 3
    computes it. *)
Definition in_band (max_distance_km tolerance : R) (v : value) : bool :=
  geb (max_distance_km - tolerance)%fl v && leb (max_distance_km + tolerance)%fl v.

(** The distance cells that step 2 computes for a list of rows, and the one
    it writes for a row (when the computation returns). *)
Definition distances (lat_x lon_x : R) (ilat ilon : nat) (rs : list Row)
  : result (list value) :=
  mapM (fun r => haversine_cells lat_x lon_x (cell ilat r) (cell ilon r)) rs.

Definition distance_cell (lat_x lon_x : R) (ilat ilon : nat) (r : Row) : value :=
  match haversine_cells lat_x lon_x (cell ilat r) (cell ilon r) with
  | Ok v => v
  | Raise _ => VNaN
  end.

(** Where the distance column goes: over an existing one or at the end. *)
Definition distance_loc (cols : list string) : nat :=
  match get_loc "distance_km" cols with
  | Some i => i
  | None => List.length cols
  end.

Definition distance_columns (cols : list string) : list string :=
  match get_loc "distance_km" cols with
  | Some _ => cols
  | None => cols ++ ["distance_km"%string]
  end.

(** The tables the pipeline builds from a catalog [cat]: the box survivors,
    the candidates with their distance cell, and the band survivors. *)
Definition box_rows (box : R * R * R * R) (ilat ilon : nat) (cat : DataFrame)
  : list Row :=
  filter (in_box box ilat ilon) (rows cat).

Definition with_distance (lat_x lon_x : R) (ilat ilon idist : nat) (r : Row)
  : Row :=
  set_cell idist (distance_cell lat_x lon_x ilat ilon r) r.

Definition candidate_frame (lat_x lon_x : R) (box : R * R * R * R)
    (ilat ilon : nat) (cat : DataFrame) : DataFrame :=
  mkDF (distance_columns (columns cat))
       (map (with_distance lat_x lon_x ilat ilon (distance_loc (columns cat)))
            (box_rows box ilat ilon cat)).

Definition band_frame (max_distance_km tolerance : R) (idist : nat)
    (cand : DataFrame) : DataFrame :=
  mkDF (columns cand)
       (filter (fun r => in_band max_distance_km tolerance (cell idist r))
               (rows cand)).

(** The float in a distance cell. *)
Definition distance_of (idist : nat) (r : Row) : R :=
  match cell idist r with
  | VNum d => d
  | _ => 0
  end.

(** The loop of lines 100-102 on the city cells alone. *)
Fixpoint first_seen (l acc : list value) : list value :=
  match l with
  | [] => acc
  | c :: l' => first_seen l' (if value_in c acc then acc else acc ++ [c])
  end.

(** A catalog row [r] is a match at distance [d]: its coordinates are floats
    inside the box of radius target + tolerance, and its distance, as
    [haversine] computes it, lies in the band. *)
Definition matches (cat : DataFrame) (lat_x lon_x max_distance_km tolerance : R)
    (r : Row) (d : R) : Prop :=
  In r (rows cat) /\
  exists la lo min_lat max_lat min_lon max_lon,
    row_getitem (columns cat) r "Latitude" = Ok (VNum la) /\
    row_getitem (columns cat) r "Longitude" = Ok (VNum lo) /\
    bounding_box lat_x lon_x (max_distance_km + tolerance)%fl
    = Ok (min_lat, max_lat, min_lon, max_lon) /\
    min_lat <= la <= max_lat /\ min_lon <= lo <= max_lon /\
    haversine lat_x lon_x la lo = Ok d /\
    (max_distance_km - tolerance)%fl <= d <= (max_distance_km + tolerance)%fl.

(** [d] is the least distance at which a place of locality [c] matches. *)
Definition nearest_match (cat : DataFrame)
    (lat_x lon_x max_distance_km tolerance : R) (c : value) (d : R) : Prop :=
  (exists r, matches cat lat_x lon_x max_distance_km tolerance r d /\
             row_getitem (columns cat) r "City" = Ok c) /\
  (forall r d', matches cat lat_x lon_x max_distance_km tolerance r d' ->
                row_getitem (columns cat) r "City" = Ok c -> d <= d').

(** A place of locality [c] lies in the band at distance [d], inside the box
    or not. *)
Definition in_band_place (cat : DataFrame)
    (lat_x lon_x max_distance_km tolerance : R) (c : value) (d : R) : Prop :=
  exists r la lo,
    In r (rows cat) /\
    row_getitem (columns cat) r "City" = Ok c /\
    row_getitem (columns cat) r "Latitude" = Ok (VNum la) /\
    row_getitem (columns cat) r "Longitude" = Ok (VNum lo) /\
    haversine lat_x lon_x la lo = Ok d /\
    (max_distance_km - tolerance)%fl <= d <= (max_distance_km + tolerance)%fl.

End Vocabulary.

(** A stable sort for [sort_values]: insertion from the right, an element
    going in front of the first strictly greater key. *)
Definition key_leb (a b : value) : bool :=
  match a, b with
  | VNum x, VNum y => Rleb x y
  | VNaN, VNum _ => false
  | _, _ => true
  end.

Fixpoint insert_row (key : Row -> value) (r : Row) (l : list Row) : list Row :=
  match l with
  | [] => [r]
  | r' :: l' =>
      if key_leb (key r) (key r') then r :: l
      else r' :: insert_row key r l'
  end.

Definition stable_sort (key : Row -> value) (l : list Row) : list Row :=
  fold_right (insert_row key) [] l.

(** Another sort that orders by key: the stable sort of the rows taken in
    reverse, which returns rows of equal key in the reverse of their order. *)
Definition reversing_sort (key : Row -> value) (l : list Row) : list Row :=
  stable_sort key (rev l).

(** [m] keeps the first [n] objects of the heap, and a value it returns
    satisfies [good]. *)
Definition keeps (n : nat) {A : Type} (good : A -> Prop) (m : M A) : Prop :=
  forall w : world,
    (n <= List.length (heap w))%nat ->
    firstn n (heap (snd (m w))) = firstn n (heap w) /\
    (n <= List.length (heap (snd (m w))))%nat /\
    match fst (m w) with
    | Ok a => good a
    | Raise _ => True
    end.

Definition fresh (n : nat) (a : addr) : Prop := (n <= a)%nat.
Definition any {A : Type} (_ : A) : Prop := True.

(** Tables used to exercise the statements: three places north of the
    origin 60N 0E, a candidate table around the band 1300 +- 150, a place
    due east of the origin, a catalog without a City column, one with a
    string for a latitude, one with missing coordinates, one whose
    nearest place in the band lies outside the box, and the place
    antipodal to 12N 0E. *)
Definition demo_catalog : DataFrame :=
  mkDF ["Name"; "City"; "Latitude"; "Longitude"]%string
       [[VStr "Fort"; VStr "Alpha"; VNum 62; VNum 0];
        [VStr "Lake"; VStr "Beta"; VNum 61; VNum 0];
        [VStr "Market"; VStr "Alpha"; VNum 61; VNum 0]].

Definition demo_world : world := mkWorld [demo_catalog] [].

Definition band_demo : DataFrame :=
  mkDF ["City"; "distance_km"]%string
       [[VStr "Alpha"; VNum 1450];
        [VStr "Beta"; VNum (1450 + 1 / 100)];
        [VStr "Gamma"; VNum 1150];
        [VStr "Delta"; VNum 1300]].

Definition east_catalog : DataFrame :=
  mkDF ["Name"; "City"; "Latitude"; "Longitude"]%string
       [[VStr "Harbour"; VStr "Gamma"; VNum 60; VNum 60]].

Definition no_city_catalog : DataFrame :=
  mkDF ["Name"; "Latitude"; "Longitude"]%string
       [[VStr "Fort"; VNum 61; VNum 0]].

(** The diagnostic of line 106. *)
Definition not_found_message : string :=
  "Columns 'City' and 'Name' not found in DataFrame".

Definition text_catalog : DataFrame :=
  mkDF ["Name"; "City"; "Latitude"; "Longitude"]%string
       [[VStr "Fort"; VStr "Alpha"; VStr "north"; VNum 0]].

Definition gappy_catalog : DataFrame :=
  mkDF ["Name"; "City"; "Latitude"; "Longitude"]%string
       [[VStr "Fort"; VStr "Alpha"; VNum 61; VNum 0];
        [VStr "Ruin"; VStr "Gamma"; VNaN; VNum 0];
        [VStr "Cave"; VStr "Delta"; VNum 61; VNaN]].

Definition hidden_catalog : DataFrame :=
  mkDF ["Name"; "City"; "Latitude"; "Longitude"]%string
       [[VStr "Harbour"; VStr "Alpha"; VNum 60; VNum 60];
        [VStr "Mill"; VStr "Alpha"; VNum (121 / 4); VNum 0];
        [VStr "Quay"; VStr "Beta"; VNum (303 / 10); VNum 0]].

Definition antipodal_catalog : DataFrame :=
  mkDF ["Name"; "City"; "Latitude"; "Longitude"]%string
       [[VStr "Reef"; VStr "Delta"; VNum (-12); VNum 180]].

(** A row has both coordinates when neither cell is missing. *)
Definition has_coordinates (ilat ilon : nat) (r : Row) : bool :=
  match cell ilat r, cell ilon r with
  | VNaN, _ => false
  | _, VNaN => false
  | _, _ => true
  end.

(** * Properties *)

(** Writes the operations of the exact arithmetic as the real-number
    operations they are. *)
Ltac exact_ops :=
  cbn [fl_int fl_add fl_sub fl_mul fl_div fl_pow fl_sin fl_cos fl_sqrt
       fl_atan2 fl_round2 exact_arith math.sin math.cos math.atan2] in *.

Ltac exact_radians :=
  unfold math.radians in *; cbn [fl_radians exact_arith] in *.

Lemma fdiv_R_ok (x y : R) : y <> 0 -> fdiv x y = Ok (x / y).
Proof.
  intros Hy. simpl. destruct (Req_EM_T y 0); [contradiction | reflexivity].
Qed.

Lemma trip_logic_R (days speed sleep meal buffer : Z) (compromise : bool) :
  let usable := (days * 24 - days * (sleep + meal + buffer)
                 + (if compromise then sleep - 4 else 0))%Z in
  trip_logic (F := R) days speed sleep meal buffer compromise
  = Ok (2 / 3 * IZR usable * IZR speed, usable).
Proof.
  intros usable. unfold trip_logic, int_truediv. cbn [of_int PyFloat_R rbind].
  rewrite !fdiv_R_ok by lra. cbn [rbind fmul PyFloat_R].
  subst usable. destruct compromise; [reflexivity |].
  now rewrite Z.add_0_r.
Qed.

Lemma truediv_ok {A : FloatArith} (x y : R) :
  y <> 0 -> truediv x y = Ok (x / y)%fl.
Proof.
  intros Hy. unfold truediv. destruct (Req_EM_T y 0); [contradiction | reflexivity].
Qed.

Lemma truediv_zero {A : FloatArith} (x y : R) :
  y = 0 -> truediv x y = Raise ZeroDivisionError.
Proof.
  intros Hy. unfold truediv. destruct (Req_EM_T y 0); [reflexivity | contradiction].
Qed.

(** ** Real-number facts about the metric *)

Lemma PI_bounds : 3.1415 < PI < 3.1421.
Proof.
  pose proof (PI_2_3_7_ineq 1) as H.
  unfold sum_f_R0, tg_alt, PI_2_3_7_tg, Ratan_seq in H.
  simpl in H. lra.
Qed.

Lemma radians_exact (x : R) : math.radians x = x * (PI / 180).
Proof. reflexivity. Qed.

Lemma radians_minus (x y : R) :
  math.radians (x - y) = math.radians x - math.radians y.
Proof. rewrite !radians_exact. lra. Qed.

Lemma sin_half_sq (x : R) : sin (x / 2) ^ 2 = (1 - cos x) / 2.
Proof.
  pose proof (cos_2a_sin (x / 2)) as H.
  replace (2 * (x / 2)) with x in H by lra. lra.
Qed.

Lemma sin_sq_bounds (x : R) : 0 <= sin x ^ 2 <= 1.
Proof. pose proof (SIN_bound x). nra. Qed.

(** In the exact arithmetic [hav] is the haversine of the central angle. *)
Lemma hav_exact (lat1 lon1 lat2 lon2 : R) :
  hav lat1 lon1 lat2 lon2
  = sin (math.radians (lat2 - lat1) / 2) ^ 2 +
    cos (math.radians lat1) * cos (math.radians lat2) *
    sin (math.radians (lon2 - lon1) / 2) ^ 2.
Proof. reflexivity. Qed.

Lemma hav_bounds (lat1 lon1 lat2 lon2 : R) : 0 <= hav lat1 lon1 lat2 lon2 <= 1.
Proof.
  rewrite hav_exact, radians_minus.
  set (p := math.radians lat1). set (q := math.radians lat2).
  set (s := sin (math.radians (lon2 - lon1) / 2) ^ 2).
  assert (Hs : 0 <= s <= 1) by apply sin_sq_bounds.
  rewrite sin_half_sq.
  pose proof (COS_bound (q - p)) as Hm. pose proof (COS_bound (q + p)) as Hp.
  rewrite cos_minus in Hm. rewrite cos_plus in Hp.
  rewrite cos_minus.
  set (cp := cos p) in *. set (cq := cos q) in *.
  set (sp := sin p) in *. set (sq := sin q) in *.
  assert (E : (1 - (cq * cp + sq * sp)) / 2 + cp * cq * s
              = (1 - s) * ((1 - (cq * cp + sq * sp)) / 2)
                + s * ((1 + (cq * cp - sq * sp)) / 2)) by lra.
  rewrite E. split; nra.
Qed.

Lemma asin_le (x y : R) : -1 <= x -> x <= y -> y <= 1 -> asin x <= asin y.
Proof.
  intros Hx Hxy Hy.
  destruct (Rle_lt_dec (asin x) (asin y)) as [H | H]; [exact H | exfalso].
  pose proof (asin_bound x) as Bx. pose proof (asin_bound y) as By.
  assert (Hs : sin (asin y) < sin (asin x))
    by (apply sin_increasing_1; lra).
  rewrite !sin_asin in Hs by lra. lra.
Qed.

Lemma atan2_sqrt (a : R) :
  0 <= a <= 1 ->
  angle (sqrt a) (sqrt (1 - a)) = asin (sqrt a).
Proof.
  intros [H0 H1]. unfold angle.
  destruct (Rlt_dec 0 (sqrt (1 - a))) as [Hpos | Hnpos].
  - assert (Ha : a < 1).
    { destruct (Rlt_le_dec a 1) as [Hl | Hg]; [exact Hl |].
      replace (1 - a) with 0 in Hpos by lra. rewrite sqrt_0 in Hpos. lra. }
    assert (Hsa : 0 <= sqrt a < 1).
    { split; [apply sqrt_pos |]. rewrite <- sqrt_1. apply sqrt_lt_1; lra. }
    rewrite asin_atan by lra.
    replace (1 - (sqrt a)²) with (1 - a); [reflexivity |].
    unfold Rsqr. rewrite sqrt_sqrt by lra. reflexivity.
  - assert (Ha : a = 1).
    { destruct (Rlt_le_dec a 1) as [Hl | Hg]; [| lra].
      exfalso. apply Hnpos. apply sqrt_lt_R0. lra. }
    subst a. replace (1 - 1) with 0 by lra. rewrite sqrt_0, sqrt_1.
    destruct (Rlt_dec 0 0) as [Hc | _]; [lra |].
    destruct (Rlt_dec 0 1) as [_ | Hc]; [| lra].
    symmetry. apply asin_1.
Qed.

Lemma math_sqrt_ok (x : R) : 0 <= x -> math.sqrt x = Ok (sqrt x).
Proof.
  intros Hx. unfold math.sqrt. destruct (Rlt_dec x 0); [lra | reflexivity].
Qed.

(** In exact arithmetic the two square roots are always defined, and the
    angle is an arcsine. *)
Lemma haversine_asin (lat1 lon1 lat2 lon2 : R) :
  haversine lat1 lon1 lat2 lon2
  = Ok (6371 * (2 * asin (sqrt (hav lat1 lon1 lat2 lon2)))).
Proof.
  pose proof (hav_bounds lat1 lon1 lat2 lon2) as Hb.
  change (haversine lat1 lon1 lat2 lon2)
    with (s1 <- math.sqrt (hav lat1 lon1 lat2 lon2) ;;
          s2 <- math.sqrt (1 - hav lat1 lon1 lat2 lon2) ;;
          Ok (6371 * (2 * angle s1 s2)))%result.
  rewrite !math_sqrt_ok by lra. cbn [rbind].
  rewrite atan2_sqrt by exact Hb. reflexivity.
Qed.

Lemma sqrt_sin_sq (x : R) : 0 <= x <= PI -> sqrt (sin x ^ 2) = sin x.
Proof.
  intros Hx. apply sqrt_pow2. apply sin_ge_0; lra.
Qed.

Lemma sin_abs_sq (x : R) : sin (Rabs x) ^ 2 = sin x ^ 2.
Proof.
  unfold Rabs. destruct (Rcase_abs x); [rewrite sin_neg; lra | reflexivity].
Qed.

Lemma radians_abs_half (x : R) :
  Rabs (math.radians x / 2) = math.radians (Rabs x) / 2.
Proof.
  pose proof PI_bounds as HPI.
  rewrite !radians_exact. unfold Rdiv. rewrite !Rabs_mult.
  rewrite (Rabs_pos_eq PI) by lra.
  rewrite !Rabs_inv. rewrite (Rabs_pos_eq 180), (Rabs_pos_eq 2) by lra.
  reflexivity.
Qed.

(** Along a meridian the metric is the arc of the latitude difference. *)
Lemma haversine_meridian (lat1 lat2 lon : R) :
  Rabs (lat2 - lat1) <= 180 ->
  haversine lat1 lon lat2 lon = Ok (6371 * math.radians (Rabs (lat2 - lat1))).
Proof.
  intros Hd. rewrite haversine_asin. f_equal. f_equal.
  rewrite hav_exact. replace (lon - lon) with 0 by lra.
  rewrite (radians_exact 0), Rmult_0_l.
  replace (0 / 2) with 0 by lra. rewrite sin_0.
  replace (sin (math.radians (lat2 - lat1) / 2) ^ 2 + _)
    with (sin (math.radians (lat2 - lat1) / 2) ^ 2) by lra.
  rewrite <- sin_abs_sq.
  pose proof PI_bounds as HPI. pose proof (Rabs_pos (lat2 - lat1)) as Hp.
  rewrite radians_abs_half.
  assert (Hr : 0 <= math.radians (Rabs (lat2 - lat1)) / 2 <= PI / 2).
  { rewrite radians_exact. split; nra. }
  rewrite sqrt_sin_sq by lra. rewrite asin_sin by lra. lra.
Qed.

(** A degree of latitude is more than 111 km: the metric dominates the
    latitude difference whenever both latitudes are valid. *)
Lemma haversine_lat_lower (lat1 lon1 lat2 lon2 d : R) :
  -90 <= lat1 <= 90 -> -90 <= lat2 <= 90 ->
  haversine lat1 lon1 lat2 lon2 = Ok d ->
  111 * Rabs (lat2 - lat1) <= d.
Proof.
  intros H1 H2 Hh. rewrite haversine_asin in Hh. injection Hh as <-.
  pose proof PI_bounds as HPI.
  pose proof (hav_bounds lat1 lon1 lat2 lon2) as Hb.
  set (t := math.radians (Rabs (lat2 - lat1)) / 2).
  assert (Hd : Rabs (lat2 - lat1) <= 180)
    by (unfold Rabs; destruct (Rcase_abs _); lra).
  pose proof (Rabs_pos (lat2 - lat1)) as Hp.
  assert (Ht : 0 <= t <= PI / 2)
    by (unfold t; rewrite radians_exact; split; nra).
  assert (Hc1 : 0 <= cos (math.radians lat1))
    by (apply cos_ge_0; rewrite radians_exact; nra).
  assert (Hc2 : 0 <= cos (math.radians lat2))
    by (apply cos_ge_0; rewrite radians_exact; nra).
  assert (Hlow : sin t ^ 2 <= hav lat1 lon1 lat2 lon2).
  { rewrite hav_exact.
    assert (Es : sin t ^ 2 = sin (math.radians (lat2 - lat1) / 2) ^ 2).
    { rewrite <- (sin_abs_sq (math.radians (lat2 - lat1) / 2)). f_equal. f_equal.
      unfold t. symmetry. apply radians_abs_half. }
    rewrite Es.
    pose proof (sin_sq_bounds (math.radians (lon2 - lon1) / 2)).
    assert (0 <= cos (math.radians lat1) * cos (math.radians lat2)) by nra.
    nra. }
  assert (Hsin : sin t <= sqrt (hav lat1 lon1 lat2 lon2)).
  { rewrite <- (sqrt_sin_sq t) by lra. apply sqrt_le_1_alt. exact Hlow. }
  assert (Hsq1 : sqrt (hav lat1 lon1 lat2 lon2) <= 1).
  { rewrite <- sqrt_1. apply sqrt_le_1_alt. lra. }
  assert (Hs0 : 0 <= sin t) by (apply sin_ge_0; lra).
  assert (Has : t <= asin (sqrt (hav lat1 lon1 lat2 lon2))).
  { rewrite <- (asin_sin t) at 1 by lra. apply asin_le; lra. }
  unfold t in Has. rewrite radians_exact in Has.
  clear - Has HPI Hp. set (x := Rabs (lat2 - lat1)) in *.
  set (y := asin _) in *. nra.
Qed.

Lemma sin_259 : 1 / 4 <= sin (259 / 1000).
Proof.
  pose proof PI_bounds as HPI.
  destruct (SIN (259 / 1000)) as [H _]; [lra | lra |].
  unfold sin_lb, sin_approx, sin_term, sum_f_R0 in H.
  replace (INR (fact (2 * 0 + 1))) with 1 in H by (simpl; lra).
  replace (INR (fact (2 * 1 + 1))) with 6 in H
    by (rewrite INR_IZR_INZ; reflexivity).
  replace (INR (fact (2 * 2 + 1))) with 120 in H
    by (rewrite INR_IZR_INZ; reflexivity).
  replace (INR (fact (2 * 3 + 1))) with 5040 in H
    by (rewrite INR_IZR_INZ; reflexivity).
  simpl in H. lra.
Qed.

Lemma asin_quarter : 1 / 4 <= asin (1 / 4) <= 259 / 1000.
Proof.
  pose proof PI_bounds as HPI. split.
  - assert (H : sin (1 / 4) <= 1 / 4) by (left; apply sin_lt_x; lra).
    rewrite <- (asin_sin (1 / 4)) at 1 by lra.
    pose proof (SIN_bound (1 / 4)). apply asin_le; lra.
  - rewrite <- (asin_sin (259 / 1000)) by lra.
    pose proof (SIN_bound (259 / 1000)). apply asin_le; [lra | apply sin_259 | lra].
Qed.

Lemma radians_60 : math.radians 60 = PI / 3.
Proof. rewrite radians_exact. lra. Qed.

(** From 60N 0E to 60N 60E: [a = 1/16], a distance between 3185 and 3301 km. *)
Lemma haversine_60N_60E :
  exists d : R, haversine 60 0 60 60 = Ok d /\ 3185 <= d <= 3301.
Proof.
  exists (6371 * (2 * asin (sqrt (hav 60 0 60 60)))).
  split; [apply haversine_asin |].
  assert (E : hav 60 0 60 60 = (1 / 4) ^ 2).
  { rewrite hav_exact.
    replace (60 - 60) with 0 by lra. replace (60 - 0) with 60 by lra.
    rewrite radians_60. rewrite (radians_exact 0), Rmult_0_l.
    replace (0 / 2) with 0 by lra. rewrite sin_0.
    replace (PI / 3 / 2) with (PI / 6) by lra.
    rewrite cos_PI3, sin_PI6. lra. }
  rewrite E, sqrt_pow2 by lra.
  pose proof asin_quarter. lra.
Qed.

(** In the exact arithmetic the box is defined wherever the cosine of the
    latitude is not zero. *)
Lemma bounding_box_ok (lat lon r : R) :
  cos (math.radians lat) <> 0 ->
  bounding_box lat lon r
  = Ok (lat - r / 111, lat + r / 111,
        lon - r / (111 * cos (math.radians lat)),
        lon + r / (111 * cos (math.radians lat))).
Proof.
  intros Hc. unfold bounding_box. exact_ops.
  rewrite !truediv_ok by (try lra; nra).
  reflexivity.
Qed.

Lemma bounding_box_60N (lon r : R) :
  bounding_box 60 lon r
  = Ok (60 - r / 111, 60 + r / 111, lon - r / (111 / 2), lon + r / (111 / 2)).
Proof.
  rewrite bounding_box_ok by (rewrite radians_60, cos_PI3; lra).
  rewrite radians_60, cos_PI3.
  replace (111 * (1 / 2)) with (111 / 2) by lra. reflexivity.
Qed.

(** ** Lists, masks and cells *)

Lemma Rleb_true (x y : R) : Rleb x y = true <-> x <= y.
Proof. unfold Rleb. destruct (Rle_dec x y); split; intros; try easy. Qed.

Lemma Rleb_false (x y : R) : Rleb x y = false <-> y < x.
Proof.
  unfold Rleb. destruct (Rle_dec x y); split; intros; try easy; lra.
Qed.

Lemma series_ge_spec (x : R) (s : list value) :
  (Forall numeric s -> series_ge s x = Ok (map (geb x) s)) /\
  (forall m, series_ge s x = Ok m -> Forall numeric s).
Proof.
  unfold series_ge. induction s as [| v s [IH1 IH2]]; cbn [mapM map].
  - split; [reflexivity | constructor].
  - split.
    + intros Hn. inversion Hn as [| ? ? Hv Hs]; subst.
      rewrite (IH1 Hs). destruct v; cbn in *; [reflexivity .. | contradiction].
    + intros m Hm. destruct v as [y | | t]; cbn in Hm; try discriminate;
        destruct (mapM (value_ge x) s) eqn:E; cbn in Hm; try discriminate;
        constructor; cbn; eauto.
Qed.

Lemma series_le_spec (x : R) (s : list value) :
  (Forall numeric s -> series_le s x = Ok (map (leb x) s)) /\
  (forall m, series_le s x = Ok m -> Forall numeric s).
Proof.
  unfold series_le. induction s as [| v s [IH1 IH2]]; cbn [mapM map].
  - split; [reflexivity | constructor].
  - split.
    + intros Hn. inversion Hn as [| ? ? Hv Hs]; subst.
      rewrite (IH1 Hs). destruct v; cbn in *; [reflexivity .. | contradiction].
    + intros m Hm. destruct v as [y | | t]; cbn in Hm; try discriminate;
        destruct (mapM (value_le x) s) eqn:E; cbn in Hm; try discriminate;
        constructor; cbn; eauto.
Qed.

Lemma mask_and_map {A : Type} (f g : A -> bool) (l : list A) :
  mask_and (map f l) (map g l) = map (fun x => f x && g x) l.
Proof.
  unfold mask_and. induction l as [| x l IH]; cbn; [reflexivity |].
  now rewrite IH.
Qed.

Lemma select_map {A : Type} (f : A -> bool) (l : list A) :
  select l (map f l) = filter f l.
Proof.
  induction l as [| x l IH]; cbn; [reflexivity |].
  rewrite IH. reflexivity.
Qed.

Lemma combine_map_self {A B C : Type} (f : A -> B) (g : B -> A -> C) (l : list A) :
  map (fun p => g (fst p) (snd p)) (combine (map f l) l)
  = map (fun x => g (f x) x) l.
Proof.
  induction l as [| x l IH]; cbn; [reflexivity |]. now rewrite IH.
Qed.

Lemma cell_nil (i : nat) : cell i [] = VNaN.
Proof. unfold cell. destruct i; reflexivity. Qed.

Lemma cell_set_cell_same (i : nat) (v : value) (r : Row) :
  cell i (set_cell i v r) = v.
Proof.
  revert r. induction i as [| i IH]; intros [| x r]; cbn; try reflexivity;
    apply IH.
Qed.

Lemma cell_set_cell_other (i j : nat) (v : value) (r : Row) :
  i <> j -> cell j (set_cell i v r) = cell j r.
Proof.
  revert j r. induction i as [| i IH]; intros [| j] [| x r] Hij;
    try congruence; try reflexivity.
  - destruct j; reflexivity.
  - change (cell j (set_cell i v []) = cell (S j) []).
    rewrite (IH j [] ltac:(congruence)). now rewrite !cell_nil.
  - apply (IH j r). congruence.
Qed.

Lemma get_loc_lt (n : string) (cols : list string) (i : nat) :
  get_loc n cols = Some i -> (i < List.length cols)%nat.
Proof.
  revert i. induction cols as [| c cols IH]; cbn; intros i Hi; [discriminate |].
  destruct (String.eqb n c).
  - injection Hi as <-. lia.
  - destruct (get_loc n cols) as [j |]; cbn in Hi; [| discriminate].
    injection Hi as <-. specialize (IH j eq_refl). lia.
Qed.

Lemma get_loc_inj (n1 n2 : string) (cols : list string) (i : nat) :
  get_loc n1 cols = Some i -> get_loc n2 cols = Some i -> n1 = n2.
Proof.
  revert i. induction cols as [| c cols IH]; cbn; intros i H1 H2; [discriminate |].
  destruct (String.eqb_spec n1 c) as [-> | N1], (String.eqb_spec n2 c) as [-> | N2].
  - reflexivity.
  - injection H1 as <-. destruct (get_loc n2 cols); discriminate.
  - injection H2 as <-. destruct (get_loc n1 cols); discriminate.
  - destruct (get_loc n1 cols) as [j1 |], (get_loc n2 cols) as [j2 |];
      cbn in *; try discriminate.
    apply (IH j1); [reflexivity |]. congruence.
Qed.

Lemma get_loc_app_found (n : string) (cols l : list string) (i : nat) :
  get_loc n cols = Some i -> get_loc n (cols ++ l) = Some i.
Proof.
  revert i. induction cols as [| c cols IH]; cbn; intros i Hi; [discriminate |].
  destruct (String.eqb n c); [exact Hi |].
  destruct (get_loc n cols) as [j |]; cbn in Hi; [| discriminate].
  now rewrite (IH j eq_refl).
Qed.

Lemma get_loc_app_missing (n m : string) (cols : list string) :
  get_loc n cols = None ->
  get_loc n (cols ++ [m])
  = if String.eqb n m then Some (List.length cols) else None.
Proof.
  induction cols as [| c cols IH]; cbn; intros Hn.
  - destruct (String.eqb n m); reflexivity.
  - destruct (String.eqb n c); [discriminate |].
    destruct (get_loc n cols) as [j |]; cbn in Hn; [discriminate |].
    rewrite (IH eq_refl). destruct (String.eqb n m); reflexivity.
Qed.


Lemma get_loc_distance (cols : list string) :
  get_loc "distance_km" (distance_columns cols) = Some (distance_loc cols).
Proof.
  unfold distance_columns, distance_loc.
  destruct (get_loc "distance_km" cols) as [i |] eqn:E; [exact E |].
  rewrite (get_loc_app_missing _ _ _ E). reflexivity.
Qed.

Lemma get_loc_distance_other (n : string) (cols : list string) :
  n <> "distance_km"%string ->
  get_loc n (distance_columns cols) = get_loc n cols.
Proof.
  intros Hn. unfold distance_columns.
  destruct (get_loc "distance_km" cols) as [i |] eqn:E; [reflexivity |].
  destruct (get_loc n cols) as [j |] eqn:Ej.
  - apply get_loc_app_found. exact Ej.
  - rewrite (get_loc_app_missing _ _ _ Ej).
    destruct (String.eqb_spec n "distance_km"); [contradiction | reflexivity].
Qed.

Lemma get_loc_not_distance (n : string) (cols : list string) (j : nat) :
  n <> "distance_km"%string -> get_loc n cols = Some j -> distance_loc cols <> j.
Proof.
  intros Hn Hj. unfold distance_loc.
  destruct (get_loc "distance_km" cols) as [i |] eqn:E.
  - intros ->. apply Hn. symmetry. eapply get_loc_inj; eassumption.
  - apply get_loc_lt in Hj. lia.
Qed.

(** ** Running the pipeline, in any arithmetic *)

Lemma nth_length_app {A : Type} (l : list A) (x d : A) (l' : list A) :
  nth (List.length l) (l ++ x :: l') d = x.
Proof. induction l; cbn; auto. Qed.

Lemma update_length_app {A : Type} (l : list A) (x y : A) (l' : list A) :
  update (List.length l) x (l ++ y :: l') = l ++ x :: l'.
Proof. induction l as [| a l IH]; cbn; [reflexivity | now rewrite IH]. Qed.

Lemma nth_S_length_app {A : Type} (l : list A) (x y d : A) :
  nth (S (List.length l)) (l ++ [x; y]) d = y.
Proof. induction l; cbn; auto. Qed.

Lemma mapM_ok {X Y : Type} (f : X -> result Y) (d : Y) (l : list X)
    (ys : list Y) :
  mapM f l = Ok ys ->
  ys = map (fun x => match f x with Ok y => y | Raise _ => d end) l.
Proof.
  revert ys. induction l as [| x l IH]; cbn [mapM map]; intros ys H.
  - now injection H as <-.
  - destruct (f x) as [y | e]; cbn [rbind] in H; [| discriminate].
    destruct (mapM f l) as [ys' | e]; cbn [rbind] in H; [| discriminate].
    injection H as <-. now rewrite (IH ys' eq_refl).
Qed.

Lemma mapM_raise {X Y : Type} (f : X -> result Y) (l : list X) (e : exn) :
  mapM f l = Raise e -> exists x, In x l /\ f x = Raise e.
Proof.
  induction l as [| x l IH]; cbn [mapM]; intros H; [discriminate |].
  destruct (f x) as [y | e'] eqn:E; cbn [rbind] in H.
  - destruct (mapM f l) as [ys' | e']; cbn [rbind] in H; [discriminate |].
    destruct (IH H) as [x' [Hx' Hf]]. exists x'. split; [now right | exact Hf].
  - exists x. split; [now left | congruence].
Qed.

Lemma mapM_all_ok {X Y : Type} (f : X -> result Y) (l : list X) :
  (forall x, In x l -> exists y, f x = Ok y) -> exists ys, mapM f l = Ok ys.
Proof.
  induction l as [| x l IH]; cbn [mapM]; intros H; [eauto |].
  destruct (H x (or_introl eq_refl)) as [y ->].
  destruct IH as [ys ->]; [intros x' Hx'; apply H; now right |].
  cbn. eauto.
Qed.

Lemma set_column_distance (d : DataFrame) (f : Row -> value) :
  set_column d "distance_km" (map f (rows d))
  = Ok (mkDF (distance_columns (columns d))
             (map (fun r => set_cell (distance_loc (columns d)) (f r) r) (rows d))).
Proof.
  unfold set_column, distance_columns, distance_loc.
  rewrite length_map, Nat.eqb_refl. cbn [negb].
  destruct (get_loc "distance_km" (columns d));
    now rewrite (combine_map_self f (fun v r => set_cell _ v r)).
Qed.

Lemma in_box_numeric box ilat ilon r :
  in_box box ilat ilon r = true -> numeric (cell ilat r) /\ numeric (cell ilon r).
Proof.
  destruct box as [[[a b] c] d]. unfold in_box.
  destruct (cell ilat r), (cell ilon r); cbn; rewrite ?andb_false_r; try easy.
Qed.

Lemma city_loop_first_seen (cols : list string) (icity : nat) (rs : list Row)
    (acc : list value) :
  get_loc "City" cols = Some icity ->
  city_loop cols rs acc = Ok (first_seen (map (cell icity) rs) acc).
Proof.
  intros Hc. revert acc. induction rs as [| r rs IH]; intros acc; cbn.
  - reflexivity.
  - unfold row_getitem. rewrite Hc. cbn [rbind]. apply IH.
Qed.

Lemma existsb_get_loc_eq (n : string) (cols : list string) :
  existsb (String.eqb n) cols
  = match get_loc n cols with Some _ => true | None => false end.
Proof.
  induction cols as [| c cols IH]; cbn; [reflexivity |].
  destruct (String.eqb n c); cbn; [reflexivity |].
  rewrite IH. destruct (get_loc n cols); reflexivity.
Qed.

Lemma series_ge_string (x : R) (s : list value) :
  Exists (fun v => ~ numeric v) s -> series_ge s x = Raise TypeError.
Proof.
  unfold series_ge. intros H. induction H as [v s Hv | v s _ IH]; cbn [mapM].
  - destruct v; cbn in *; tauto || reflexivity.
  - rewrite IH. destruct v; reflexivity.
Qed.

Lemma numeric_dec (v : value) : {numeric v} + {~ numeric v}.
Proof. destruct v; cbn; auto. Qed.

Section Steps.
Context {A : FloatArith}.

(** The only exception of [haversine] is the domain error of [math.sqrt]. *)
Lemma haversine_raises (lat1 lon1 lat2 lon2 : R) (e : exn) :
  haversine lat1 lon1 lat2 lon2 = Raise e -> e = ValueError.
Proof.
  unfold haversine, math.sqrt.
  destruct (Rlt_dec _ 0); cbn [rbind]; [congruence |].
  destruct (Rlt_dec _ 0); cbn [rbind]; [congruence | discriminate].
Qed.

(** It is raised when the quantity [a] leaves [0, 1]. *)
Lemma haversine_domain_error (lat1 lon1 lat2 lon2 : R) :
  hav lat1 lon1 lat2 lon2 < 0 \/ (1 - hav lat1 lon1 lat2 lon2)%fl < 0 ->
  haversine lat1 lon1 lat2 lon2 = Raise ValueError.
Proof.
  intros H.
  change (haversine lat1 lon1 lat2 lon2)
    with (s1 <- math.sqrt (hav lat1 lon1 lat2 lon2) ;;
          s2 <- math.sqrt (1 - hav lat1 lon1 lat2 lon2)%fl ;;
          Ok (6371 * (2 * math.atan2 s1 s2))%fl)%result.
  unfold math.sqrt.
  destruct (Rlt_dec (hav lat1 lon1 lat2 lon2) 0); [reflexivity |].
  cbn [rbind].
  destruct (Rlt_dec (1 - hav lat1 lon1 lat2 lon2)%fl 0); [reflexivity | lra].
Qed.

Lemma haversine_cells_numeric (lat_x lon_x : R) (la lo v : value) :
  haversine_cells lat_x lon_x la lo = Ok v -> numeric v.
Proof.
  unfold haversine_cells.
  destruct la, lo; try discriminate; try (intros [= <-]; exact I).
  destruct (haversine lat_x lon_x x x0); cbn [rbind]; [| discriminate].
  intros [= <-]. exact I.
Qed.

Lemma distance_cell_numeric (lat_x lon_x : R) (ilat ilon : nat) (r : Row) :
  numeric (distance_cell lat_x lon_x ilat ilon r).
Proof.
  unfold distance_cell.
  destruct (haversine_cells _ _ _ _) as [v | e] eqn:E; [| exact I].
  exact (haversine_cells_numeric _ _ _ _ _ E).
Qed.

Lemma distance_cell_VNum (lat_x lon_x : R) (ilat ilon : nat) (r : Row) (d : R) :
  distance_cell lat_x lon_x ilat ilon r = VNum d <->
  exists la lo, cell ilat r = VNum la /\ cell ilon r = VNum lo /\
                haversine lat_x lon_x la lo = Ok d.
Proof.
  unfold distance_cell, haversine_cells. split.
  - destruct (cell ilat r) as [la | |], (cell ilon r) as [lo | |];
      try discriminate.
    destruct (haversine lat_x lon_x la lo) as [d' |] eqn:Eh; cbn [rbind];
      [| discriminate].
    intros [= <-]. exists la, lo. auto.
  - intros [la [lo [-> [-> ->]]]]. reflexivity.
Qed.

Lemma candidate_frame_numeric (lat_x lon_x : R) (box : R * R * R * R)
    (ilat ilon : nat) (cat : DataFrame) :
  Forall (fun r => numeric (cell (distance_loc (columns cat)) r))
         (rows (candidate_frame lat_x lon_x box ilat ilon cat)).
Proof.
  cbn [candidate_frame rows]. apply Forall_map, Forall_forall. intros r _.
  unfold with_distance. rewrite cell_set_cell_same. apply distance_cell_numeric.
Qed.

Lemma apply_distance (lat_x lon_x : R) (cols : list string) (ilat ilon : nat)
    (rs : list Row) :
  get_loc "Latitude" cols = Some ilat ->
  get_loc "Longitude" cols = Some ilon ->
  mapM (fun r =>
          (la <- row_getitem cols r "Latitude" ;;
           lo <- row_getitem cols r "Longitude" ;;
           haversine_cells lat_x lon_x la lo)%result) rs
  = distances lat_x lon_x ilat ilon rs.
Proof.
  intros Hla Hlo. unfold distances.
  induction rs as [| r rs IH]; cbn [mapM]; [reflexivity |].
  rewrite IH. unfold row_getitem. rewrite Hla, Hlo. reflexivity.
Qed.

Lemma distances_ok (lat_x lon_x : R) (ilat ilon : nat) (rs : list Row)
    (ds : list value) :
  distances lat_x lon_x ilat ilon rs = Ok ds ->
  ds = map (distance_cell lat_x lon_x ilat ilon) rs.
Proof. apply (mapM_ok _ VNaN). Qed.

(** A distance computation that fails does so with the domain error of
    [haversine], on a row with both coordinates. *)
Lemma distances_raise (lat_x lon_x : R) (ilat ilon : nat) (rs : list Row)
    (e : exn) :
  Forall (fun r => numeric (cell ilat r) /\ numeric (cell ilon r)) rs ->
  distances lat_x lon_x ilat ilon rs = Raise e ->
  e = ValueError /\
  exists r la lo, In r rs /\ cell ilat r = VNum la /\ cell ilon r = VNum lo /\
                  haversine lat_x lon_x la lo = Raise ValueError.
Proof.
  intros Hn H. apply mapM_raise in H. destruct H as [r [Hr He]].
  rewrite Forall_forall in Hn. destruct (Hn r Hr) as [N1 N2].
  unfold haversine_cells in He.
  destruct (cell ilat r) as [la | |] eqn:Ela, (cell ilon r) as [lo | |] eqn:Elo;
    cbn in N1, N2, He; try contradiction; try discriminate.
  destruct (haversine lat_x lon_x la lo) as [d | e'] eqn:Eh; cbn [rbind] in He;
    [discriminate |].
  injection He as <-. pose proof (haversine_raises _ _ _ _ _ Eh) as ->.
  split; [reflexivity |]. exists r, la, lo. auto.
Qed.

Lemma box_rows_numeric (box : R * R * R * R) (ilat ilon : nat) (cat : DataFrame) :
  Forall (fun r => numeric (cell ilat r) /\ numeric (cell ilon r))
         (box_rows box ilat ilon cat).
Proof.
  apply Forall_forall. intros r Hr. apply filter_In in Hr.
  apply (in_box_numeric _ _ _ _ (proj2 Hr)).
Qed.

(** Lines 81-91, when the box is computed and the coordinate columns hold
    floats and missing values: the candidates, or the failure of a
    distance, which leaves the selection and its copy behind. *)
Lemma box_candidates_steps (w : world) (df : addr) (lat_x lon_x md tol : R)
    (box : R * R * R * R) (ilat ilon : nat) :
  let cat := nth df (heap w) empty_frame in
  bounding_box lat_x lon_x (md + tol)%fl = Ok box ->
  get_loc "Latitude" (columns cat) = Some ilat ->
  get_loc "Longitude" (columns cat) = Some ilon ->
  Forall (fun r => numeric (cell ilat r)) (rows cat) ->
  Forall (fun r => numeric (cell ilon r)) (rows cat) ->
  let sel := mkDF (columns cat) (box_rows box ilat ilon cat) in
  box_candidates df lat_x lon_x md tol w
  = match distances lat_x lon_x ilat ilon (rows sel) with
    | Ok _ =>
        (Ok (S (List.length (heap w))),
         mkWorld (heap w ++ [sel; candidate_frame lat_x lon_x box ilat ilon cat])
                 (stdout w))
    | Raise e => (Raise e, mkWorld (heap w ++ [sel; sel]) (stdout w))
    end.
Proof.
  intros cat Hbox Hla Hlo Nla Nlo sel.
  unfold box_candidates, bind at 1, lift at 1. rewrite Hbox.
  destruct box as [[[min_lat max_lat] min_lon] max_lon].
  unfold getitem, bind, deref, lift, column. fold cat. rewrite Hla, Hlo.
  rewrite (proj1 (series_ge_spec _ _)) by (apply Forall_map; exact Nla).
  rewrite (proj1 (series_le_spec _ _)) by (apply Forall_map; exact Nla).
  rewrite (proj1 (series_ge_spec _ _)) by (apply Forall_map; exact Nlo).
  rewrite (proj1 (series_le_spec _ _)) by (apply Forall_map; exact Nlo).
  rewrite !map_map, !mask_and_map.
  unfold getitem_mask, copy, apply_rows, setitem, bind, deref, alloc, lift,
    assign, ret.
  fold cat. rewrite select_map. cbn [heap stdout].
  change (filter _ (rows cat))
    with (box_rows (min_lat, max_lat, min_lon, max_lon) ilat ilon cat).
  fold sel.
  rewrite !nth_length_app.
  rewrite (apply_distance lat_x lon_x (columns sel) ilat ilon);
    [| exact Hla | exact Hlo].
  destruct (distances lat_x lon_x ilat ilon (rows sel)) as [ds | e] eqn:Ed.
  - apply distances_ok in Ed. subst ds.
    rewrite set_column_distance.
    rewrite length_app. cbn [List.length]. rewrite Nat.add_1_r.
    f_equal. f_equal.
    replace (S (List.length (heap w))) with (List.length (heap w ++ [sel]))
      by (rewrite length_app; cbn; lia).
    rewrite update_length_app. rewrite <- app_assoc. reflexivity.
  - rewrite <- app_assoc. reflexivity.
Qed.

Lemma box_candidates_ok_inv (w w' : world) (df a : addr) (lat_x lon_x md tol : R) :
  let cat := nth df (heap w) empty_frame in
  box_candidates df lat_x lon_x md tol w = (Ok a, w') ->
  exists box ilat ilon,
    bounding_box lat_x lon_x (md + tol)%fl = Ok box /\
    get_loc "Latitude" (columns cat) = Some ilat /\
    get_loc "Longitude" (columns cat) = Some ilon /\
    Forall (fun r => numeric (cell ilat r)) (rows cat) /\
    Forall (fun r => numeric (cell ilon r)) (rows cat).
Proof.
  intros cat. unfold box_candidates, bind at 1, lift at 1.
  destruct (bounding_box lat_x lon_x (md + tol)%fl) as [box | e]; [| discriminate].
  destruct box as [[[min_lat max_lat] min_lon] max_lon].
  unfold getitem, bind, deref, lift, column. fold cat.
  destruct (get_loc "Latitude" (columns cat)) as [ilat |]; [| discriminate].
  destruct (series_ge (map (cell ilat) (rows cat)) min_lat) as [m1 |] eqn:E1;
    [| discriminate].
  apply (proj2 (series_ge_spec _ _)) in E1. rewrite Forall_map in E1.
  destruct (series_le (map (cell ilat) (rows cat)) max_lat) as [m2 |];
    [| discriminate].
  destruct (get_loc "Longitude" (columns cat)) as [ilon |]; [| discriminate].
  destruct (series_ge (map (cell ilon) (rows cat)) min_lon) as [m3 |] eqn:E3;
    [| discriminate].
  apply (proj2 (series_ge_spec _ _)) in E3. rewrite Forall_map in E3.
  intros _. exists (min_lat, max_lat, min_lon, max_lon), ilat, ilon.
  repeat split; assumption || reflexivity.
Qed.

Lemma box_candidates_no_box (w : world) (df : addr) (lat_x lon_x md tol : R)
    (e : exn) :
  bounding_box lat_x lon_x (md + tol)%fl = Raise e ->
  box_candidates df lat_x lon_x md tol w = (Raise e, w).
Proof.
  intros Hbox. unfold box_candidates, bind at 1, lift at 1. now rewrite Hbox.
Qed.

Lemma box_candidates_no_latitude (w : world) (df : addr) (lat_x lon_x md tol : R)
    (box : R * R * R * R) :
  bounding_box lat_x lon_x (md + tol)%fl = Ok box ->
  get_loc "Latitude" (columns (nth df (heap w) empty_frame)) = None ->
  box_candidates df lat_x lon_x md tol w = (Raise (KeyError "Latitude"), w).
Proof.
  intros Hbox Hla. unfold box_candidates, bind at 1, lift at 1. rewrite Hbox.
  destruct box as [[[min_lat max_lat] min_lon] max_lon].
  unfold bind at 1, getitem, bind at 1, deref, lift, column. rewrite Hla.
  reflexivity.
Qed.

Lemma box_candidates_no_longitude (w : world) (df : addr)
    (lat_x lon_x md tol : R) (box : R * R * R * R) (ilat : nat) :
  let cat := nth df (heap w) empty_frame in
  bounding_box lat_x lon_x (md + tol)%fl = Ok box ->
  get_loc "Latitude" (columns cat) = Some ilat ->
  Forall (fun r => numeric (cell ilat r)) (rows cat) ->
  get_loc "Longitude" (columns cat) = None ->
  box_candidates df lat_x lon_x md tol w = (Raise (KeyError "Longitude"), w).
Proof.
  intros cat Hbox Hla Nla Hlo. unfold box_candidates, bind at 1, lift at 1.
  rewrite Hbox. destruct box as [[[min_lat max_lat] min_lon] max_lon].
  unfold getitem, bind, deref, lift, column. fold cat. rewrite Hla, Hlo.
  rewrite (proj1 (series_ge_spec _ _)) by (apply Forall_map; exact Nla).
  rewrite (proj1 (series_le_spec _ _)) by (apply Forall_map; exact Nla).
  reflexivity.
Qed.

(** A string in a coordinate column fails the first comparison made on
    that column. *)
Lemma box_candidates_text (w : world) (df : addr) (lat_x lon_x md tol : R)
    (box : R * R * R * R) (ilat : nat) :
  let cat := nth df (heap w) empty_frame in
  bounding_box lat_x lon_x (md + tol)%fl = Ok box ->
  get_loc "Latitude" (columns cat) = Some ilat ->
  (Exists (fun r => ~ numeric (cell ilat r)) (rows cat) \/
   exists ilon, get_loc "Longitude" (columns cat) = Some ilon /\
                Exists (fun r => ~ numeric (cell ilon r)) (rows cat)) ->
  box_candidates df lat_x lon_x md tol w = (Raise TypeError, w).
Proof.
  intros cat Hbox Hla Hstr.
  unfold box_candidates, bind at 1, lift at 1.
  rewrite Hbox. destruct box as [[[a b] c] d].
  unfold getitem, bind, deref, lift, column. fold cat. rewrite Hla.
  destruct (Forall_Exists_dec (fun r => numeric (cell ilat r))
              (fun r => numeric_dec (cell ilat r)) (rows cat)) as [Nla | Sla].
  - destruct Hstr as [Sla | [ilon [Hlo Slo]]].
    + exfalso. apply Exists_exists in Sla. destruct Sla as [r [Hr Hs]].
      rewrite Forall_forall in Nla. exact (Hs (Nla r Hr)).
    + rewrite Hlo.
      rewrite (proj1 (series_ge_spec _ _)) by (apply Forall_map; exact Nla).
      rewrite (proj1 (series_le_spec _ _)) by (apply Forall_map; exact Nla).
      rewrite series_ge_string; [reflexivity |].
      apply Exists_exists in Slo. destruct Slo as [r [Hr Hs]].
      apply Exists_exists. exists (cell ilon r).
      split; [apply in_map; exact Hr | exact Hs].
  - rewrite series_ge_string; [reflexivity |].
    apply Exists_exists in Sla. destruct Sla as [r [Hr Hs]].
    apply Exists_exists. exists (cell ilat r).
    split; [apply in_map; exact Hr | exact Hs].
Qed.

Lemma band_filter_run (w : world) (a : addr) (md tol : R) (idist : nat) :
  let cand := nth a (heap w) empty_frame in
  get_loc "distance_km" (columns cand) = Some idist ->
  Forall (fun r => numeric (cell idist r)) (rows cand) ->
  band_filter a md tol w
  = (Ok (List.length (heap w)),
     mkWorld (heap w ++ [band_frame md tol idist cand]) (stdout w)).
Proof.
  intros cand Hd Nd.
  unfold band_filter, getitem, getitem_mask, bind, deref, lift, column, alloc.
  fold cand. rewrite Hd.
  rewrite (proj1 (series_ge_spec _ _)) by (apply Forall_map; exact Nd).
  rewrite (proj1 (series_le_spec _ _)) by (apply Forall_map; exact Nd).
  rewrite !map_map, mask_and_map, select_map. reflexivity.
Qed.

End Steps.

(** ** The city loop keeps the nearest place of each locality *)

Lemma value_in_In (c : value) (l : list value) : value_in c l = true <-> In c l.
Proof.
  unfold value_in. rewrite existsb_exists. split.
  - intros [x [Hx E]]. destruct (value_eq_dec c x); [subst; exact Hx | discriminate].
  - intros Hc. exists c. split; [exact Hc |].
    destruct (value_eq_dec c c); [reflexivity | contradiction].
Qed.

Lemma NoDup_snoc {A : Type} (l : list A) (x : A) :
  NoDup l -> ~ In x l -> NoDup (l ++ [x]).
Proof.
  intros Hl Hx. induction Hl as [| y l Hy Hl IH]; cbn.
  - constructor; [intros [] | constructor].
  - constructor.
    + rewrite in_app_iff. intros [H | [H | []]]; [contradiction |].
      subst. apply Hx. now left.
    + apply IH. intros H. apply Hx. now right.
Qed.

Lemma StronglySorted_snoc (l : list R) (x : R) :
  StronglySorted Rle l -> (forall y, In y l -> y <= x) ->
  StronglySorted Rle (l ++ [x]).
Proof.
  intros Hl Hx. induction Hl as [| y l Hl IH Hy]; cbn.
  - constructor; constructor.
  - constructor.
    + apply IH. intros z Hz. apply Hx. now right.
    + apply Forall_app. split; [exact Hy |].
      constructor; [apply Hx; now left | constructor].
Qed.

Lemma StronglySorted_weaken {A : Type} (P Q : A -> A -> Prop) (l : list A) :
  (forall a b, In a l -> In b l -> P a b -> Q a b) ->
  StronglySorted P l -> StronglySorted Q l.
Proof.
  intros HPQ Hl. induction Hl as [| a l Hl IH Ha].
  - constructor.
  - constructor.
    + apply IH. intros x y Hx Hy. apply HPQ; now right.
    + rewrite Forall_forall in *. intros b Hb.
      apply HPQ; [now left | now right | now apply Ha].
Qed.

Lemma In_firstn {A : Type} (n : nat) (l : list A) (x : A) :
  In x (firstn n l) -> In x l.
Proof.
  revert n. induction l as [| a l IH]; intros [| n]; cbn; try tauto.
  intros [H | H]; [now left | right; eapply IH; exact H].
Qed.

Lemma StronglySorted_firstn {A : Type} (P : A -> A -> Prop) (n : nat) (l : list A) :
  StronglySorted P l -> StronglySorted P (firstn n l).
Proof.
  intros Hl. revert n. induction Hl as [| a l Hl IH Ha]; intros [| n]; cbn;
    try constructor.
  - apply IH.
  - rewrite Forall_forall in *. intros b Hb. apply Ha.
    eapply In_firstn. exact Hb.
Qed.

Lemma NoDup_firstn {A : Type} (n : nat) (l : list A) :
  NoDup l -> NoDup (firstn n l).
Proof.
  intros Hl. revert n. induction Hl as [| a l Ha Hl IH]; intros [| n]; cbn;
    try constructor.
  - intros H. apply Ha. eapply In_firstn. exact H.
  - apply IH.
Qed.

Lemma Forall2_firstn {A B : Type} (P : A -> B -> Prop) (n : nat)
    (l : list A) (l' : list B) :
  Forall2 P l l' -> Forall2 P (firstn n l) (firstn n l').
Proof.
  intros H. revert n. induction H as [| a b l l' Hab H IH]; intros [| n]; cbn;
    constructor; auto.
Qed.

Section FirstSeen.
Context {A : Type} (city : A -> value) (dist : A -> R) (L : list A).

(* [d] is the distance of an element of locality [c], and the least one *)
Let nearest (c : value) (d : R) : Prop :=
  (exists a, In a L /\ city a = c /\ dist a = d) /\
  (forall a, In a L -> city a = c -> d <= dist a).

Lemma first_seen_invariant (post : list A) :
  forall (acc : list value) (ds : list R),
    StronglySorted (fun a b => dist a <= dist b) post ->
    (forall a, In a post -> In a L) ->
    NoDup acc ->
    Forall2 nearest acc ds ->
    StronglySorted Rle ds ->
    (forall d a, In d ds -> In a post -> d <= dist a) ->
    (forall a, In a L -> In a post \/ In (city a) acc) ->
    NoDup (first_seen (map city post) acc) /\
    exists ds', Forall2 nearest (first_seen (map city post) acc) ds' /\
                StronglySorted Rle ds'.
Proof.
  induction post as [| a post IH]; intros acc ds Hs Hsub Hnd Hq Hds Hle Hseen.
  - cbn. split; [exact Hnd |]. exists ds. split; assumption.
  - cbn [map first_seen].
    inversion Hs as [| ? ? Hs' Ha]; subst. rewrite Forall_forall in Ha.
    destruct (value_in (city a) acc) eqn:E.
    + apply value_in_In in E. apply (IH acc ds); auto.
      * intros x Hx. apply Hsub. now right.
      * intros d x Hd Hx. apply Hle; [exact Hd | now right].
      * intros x Hx. destruct (Hseen x Hx) as [[-> | H] | H]; auto.
    + assert (Hn : ~ In (city a) acc).
      { intros H. apply value_in_In in H. congruence. }
      apply (IH (acc ++ [city a]) (ds ++ [dist a])); auto.
      * intros x Hx. apply Hsub. now right.
      * apply NoDup_snoc; assumption.
      * apply Forall2_app; [exact Hq |]. constructor; [| constructor].
        split.
        -- exists a. repeat split. apply Hsub. now left.
        -- intros x Hx Hc. destruct (Hseen x Hx) as [[-> | H] | H].
           ++ apply Rle_refl.
           ++ apply Ha. exact H.
           ++ rewrite Hc in H. contradiction.
      * apply StronglySorted_snoc; [exact Hds |].
        intros y Hy. apply Hle; [exact Hy | now left].
      * intros d x Hd Hx. apply in_app_iff in Hd.
        destruct Hd as [Hd | [<- | []]].
        -- apply Hle; [exact Hd | now right].
        -- apply Ha. exact Hx.
      * intros x Hx. rewrite in_app_iff.
        destruct (Hseen x Hx) as [[-> | H] | H]; auto.
        right. right. now left.
Qed.

Lemma first_seen_nearest :
  StronglySorted (fun a b => dist a <= dist b) L ->
  NoDup (first_seen (map city L) []) /\
  exists ds, Forall2 nearest (first_seen (map city L) []) ds /\
             StronglySorted Rle ds.
Proof.
  intros Hs. apply (first_seen_invariant L [] []); auto.
  all: try (constructor; fail).
  intros ? ? [].
Qed.

End FirstSeen.

Lemma first_seen_In (c : value) (l acc : list value) :
  In c (first_seen l acc) <-> In c acc \/ In c l.
Proof.
  revert acc. induction l as [| x l IH]; intros acc; cbn.
  - tauto.
  - rewrite IH. destruct (value_in x acc) eqn:E.
    + apply value_in_In in E. split; [tauto |].
      intros [H | [<- | H]]; auto.
    + rewrite in_app_iff. cbn. tauto.
Qed.

Lemma first_seen_prefix (l acc : list value) :
  exists l', first_seen l acc = acc ++ l'.
Proof.
  revert acc. induction l as [| x l IH]; intros acc; cbn.
  - exists []. now rewrite app_nil_r.
  - destruct (value_in x acc).
    + apply IH.
    + destruct (IH (acc ++ [x])) as [l' E]. exists (x :: l').
      rewrite E, <- app_assoc. reflexivity.
Qed.

Lemma first_seen_NoDup (l acc : list value) :
  NoDup acc -> NoDup (first_seen l acc).
Proof.
  revert acc. induction l as [| x l IH]; intros acc Hacc; cbn; [exact Hacc |].
  destruct (value_in x acc) eqn:E; apply IH; [exact Hacc |].
  apply NoDup_snoc; [exact Hacc |]. intros H. apply value_in_In in H. congruence.
Qed.

Lemma In_firstn_or_full {A : Type} (n : nat) (l : list A) (x : A) :
  In x l -> In x (firstn n l) \/ List.length (firstn n l) = n.
Proof.
  revert n. induction l as [| a l IH]; intros n Hx; [destruct Hx |].
  destruct n as [| n]; [right; reflexivity |].
  destruct Hx as [-> | Hx]; [left; now left |].
  destruct (IH n Hx) as [H | H]; [left; now right | right; cbn; now rewrite H].
Qed.

Section Pipeline.
Context {A : FloatArith}.
Variable sort_rows : (Row -> value) -> list Row -> list Row.

Lemma collect_cities_run (w : world) (a : addr) (idist : nat) :
  let d := nth a (heap w) empty_frame in
  get_loc "distance_km" (columns d) = Some idist ->
  collect_cities sort_rows a w
  = let sorted := sort_rows (cell idist) (rows d) in
    let h := heap w ++ [mkDF (columns d) sorted] in
    match get_loc "City" (columns d), get_loc "Name" (columns d) with
    | Some icity, Some _ =>
        let city := first_seen (map (cell icity) sorted) [] in
        (Ok (firstn 5 city),
         mkWorld h (stdout w ++ [PrintList (firstn 5 city)]))
    | _, _ =>
        (Ok [],
         mkWorld h (stdout w ++
                    [PrintStr "Columns 'City' and 'Name' not found in DataFrame"]))
    end.
Proof.
  intros d Hd.
  unfold collect_cities, sort_values, bind at 1, bind at 1, deref at 1.
  fold d. rewrite Hd. unfold alloc at 1, bind at 1, deref.
  cbn [heap stdout]. rewrite nth_length_app. cbn [columns rows].
  rewrite !existsb_get_loc_eq.
  destruct (get_loc "City" (columns d)) as [icity |] eqn:Ec; cbn [andb];
    [| reflexivity].
  destruct (get_loc "Name" (columns d)) as [iname |]; [| reflexivity].
  unfold bind, lift. rewrite (city_loop_first_seen _ icity _ _ Ec).
  reflexivity.
Qed.

(** The whole call, when the box is computed and the coordinate columns
    hold floats and missing values: it stops at a distance that fails, or
    goes through and returns. *)
Lemma filter_places_steps (w : world) (df : addr) (lat_x lon_x md tol : R)
    (box : R * R * R * R) (ilat ilon : nat) :
  let cat := nth df (heap w) empty_frame in
  bounding_box lat_x lon_x (md + tol)%fl = Ok box ->
  get_loc "Latitude" (columns cat) = Some ilat ->
  get_loc "Longitude" (columns cat) = Some ilon ->
  Forall (fun r => numeric (cell ilat r)) (rows cat) ->
  Forall (fun r => numeric (cell ilon r)) (rows cat) ->
  let idist := distance_loc (columns cat) in
  let sel := mkDF (columns cat) (box_rows box ilat ilon cat) in
  let cand := candidate_frame lat_x lon_x box ilat ilon cat in
  let filt := band_frame md tol idist cand in
  let sorted := sort_rows (cell idist) (rows filt) in
  let h := heap w ++ [sel; cand; filt; mkDF (columns cand) sorted] in
  filter_places sort_rows df lat_x lon_x md tol w
  = match distances lat_x lon_x ilat ilon (rows sel) with
    | Raise e => (Raise e, mkWorld (heap w ++ [sel; sel]) (stdout w))
    | Ok _ =>
        match get_loc "City" (columns cat), get_loc "Name" (columns cat) with
        | Some icity, Some _ =>
            let city := first_seen (map (cell icity) sorted) [] in
            (Ok (firstn 5 city),
             mkWorld h (stdout w ++ [PrintList (firstn 5 city)]))
        | _, _ =>
            (Ok [],
             mkWorld h
               (stdout w ++
                [PrintStr "Columns 'City' and 'Name' not found in DataFrame"]))
        end
    end.
Proof.
  intros cat Hbox Hla Hlo Nla Nlo idist sel cand filt sorted h.
  unfold filter_places, bind at 1.
  rewrite (box_candidates_steps w df lat_x lon_x md tol box ilat ilon
             Hbox Hla Hlo Nla Nlo).
  fold cat. fold sel. fold cand.
  destruct (distances lat_x lon_x ilat ilon (rows sel)) as [ds | e];
    [| reflexivity].
  unfold bind at 1.
  rewrite (band_filter_run _ _ md tol idist).
  2:{ cbn [heap]. rewrite nth_S_length_app. apply get_loc_distance. }
  2:{ cbn [heap]. rewrite nth_S_length_app. apply candidate_frame_numeric. }
  cbn [heap stdout]. rewrite nth_S_length_app. fold filt.
  rewrite (collect_cities_run _ _ idist).
  2:{ cbn [heap]. rewrite nth_length_app. apply get_loc_distance. }
  cbn [heap stdout]. rewrite nth_length_app.
  change (columns filt) with (distance_columns (columns cat)).
  rewrite !get_loc_distance_other by discriminate.
  subst h sorted. rewrite <- !app_assoc. cbn [app]. reflexivity.
Qed.

(** A call that returns found the box and the coordinate columns, and all
    its distances were computed. *)
Lemma filter_places_ok_pre (w w' : world) (df : addr) (lat_x lon_x md tol : R)
    (cities : list value) :
  filter_places sort_rows df lat_x lon_x md tol w = (Ok cities, w') ->
  let cat := nth df (heap w) empty_frame in
  exists box ilat ilon,
    bounding_box lat_x lon_x (md + tol)%fl = Ok box /\
    get_loc "Latitude" (columns cat) = Some ilat /\
    get_loc "Longitude" (columns cat) = Some ilon /\
    Forall (fun r => numeric (cell ilat r)) (rows cat) /\
    Forall (fun r => numeric (cell ilon r)) (rows cat).
Proof.
  intros Hrun cat. unfold filter_places, bind at 1 in Hrun.
  destruct (box_candidates df lat_x lon_x md tol w) as [[a | e] w1] eqn:E;
    [| discriminate].
  exact (box_candidates_ok_inv _ _ _ _ _ _ _ _ E).
Qed.

(** What a returning call has computed. *)
Lemma filter_places_inv (w w' : world) (df : addr) (lat_x lon_x md tol : R)
    (cities : list value) :
  filter_places sort_rows df lat_x lon_x md tol w = (Ok cities, w') ->
  let cat := nth df (heap w) empty_frame in
  exists (box : R * R * R * R) (ilat ilon : nat),
    bounding_box lat_x lon_x (md + tol)%fl = Ok box /\
    get_loc "Latitude" (columns cat) = Some ilat /\
    get_loc "Longitude" (columns cat) = Some ilon /\
    let idist := distance_loc (columns cat) in
    let sorted :=
      sort_rows (cell idist)
        (rows (band_frame md tol idist
                 (candidate_frame lat_x lon_x box ilat ilon cat))) in
    match get_loc "City" (columns cat), get_loc "Name" (columns cat) with
    | Some icity, Some _ =>
        cities = firstn 5 (first_seen (map (cell icity) sorted) []) /\
        stdout w' = stdout w ++ [PrintList cities]
    | _, _ =>
        cities = [] /\ stdout w' = stdout w ++ [PrintStr not_found_message]
    end.
Proof.
  intros Hrun cat.
  destruct (filter_places_ok_pre _ _ _ _ _ _ _ _ Hrun)
    as [box [ilat [ilon [Hbox [Hla [Hlo [Nla Nlo]]]]]]].
  fold cat in Hla, Hlo, Nla, Nlo.
  exists box, ilat, ilon. repeat (split; [assumption |]).
  rewrite (filter_places_steps w df lat_x lon_x md tol box ilat ilon
             Hbox Hla Hlo Nla Nlo) in Hrun.
  fold cat in Hrun. cbv zeta in Hrun |- *.
  destruct (distances _ _ _ _ _) as [ds | e]; [| discriminate].
  destruct (get_loc "City" (columns cat)) as [icity |].
  - destruct (get_loc "Name" (columns cat)) as [iname |].
    + split; [congruence |].
      assert (E1 : stdout w' = stdout (snd (Ok cities, w'))) by reflexivity.
      rewrite E1, <- Hrun. cbn [snd stdout]. repeat f_equal. congruence.
    + split; [congruence |].
      assert (E1 : stdout w' = stdout (snd (Ok cities, w'))) by reflexivity.
      rewrite E1, <- Hrun. reflexivity.
  - split; [congruence |].
    assert (E1 : stdout w' = stdout (snd (Ok cities, w'))) by reflexivity.
    rewrite E1, <- Hrun. reflexivity.
Qed.

(** A call raises without having printed, or returns.  Of what may fail,
    all but the distances precede the first table the call creates; a
    distance that fails leaves the selection and its copy behind. *)
Lemma filter_places_outcome (w : world) (df : addr) (lat_x lon_x md tol : R) :
  (exists e w',
     filter_places sort_rows df lat_x lon_x md tol w = (Raise e, w') /\
     stdout w' = stdout w /\
     (w' = w \/
      e = ValueError /\ exists sel, heap w' = heap w ++ [sel; sel])) \/
  (exists cities w',
     filter_places sort_rows df lat_x lon_x md tol w = (Ok cities, w')).
Proof.
  set (cat := nth df (heap w) empty_frame).
  assert (Hraise : forall e,
             box_candidates df lat_x lon_x md tol w = (Raise e, w) ->
             exists e w', filter_places sort_rows df lat_x lon_x md tol w
                          = (Raise e, w') /\ stdout w' = stdout w /\
                          (w' = w \/
                           e = ValueError /\
                           exists sel, heap w' = heap w ++ [sel; sel])).
  { intros e He. exists e, w. unfold filter_places, bind at 1.
    rewrite He. auto. }
  destruct (bounding_box lat_x lon_x (md + tol)%fl) as [box | e] eqn:Hbox.
  2:{ left. apply (Hraise e). apply box_candidates_no_box. exact Hbox. }
  destruct (get_loc "Latitude" (columns cat)) as [ilat |] eqn:Hla.
  2:{ left. apply (Hraise (KeyError "Latitude")).
      exact (box_candidates_no_latitude w df lat_x lon_x md tol box Hbox Hla). }
  destruct (Forall_Exists_dec (fun r => numeric (cell ilat r))
              (fun r => numeric_dec (cell ilat r)) (rows cat)) as [Nla | Sla].
  2:{ left. apply (Hraise TypeError).
      apply (box_candidates_text w df lat_x lon_x md tol box ilat Hbox Hla).
      left. exact Sla. }
  destruct (get_loc "Longitude" (columns cat)) as [ilon |] eqn:Hlo.
  2:{ left. apply (Hraise (KeyError "Longitude")).
      exact (box_candidates_no_longitude w df lat_x lon_x md tol box ilat
               Hbox Hla Nla Hlo). }
  destruct (Forall_Exists_dec (fun r => numeric (cell ilon r))
              (fun r => numeric_dec (cell ilon r)) (rows cat)) as [Nlo | Slo].
  2:{ left. apply (Hraise TypeError).
      apply (box_candidates_text w df lat_x lon_x md tol box ilat Hbox Hla).
      right. exists ilon. split; [exact Hlo | exact Slo]. }
  rewrite (filter_places_steps w df lat_x lon_x md tol box ilat ilon
             Hbox Hla Hlo Nla Nlo).
  fold cat. cbn [rows].
  destruct (distances lat_x lon_x ilat ilon (box_rows box ilat ilon cat))
    as [ds | e] eqn:Ed.
  - right. destruct (get_loc "City" (columns cat)); [| eauto].
    destruct (get_loc "Name" (columns cat)); eauto.
  - left. destruct (distances_raise _ _ _ _ _ _
                      (box_rows_numeric box ilat ilon cat) Ed) as [-> _].
    eexists. eexists. split; [reflexivity |]. split; [reflexivity |].
    right. split; [reflexivity |]. eexists. reflexivity.
Qed.

End Pipeline.

(** ** Matches, as the masks see them *)

Lemma geb_true (x : R) (v : value) :
  geb x v = true <-> exists y, v = VNum y /\ x <= y.
Proof.
  destruct v as [y | | s]; cbn.
  - rewrite Rleb_true. split; [eauto | intros [z [E H]]; congruence].
  - split; [discriminate | intros [z [E H]]; discriminate].
  - split; [discriminate | intros [z [E H]]; discriminate].
Qed.

Lemma leb_true (x : R) (v : value) :
  leb x v = true <-> exists y, v = VNum y /\ y <= x.
Proof.
  destruct v as [y | | s]; cbn.
  - rewrite Rleb_true. split; [eauto | intros [z [E H]]; congruence].
  - split; [discriminate | intros [z [E H]]; discriminate].
  - split; [discriminate | intros [z [E H]]; discriminate].
Qed.

Lemma in_box_true (min_lat max_lat min_lon max_lon : R) (ilat ilon : nat)
    (r : Row) :
  in_box (min_lat, max_lat, min_lon, max_lon) ilat ilon r = true <->
  exists la lo, cell ilat r = VNum la /\ cell ilon r = VNum lo /\
                min_lat <= la <= max_lat /\ min_lon <= lo <= max_lon.
Proof.
  unfold in_box. rewrite !andb_true_iff, !geb_true, !leb_true. split.
  - intros [[[[a [Ea Ha]] [b [Eb Hb]]] [c [Ec Hc]]] [d [Ed Hd]]].
    exists a, c. repeat split; try assumption; congruence.
  - intros [la [lo [Ela [Elo [[H1 H2] [H3 H4]]]]]].
    repeat split; eauto.
Qed.

Section Matches.
Context {A : FloatArith}.

Lemma in_band_true (md tol : R) (v : value) :
  in_band md tol v = true <->
  exists d, v = VNum d /\ (md - tol)%fl <= d <= (md + tol)%fl.
Proof.
  unfold in_band. rewrite andb_true_iff, geb_true, leb_true. split.
  - intros [[y [E H]] [z [E' H']]]. exists y. split; [exact E |].
    split; [exact H | congruence].
  - intros [d [E [H H']]]. split; exists d; auto.
Qed.

Lemma matches_iff (cat : DataFrame) (lat_x lon_x md tol : R)
    (box : R * R * R * R) (ilat ilon : nat) (r : Row) (d : R) :
  bounding_box lat_x lon_x (md + tol)%fl = Ok box ->
  get_loc "Latitude" (columns cat) = Some ilat ->
  get_loc "Longitude" (columns cat) = Some ilon ->
  matches cat lat_x lon_x md tol r d <->
  In r (rows cat) /\ in_box box ilat ilon r = true /\
  distance_cell lat_x lon_x ilat ilon r = VNum d /\
  in_band md tol (VNum d) = true.
Proof.
  intros Hbox Hla Hlo. unfold matches, row_getitem. rewrite Hla, Hlo, Hbox.
  destruct box as [[[min_lat max_lat] min_lon] max_lon].
  rewrite in_box_true, in_band_true, distance_cell_VNum. split.
  - intros [Hr [la [lo [a [b [c [e [Ela [Elo [Eb [Hlat [Hlon [Hh Hd]]]]]]]]]]]]].
    injection Ela as Ela. injection Elo as Elo. injection Eb as -> -> -> ->.
    split; [exact Hr |]. split; [exists la, lo; auto |].
    split; [exists la, lo; auto |]. exists d. auto.
  - intros [Hr [[la [lo [Ela [Elo [Hlat Hlon]]]]] [[la' [lo' [Ela' [Elo' Hh]]]]
             [d' [E' Hd]]]]].
    injection E' as <-.
    assert (la' = la) by congruence. assert (lo' = lo) by congruence. subst.
    split; [exact Hr |].
    exists la, lo, min_lat, max_lat, min_lon, max_lon.
    rewrite Ela, Elo. auto 10.
Qed.

(** The rows of the band frame are the matches, each carrying its distance
    cell. *)
Lemma band_frame_rows (cat : DataFrame) (lat_x lon_x md tol : R)
    (box : R * R * R * R) (ilat ilon : nat) (r' : Row) :
  bounding_box lat_x lon_x (md + tol)%fl = Ok box ->
  get_loc "Latitude" (columns cat) = Some ilat ->
  get_loc "Longitude" (columns cat) = Some ilon ->
  let idist := distance_loc (columns cat) in
  In r' (rows (band_frame md tol idist
                 (candidate_frame lat_x lon_x box ilat ilon cat))) <->
  exists r d, matches cat lat_x lon_x md tol r d /\
              r' = with_distance lat_x lon_x ilat ilon idist r /\
              cell idist r' = VNum d.
Proof.
  intros Hbox Hla Hlo idist. cbn [band_frame candidate_frame rows].
  rewrite filter_In, in_map_iff. unfold box_rows. split.
  - intros [[r [<- Hr]] Hb]. apply filter_In in Hr. destruct Hr as [Hr Hin].
    unfold with_distance in Hb |- *. rewrite cell_set_cell_same in Hb |- *.
    pose proof Hb as Hb'. apply in_band_true in Hb'. destruct Hb' as [d [Ed Hd]].
    exists r, d. split; [| auto].
    apply (matches_iff _ _ _ _ _ _ _ _ _ _ Hbox Hla Hlo).
    rewrite Ed in Hb. auto.
  - intros [r [d [Hm [-> Ed]]]].
    apply (matches_iff _ _ _ _ _ _ _ _ _ _ Hbox Hla Hlo) in Hm.
    destruct Hm as [Hr [Hin [Hd Hb]]].
    split.
    + exists r. split; [reflexivity |]. apply filter_In. auto.
    + unfold with_distance. rewrite cell_set_cell_same, Hd. exact Hb.
Qed.

(** The sorted table holds the matches, nearest first. *)
Lemma sorted_matches (sort_rows : (Row -> value) -> list Row -> list Row)
    (cat : DataFrame) (lat_x lon_x md tol : R) (box : R * R * R * R)
    (ilat ilon : nat) :
  sort_contract sort_rows ->
  bounding_box lat_x lon_x (md + tol)%fl = Ok box ->
  get_loc "Latitude" (columns cat) = Some ilat ->
  get_loc "Longitude" (columns cat) = Some ilon ->
  let idist := distance_loc (columns cat) in
  let sorted :=
    sort_rows (cell idist)
      (rows (band_frame md tol idist
               (candidate_frame lat_x lon_x box ilat ilon cat))) in
  (forall r', In r' sorted <->
              exists r d, matches cat lat_x lon_x md tol r d /\
                          r' = with_distance lat_x lon_x ilat ilon idist r /\
                          cell idist r' = VNum d) /\
  StronglySorted (fun a b => distance_of idist a <= distance_of idist b) sorted.
Proof.
  intros Hsort Hbox Hla Hlo idist sorted.
  set (filt := band_frame md tol idist
                 (candidate_frame lat_x lon_x box ilat ilon cat)) in *.
  destruct (Hsort (cell idist) (rows filt)) as [Hperm Hsorted].
  fold sorted in Hperm, Hsorted.
  assert (Hrows : forall r', In r' sorted <->
            exists r d, matches cat lat_x lon_x md tol r d /\
                        r' = with_distance lat_x lon_x ilat ilon idist r /\
                        cell idist r' = VNum d).
  { intros r'.
    pose proof (band_frame_rows cat lat_x lon_x md tol box ilat ilon r'
                  Hbox Hla Hlo) as HB.
    cbv zeta in HB. fold idist in HB. fold filt in HB. rewrite <- HB.
    split; intros H.
    - eapply Permutation_in; [exact Hperm | exact H].
    - eapply Permutation_in; [apply Permutation_sym; exact Hperm | exact H]. }
  split; [exact Hrows |].
  eapply StronglySorted_weaken; [| apply Hsorted].
  - intros a b Ha Hb. apply Hrows in Ha, Hb.
    destruct Ha as [ra [da [_ [_ Ea]]]]. destruct Hb as [rb [db [_ [_ Eb]]]].
    unfold distance_of. rewrite Ea, Eb. cbn. trivial.
  - apply Forall_forall. intros r' Hr'.
    assert (Hin : In r' sorted)
      by (eapply Permutation_in; [apply Permutation_sym; exact Hperm | exact Hr']).
    apply Hrows in Hin. destruct Hin as [r [d [_ [_ E]]]]. now rewrite E.
Qed.

Lemma city_of_with_distance (cols : list string) (icity : nat)
    (lat_x lon_x : R) (ilat ilon : nat) (r : Row) :
  get_loc "City" cols = Some icity ->
  cell icity (with_distance lat_x lon_x ilat ilon (distance_loc cols) r)
  = cell icity r.
Proof.
  intros Ec. unfold with_distance. apply cell_set_cell_other.
  apply (get_loc_not_distance "City"); [discriminate | exact Ec].
Qed.

Lemma matches_city_listed (sort_rows : (Row -> value) -> list Row -> list Row)
    (cat : DataFrame) (lat_x lon_x md tol : R) (box : R * R * R * R)
    (ilat ilon icity : nat) (r : Row) (d : R) :
  sort_contract sort_rows ->
  bounding_box lat_x lon_x (md + tol)%fl = Ok box ->
  get_loc "Latitude" (columns cat) = Some ilat ->
  get_loc "Longitude" (columns cat) = Some ilon ->
  get_loc "City" (columns cat) = Some icity ->
  matches cat lat_x lon_x md tol r d ->
  let idist := distance_loc (columns cat) in
  In (cell icity r)
     (first_seen
        (map (cell icity)
           (sort_rows (cell idist)
              (rows (band_frame md tol idist
                       (candidate_frame lat_x lon_x box ilat ilon cat))))) []).
Proof.
  intros Hsort Hbox Hla Hlo Ec Hm idist.
  destruct (sorted_matches sort_rows cat lat_x lon_x md tol box ilat ilon
              Hsort Hbox Hla Hlo) as [Hrows _].
  apply first_seen_In. right.
  rewrite <- (city_of_with_distance (columns cat) icity lat_x lon_x ilat ilon r Ec).
  apply in_map. apply Hrows. exists r, d. split; [exact Hm |].
  split; [reflexivity |].
  unfold with_distance. rewrite cell_set_cell_same.
  apply (matches_iff _ _ _ _ _ _ _ _ _ _ Hbox Hla Hlo) in Hm. tauto.
Qed.

End Matches.

(** ** In the exact arithmetic no distance fails *)

Lemma distance_cell_exact (lat_x lon_x : R) (ilat ilon : nat) (r : Row) :
  distance_cell lat_x lon_x ilat ilon r
  = match cell ilat r, cell ilon r with
    | VNum la, VNum lo => VNum (6371 * (2 * asin (sqrt (hav lat_x lon_x la lo))))
    | _, _ => VNaN
    end.
Proof.
  unfold distance_cell, haversine_cells.
  destruct (cell ilat r) as [la | |], (cell ilon r) as [lo | |]; try reflexivity.
  now rewrite haversine_asin.
Qed.

Lemma distances_exact (lat_x lon_x : R) (ilat ilon : nat) (rs : list Row) :
  Forall (fun r => numeric (cell ilat r) /\ numeric (cell ilon r)) rs ->
  distances lat_x lon_x ilat ilon rs
  = Ok (map (distance_cell lat_x lon_x ilat ilon) rs).
Proof.
  intros Hn.
  destruct (distances lat_x lon_x ilat ilon rs) as [ds | e] eqn:E.
  - now rewrite (distances_ok _ _ _ _ _ _ E).
  - destruct (distances_raise _ _ _ _ _ _ Hn E) as [_ [r [la [lo [_ [_ [_ H]]]]]]].
    rewrite haversine_asin in H. discriminate.
Qed.

Lemma filter_places_run (sort_rows : (Row -> value) -> list Row -> list Row)
    (w : world) (df : addr) (lat_x lon_x md tol : R)
    (box : R * R * R * R) (ilat ilon : nat) :
  let cat := nth df (heap w) empty_frame in
  bounding_box lat_x lon_x (md + tol) = Ok box ->
  get_loc "Latitude" (columns cat) = Some ilat ->
  get_loc "Longitude" (columns cat) = Some ilon ->
  Forall (fun r => numeric (cell ilat r)) (rows cat) ->
  Forall (fun r => numeric (cell ilon r)) (rows cat) ->
  let idist := distance_loc (columns cat) in
  let cand := candidate_frame lat_x lon_x box ilat ilon cat in
  let filt := band_frame md tol idist cand in
  let sorted := sort_rows (cell idist) (rows filt) in
  let h := heap w ++ [mkDF (columns cat) (box_rows box ilat ilon cat);
                      cand; filt; mkDF (columns cand) sorted] in
  filter_places sort_rows df lat_x lon_x md tol w
  = match get_loc "City" (columns cat), get_loc "Name" (columns cat) with
    | Some icity, Some _ =>
        let city := first_seen (map (cell icity) sorted) [] in
        (Ok (firstn 5 city),
         mkWorld h (stdout w ++ [PrintList (firstn 5 city)]))
    | _, _ =>
        (Ok [],
         mkWorld h (stdout w ++
                    [PrintStr "Columns 'City' and 'Name' not found in DataFrame"]))
    end.
Proof.
  intros cat Hbox Hla Hlo Nla Nlo idist cand filt sorted h.
  rewrite (filter_places_steps sort_rows w df lat_x lon_x md tol box ilat ilon
             Hbox Hla Hlo Nla Nlo).
  cbn [rows]. rewrite distances_exact by apply box_rows_numeric.
  reflexivity.
Qed.

Lemma filter_places_total (sort_rows : (Row -> value) -> list Row -> list Row)
    (w : world) (df : addr) (lat_x lon_x md tol : R) (ilat ilon : nat) :
  let cat := nth df (heap w) empty_frame in
  cos (math.radians lat_x) <> 0 ->
  get_loc "Latitude" (columns cat) = Some ilat ->
  get_loc "Longitude" (columns cat) = Some ilon ->
  Forall (fun r => numeric (cell ilat r)) (rows cat) ->
  Forall (fun r => numeric (cell ilon r)) (rows cat) ->
  exists cities w',
    filter_places sort_rows df lat_x lon_x md tol w = (Ok cities, w').
Proof.
  intros cat Hc Hla Hlo Nla Nlo.
  rewrite (filter_places_run sort_rows w df lat_x lon_x md tol _ ilat ilon
             (bounding_box_ok lat_x lon_x (md + tol) Hc) Hla Hlo Nla Nlo).
  fold cat.
  destruct (get_loc "City" (columns cat)); [| eauto].
  destruct (get_loc "Name" (columns cat)); eauto.
Qed.

(** ** The stable sort meets the contract of [sort_values] *)

Lemma key_leb_true (a b : value) : key_leb a b = true -> key_le a b.
Proof.
  destruct a, b; cbn; try tauto; try discriminate. apply Rleb_true.
Qed.

Lemma key_leb_false (a b : value) :
  numeric a -> numeric b -> key_leb a b = false -> key_le b a.
Proof.
  destruct a, b; cbn; try tauto; try discriminate.
  intros _ _ H. apply Rleb_false in H. lra.
Qed.

Lemma key_le_trans (a b c : value) :
  numeric a -> numeric b -> numeric c ->
  key_le a b -> key_le b c -> key_le a c.
Proof.
  destruct a, b, c; cbn; try tauto. intros _ _ _. apply Rle_trans.
Qed.

Lemma insert_row_perm (key : Row -> value) (r : Row) (l : list Row) :
  Permutation (insert_row key r l) (r :: l).
Proof.
  induction l as [| r' l IH]; cbn; [reflexivity |].
  destruct (key_leb (key r) (key r')); [reflexivity |].
  rewrite IH. apply perm_swap.
Qed.

Lemma stable_sort_perm (key : Row -> value) (l : list Row) :
  Permutation (stable_sort key l) l.
Proof.
  induction l as [| r l IH]; cbn; [reflexivity |].
  rewrite insert_row_perm. now constructor.
Qed.

Lemma insert_row_sorted (key : Row -> value) (r : Row) (l : list Row) :
  numeric (key r) -> Forall (fun x => numeric (key x)) l ->
  StronglySorted (fun r1 r2 => key_le (key r1) (key r2)) l ->
  StronglySorted (fun r1 r2 => key_le (key r1) (key r2)) (insert_row key r l).
Proof.
  intros Hr Hn Hs. induction Hs as [| r' l Hs IH Hall]; cbn.
  - constructor; constructor.
  - inversion Hn as [| ? ? Hr' Hn']; subst.
    destruct (key_leb (key r) (key r')) eqn:E.
    + constructor; [constructor; assumption |].
      apply key_leb_true in E. constructor; [exact E |].
      rewrite Forall_forall in *. intros x Hx.
      apply (key_le_trans _ (key r')); auto.
    + constructor; [apply IH; exact Hn' |].
      apply key_leb_false in E; [| assumption ..].
      rewrite Forall_forall in *. intros x Hx.
      apply (Permutation_in _ (insert_row_perm key r l)) in Hx.
      destruct Hx as [<- | Hx]; auto.
Qed.

Lemma stable_sort_contract : sort_contract stable_sort.
Proof.
  intros key l. split; [apply stable_sort_perm |].
  intros Hn. induction Hn as [| r l Hr Hn IH]; cbn.
  - constructor.
  - apply insert_row_sorted; [exact Hr | | exact IH].
    rewrite Forall_forall in *. intros x Hx. apply Hn.
    apply (Permutation_in _ (stable_sort_perm key l)). exact Hx.
Qed.

(** Rows with equal keys leave [stable_sort] in the order they came in. *)
Lemma key_leb_refl (a : value) : key_leb a a = true.
Proof.
  destruct a; cbn; try reflexivity. apply Rleb_true, Rle_refl.
Qed.

Lemma insert_row_stable (key : Row -> value) (p : value -> bool) (k : value)
    (r : Row) (l : list Row) :
  (forall v, p v = true <-> v = k) ->
  filter (fun x => p (key x)) (insert_row key r l)
  = if p (key r) then r :: filter (fun x => p (key x)) l
    else filter (fun x => p (key x)) l.
Proof.
  intros Hp. induction l as [| r' l IH]; cbn; [reflexivity |].
  destruct (key_leb (key r) (key r')) eqn:E; cbn; [reflexivity |].
  rewrite IH. destruct (p (key r)) eqn:Er; [| reflexivity].
  destruct (p (key r')) eqn:Er'; [| reflexivity].
  apply Hp in Er, Er'. rewrite Er, Er', key_leb_refl in E. discriminate.
Qed.

Lemma stable_sort_stable (key : Row -> value) (k : value) (l : list Row) :
  let same := fun x => if value_eq_dec (key x) k then true else false in
  filter same (stable_sort key l) = filter same l.
Proof.
  intros same. induction l as [| r l IH]; cbn [stable_sort fold_right filter];
    [reflexivity |].
  fold (stable_sort key l).
  rewrite (insert_row_stable key
             (fun v => if value_eq_dec v k then true else false) k).
  - fold same. rewrite IH. reflexivity.
  - intros v. destruct (value_eq_dec v k); split; congruence.
Qed.

(** ** Frame: what a call leaves untouched on the heap *)

Lemma keeps_bind (n : nat) {A B : Type} (good1 : A -> Prop) (good2 : B -> Prop)
    (m : M A) (k : A -> M B) :
  keeps n good1 m -> (forall a, good1 a -> keeps n good2 (k a)) ->
  keeps n good2 (bind m k).
Proof.
  intros Hm Hk w Hw. unfold bind. specialize (Hm w Hw).
  destruct (m w) as [[a | e] w1]; cbn [fst snd] in *.
  - destruct Hm as [H1 [H2 H3]]. specialize (Hk a H3 w1 H2).
    destruct Hk as [K1 [K2 K3]]. split; [congruence | auto].
  - destruct Hm as [H1 [H2 _]]. auto.
Qed.

Lemma keeps_weaken (n : nat) {A : Type} (good good' : A -> Prop) (m : M A) :
  (forall a, good a -> good' a) -> keeps n good m -> keeps n good' m.
Proof.
  intros Hg Hm w Hw. destruct (Hm w Hw) as [H1 [H2 H3]].
  split; [exact H1 |]. split; [exact H2 |].
  destruct (fst (m w)); auto.
Qed.

Lemma keeps_ret (n : nat) {A : Type} (a : A) : keeps n any (ret a).
Proof. intros w Hw. cbn. unfold any. auto. Qed.

Lemma keeps_lift (n : nat) {A : Type} (r : result A) : keeps n any (lift r).
Proof. intros w Hw. cbn. unfold any. destruct r; auto. Qed.

Lemma keeps_deref (n : nat) (a : addr) : keeps n any (deref a).
Proof. intros w Hw. cbn. unfold any. auto. Qed.

Lemma keeps_print (n : nat) (o : output) : keeps n any (print o).
Proof. intros w Hw. cbn. unfold any. auto. Qed.

Lemma keeps_alloc (n : nat) (d : DataFrame) : keeps n (fresh n) (alloc d).
Proof.
  intros w Hw. cbn. unfold fresh. rewrite length_app. cbn.
  split; [| lia]. rewrite firstn_app.
  replace (n - List.length (heap w))%nat with 0%nat by lia.
  cbn. apply app_nil_r.
Qed.

Lemma firstn_update {A : Type} (n a : nat) (x : A) (l : list A) :
  (n <= a)%nat -> firstn n (update a x l) = firstn n l.
Proof.
  revert n a. induction l as [| y l IH]; intros n a Hna;
    [destruct a; reflexivity |].
  destruct a as [| a].
  - replace n with 0%nat by lia. reflexivity.
  - destruct n as [| n]; [reflexivity |]. cbn. f_equal. apply IH. lia.
Qed.

Lemma length_update {A : Type} (a : nat) (x : A) (l : list A) :
  List.length (update a x l) = List.length l.
Proof.
  revert a. induction l as [| y l IH]; intros [| a]; cbn; auto.
Qed.

Lemma keeps_assign (n : nat) (a : addr) (d : DataFrame) :
  fresh n a -> keeps n any (assign a d).
Proof.
  intros Ha w Hw. cbn. unfold any. rewrite length_update.
  split; [apply firstn_update; exact Ha | auto].
Qed.

Lemma keeps_getitem (n : nat) (df : addr) (name : string) :
  keeps n any (getitem df name).
Proof.
  unfold getitem.
  eapply keeps_bind; [apply keeps_deref | intros d _; apply keeps_lift].
Qed.

Lemma keeps_getitem_mask (n : nat) (df : addr) (mask : list bool) :
  keeps n (fresh n) (getitem_mask df mask).
Proof.
  unfold getitem_mask.
  eapply keeps_bind; [apply keeps_deref | intros d _; apply keeps_alloc].
Qed.

Lemma keeps_copy (n : nat) (df : addr) : keeps n (fresh n) (copy df).
Proof.
  unfold copy.
  eapply keeps_bind; [apply keeps_deref | intros d _; apply keeps_alloc].
Qed.

Lemma keeps_apply_rows (n : nat) (df : addr)
    (f : (string -> result value) -> result value) :
  keeps n any (apply_rows df f).
Proof.
  unfold apply_rows.
  eapply keeps_bind; [apply keeps_deref | intros d _; apply keeps_lift].
Qed.

Lemma keeps_setitem (n : nat) (df : addr) (name : string) (vals : list value) :
  fresh n df -> keeps n any (setitem df name vals).
Proof.
  intros Hf. unfold setitem.
  eapply keeps_bind; [apply keeps_deref | intros d _].
  eapply keeps_bind; [apply keeps_lift | intros d' _].
  apply keeps_assign. exact Hf.
Qed.

Section Frame.
Context {A : FloatArith}.

Lemma keeps_box_candidates (n : nat) (df : addr) (lat_x lon_x md tol : R) :
  keeps n (fresh n) (box_candidates df lat_x lon_x md tol).
Proof.
  unfold box_candidates.
  eapply keeps_bind; [apply keeps_lift | intros [[[min_lat max_lat] min_lon] max_lon] _].
  do 8 (eapply keeps_bind; [first [apply keeps_getitem | apply keeps_lift] | intros ? _]).
  eapply keeps_bind; [apply keeps_getitem_mask | intros sel Hsel].
  eapply keeps_bind; [apply keeps_copy | intros candidates Hc].
  eapply keeps_bind; [apply keeps_apply_rows | intros dist _].
  eapply keeps_bind; [apply keeps_setitem; exact Hc | intros _ _].
  intros w Hw. cbn. auto.
Qed.

Lemma keeps_band_filter (n : nat) (a : addr) (md tol : R) :
  keeps n (fresh n) (band_filter a md tol).
Proof.
  unfold band_filter.
  do 4 (eapply keeps_bind; [first [apply keeps_getitem | apply keeps_lift] | intros ? _]).
  apply keeps_getitem_mask.
Qed.

Lemma keeps_filter_places (sort_rows : (Row -> value) -> list Row -> list Row)
    (n : nat) (df : addr) (lat_x lon_x md tol : R) :
  keeps n any (filter_places sort_rows df lat_x lon_x md tol).
Proof.
  unfold filter_places.
  eapply keeps_bind; [apply keeps_box_candidates | intros candidates _].
  eapply keeps_bind; [apply keeps_band_filter | intros filtered_df _].
  unfold collect_cities, sort_values.
  eapply keeps_bind.
  { eapply keeps_bind; [apply keeps_deref | intros d _].
    destruct (get_loc "distance_km" (columns d)).
    - apply keeps_alloc.
    - intros w Hw. cbn. auto.
  }
  intros sorted _.
  eapply keeps_bind; [apply keeps_deref | intros d _].
  destruct (existsb (String.eqb "City") (columns d)
            && existsb (String.eqb "Name") (columns d)).
  - eapply keeps_bind; [apply keeps_lift | intros city _].
    eapply keeps_bind; [apply keeps_print | intros _ _]. apply keeps_ret.
  - eapply keeps_bind; [apply keeps_print | intros _ _]. apply keeps_ret.
Qed.

Lemma keeps_recommend_cities
    (sort_rows : (Row -> value) -> list Row -> list Row)
    (get_lat_lon : string -> result (option (R * R))) (n : nat) (df : addr)
    (request : RecommendRequest) :
  keeps n any (recommend_cities sort_rows get_lat_lon df request).
Proof.
  unfold recommend_cities.
  eapply keeps_bind; [apply keeps_lift | intros [[lat lon] |] _];
    [| apply keeps_ret].
  eapply keeps_bind; [apply keeps_lift | intros [max_distance usable] _].
  eapply keeps_bind; [apply keeps_filter_places | intros tour_city _].
  apply keeps_ret.
Qed.

(** What [keeps] says of the world a computation leaves. *)
Lemma keeps_heap {X : Type} (m : M X) (w : world) :
  keeps (List.length (heap w)) any m ->
  firstn (List.length (heap w)) (heap (snd (m w))) = heap w /\
  forall a : addr,
    (a < List.length (heap w))%nat ->
    nth_error (heap (snd (m w))) a = nth_error (heap w) a.
Proof.
  intros Hk. destruct (Hk w (le_n _)) as [Hf _].
  rewrite firstn_all in Hf. split; [exact Hf |].
  intros a Ha.
  transitivity (nth_error (firstn (List.length (heap w)) (heap (snd (m w)))) a);
    [| now rewrite Hf].
  rewrite nth_error_firstn.
  destruct (Nat.ltb_spec a (List.length (heap w))); [reflexivity | lia].
Qed.

End Frame.

(** ** Catalogs of places around 60N 0E, in the exact arithmetic *)

Lemma distance_meridian (la lb lon : R) :
  Rabs (lb - la) <= 180 ->
  6371 * (2 * asin (sqrt (hav la lon lb lon)))
  = 6371 * math.radians (Rabs (lb - la)).
Proof.
  intros H. pose proof (haversine_meridian la lb lon H) as E.
  rewrite haversine_asin in E. now injection E.
Qed.

(** Due north or south of 60N 0E, [x] degrees away. *)
Lemma distance_from_60N (lat x : R) :
  Rabs (lat - 60) = x -> x <= 180 ->
  6371 * (2 * asin (sqrt (hav 60 0 lat 0))) = 6371 * (x * (PI / 180)).
Proof.
  intros E Hx. rewrite distance_meridian by (rewrite E; exact Hx).
  now rewrite E, radians_exact.
Qed.

Lemma distance_61N : 6371 * (2 * asin (sqrt (hav 60 0 61 0))) = 6371 * (PI / 180).
Proof.
  rewrite (distance_from_60N 61 1); [lra | | lra].
  unfold Rabs; destruct (Rcase_abs (61 - 60)); lra.
Qed.

Lemma distance_62N : 6371 * (2 * asin (sqrt (hav 60 0 62 0))) = 6371 * (PI / 90).
Proof.
  rewrite (distance_from_60N 62 2); [lra | | lra].
  unfold Rabs; destruct (Rcase_abs (62 - 60)); lra.
Qed.

Lemma Rleb_yes (x y : R) : x <= y -> Rleb x y = true.
Proof. apply Rleb_true. Qed.

Lemma Rleb_no (x y : R) : y < x -> Rleb x y = false.
Proof. apply Rleb_false. Qed.

Lemma filter_true {A : Type} (f : A -> bool) (l : list A) :
  Forall (fun x => f x = true) l -> filter f l = l.
Proof.
  intros H. induction H as [| x l Hx _ IH]; cbn; [reflexivity |].
  now rewrite Hx, IH.
Qed.

Lemma in_band_exact (md tol d : R) :
  md - tol <= d <= md + tol -> in_band md tol (VNum d) = true.
Proof.
  intros H. apply in_band_true. exists d. split; [reflexivity | exact H].
Qed.

(** The three places are 111 and 222 km away; whenever the band and the box
    hold them all, the nearest place of each city decides the order. *)
Lemma demo_sorted_any (md tol : R) :
  md - tol <= 111 -> 223 <= md + tol ->
  let idist := distance_loc (columns demo_catalog) in
  stable_sort (cell idist)
    (rows (band_frame md tol idist
             (candidate_frame 60 0
                (60 - (md + tol) / 111, 60 + (md + tol) / 111,
                 0 - (md + tol) / (111 / 2), 0 + (md + tol) / (111 / 2))
                2 3 demo_catalog)))
  = [[VStr "Lake"; VStr "Beta"; VNum 61; VNum 0; VNum (6371 * (PI / 180))];
     [VStr "Market"; VStr "Alpha"; VNum 61; VNum 0; VNum (6371 * (PI / 180))];
     [VStr "Fort"; VStr "Alpha"; VNum 62; VNum 0; VNum (6371 * (PI / 90))]].
Proof.
  pose proof PI_bounds as HPI. intros Hlo Hhi idist.
  change idist with 4%nat. clear idist.
  unfold band_frame, candidate_frame, box_rows. cbn [rows columns].
  rewrite (filter_true (in_box _ 2 3)).
  2:{ repeat constructor; apply in_box_true; cbn [cell nth];
      do 2 eexists; (split; [reflexivity |]); (split; [reflexivity |]); lra. }
  change (distance_loc (columns demo_catalog)) with 4%nat.
  unfold with_distance. cbn [demo_catalog rows map].
  rewrite !distance_cell_exact. cbn [cell nth set_cell].
  rewrite distance_61N, distance_62N.
  rewrite filter_true.
  2:{ repeat constructor; apply in_band_exact; lra. }
  unfold stable_sort. cbn [fold_right insert_row cell nth key_leb].
  rewrite (Rleb_yes (6371 * (PI / 180)) (6371 * (PI / 180))) by lra.
  cbn [insert_row cell nth key_leb].
  rewrite (Rleb_no (6371 * (PI / 90)) (6371 * (PI / 180))) by lra.
  reflexivity.
Qed.

Lemma demo_run_any (md tol : R) :
  md - tol <= 111 -> 223 <= md + tol ->
  exists w' : world,
    filter_places stable_sort 0%nat 60 0 md tol demo_world
    = (Ok [VStr "Beta"; VStr "Alpha"], w').
Proof.
  intros Hlo Hhi.
  rewrite (filter_places_run stable_sort demo_world 0%nat 60 0 md tol
             _ 2%nat 3%nat (bounding_box_60N 0 (md + tol)) eq_refl eq_refl).
  2, 3: repeat constructor.
  change (nth 0 (heap demo_world) empty_frame) with demo_catalog.
  rewrite (demo_sorted_any md tol Hlo Hhi).
  eexists. reflexivity.
Qed.

Lemma demo_run :
  exists w' : world,
    filter_places stable_sort 0%nat 60 0 100 150 demo_world
    = (Ok [VStr "Beta"; VStr "Alpha"], w').
Proof. apply demo_run_any; lra. Qed.

(** The place 60N 60E is in the band 3160 +- 150 and outside the box. *)
Lemma east_run :
  exists w' : world,
    filter_places stable_sort 0%nat 60 0 3160 150 (mkWorld [east_catalog] [])
    = (Ok [], w').
Proof.
  rewrite (filter_places_run stable_sort (mkWorld [east_catalog] []) 0%nat
             60 0 3160 150 _ 2%nat 3%nat (bounding_box_60N 0 (3160 + 150))
             eq_refl eq_refl).
  2, 3: repeat constructor.
  change (nth 0 (heap (mkWorld [east_catalog] [])) empty_frame)
    with east_catalog.
  assert (E : box_rows (60 - (3160 + 150) / 111, 60 + (3160 + 150) / 111,
                        0 - (3160 + 150) / (111 / 2), 0 + (3160 + 150) / (111 / 2))
                       2 3 east_catalog = []).
  { unfold box_rows. cbn [east_catalog rows filter].
    destruct (in_box _ 2 3 _) eqn:Hin; [| reflexivity].
    apply in_box_true in Hin. cbn [cell nth] in Hin.
    destruct Hin as [la [lo [_ [Elo [_ Hlon]]]]].
    injection Elo as <-. lra. }
  unfold band_frame, candidate_frame. cbn [rows columns]. rewrite E.
  eexists. reflexivity.
Qed.

(** Two places south of the origin, 29.75 and 29.7 degrees away. *)
Lemma distance_Mill :
  6371 * (2 * asin (sqrt (hav 60 0 (121 / 4) 0))) = 6371 * (119 / 4 * (PI / 180)).
Proof.
  apply distance_from_60N; [| lra].
  unfold Rabs; destruct (Rcase_abs (121 / 4 - 60)); lra.
Qed.

Lemma distance_Quay :
  6371 * (2 * asin (sqrt (hav 60 0 (303 / 10) 0))) = 6371 * (297 / 10 * (PI / 180)).
Proof.
  apply distance_from_60N; [| lra].
  unfold Rabs; destruct (Rcase_abs (303 / 10 - 60)); lra.
Qed.

(** Harbour is outside the box of radius 3310; Mill and Quay are inside it
    and in the band, Quay the nearer of the two. *)
Lemma hidden_run :
  exists w' : world,
    filter_places stable_sort 0%nat 60 0 3160 150 (mkWorld [hidden_catalog] [])
    = (Ok [VStr "Beta"; VStr "Alpha"], w').
Proof.
  pose proof PI_bounds as HPI.
  rewrite (filter_places_run stable_sort (mkWorld [hidden_catalog] []) 0%nat
             60 0 3160 150 _ 2%nat 3%nat (bounding_box_60N 0 (3160 + 150))
             eq_refl eq_refl).
  2, 3: repeat constructor.
  change (nth 0 (heap (mkWorld [hidden_catalog] [])) empty_frame)
    with hidden_catalog.
  assert (E : box_rows (60 - (3160 + 150) / 111, 60 + (3160 + 150) / 111,
                        0 - (3160 + 150) / (111 / 2), 0 + (3160 + 150) / (111 / 2))
                       2 3 hidden_catalog
              = [[VStr "Mill"; VStr "Alpha"; VNum (121 / 4); VNum 0];
                 [VStr "Quay"; VStr "Beta"; VNum (303 / 10); VNum 0]]).
  { unfold box_rows. cbn [hidden_catalog rows filter].
    destruct (in_box _ 2 3 [VStr "Harbour"; _; _; _]) eqn:Hin.
    { apply in_box_true in Hin. cbn [cell nth] in Hin.
      destruct Hin as [la [lo [_ [Elo [_ Hlon]]]]].
      injection Elo as <-. lra. }
    rewrite (proj2 (in_box_true _ _ _ _ 2 3 [VStr "Mill"; _; _; _])).
    2:{ cbn [cell nth]. do 2 eexists.
        (split; [reflexivity |]); (split; [reflexivity |]); lra. }
    rewrite (proj2 (in_box_true _ _ _ _ 2 3 [VStr "Quay"; _; _; _])).
    2:{ cbn [cell nth]. do 2 eexists.
        (split; [reflexivity |]); (split; [reflexivity |]); lra. }
    reflexivity. }
  unfold band_frame, candidate_frame. cbn [rows columns]. rewrite E.
  change (distance_loc (columns hidden_catalog)) with 4%nat.
  unfold with_distance. cbn [map].
  rewrite !distance_cell_exact. cbn [cell nth set_cell].
  rewrite distance_Mill, distance_Quay.
  rewrite filter_true.
  2:{ repeat constructor; apply in_band_exact; lra. }
  unfold stable_sort. cbn [fold_right insert_row cell nth key_leb].
  rewrite (Rleb_no (6371 * (119 / 4 * (PI / 180)))
             (6371 * (297 / 10 * (PI / 180)))) by lra.
  cbn [insert_row]. eexists. reflexivity.
Qed.

(** ** The estimator on floats *)

Lemma two_thirds_binary64 : int_truediv (F := float) 2 3 = Ok (2 / 3)%float.
Proof. vm_compute. reflexivity. Qed.

Lemma one_third_binary64 : int_truediv (F := float) 1 3 = Ok (1 / 3)%float.
Proof. vm_compute. reflexivity. Qed.

(** On binary64 numbers the estimator converts the usable hours and the
    speed, and multiplies. *)
Lemma trip_logic_binary64 (days speed sleep meal buffer : Z) (compromise : bool) :
  let usable := (days * 24 - days * (sleep + meal + buffer)
                 + (if compromise then sleep - 4 else 0))%Z in
  trip_logic (F := float) days speed sleep meal buffer compromise
  = (u <- int_to_binary64 usable ;;
     s <- int_to_binary64 speed ;;
     Ok (PrimFloat.mul (PrimFloat.mul (2 / 3)%float u) s, usable))%result.
Proof.
  intros usable. unfold trip_logic.
  rewrite two_thirds_binary64, one_third_binary64.
  cbn [rbind of_int fmul PyFloat_binary64].
  assert (E : (if compromise
               then (days * 24 - days * (sleep + meal + buffer) + (sleep - 4))%Z
               else (days * 24 - days * (sleep + meal + buffer))%Z) = usable).
  { subst usable. destruct compromise; [reflexivity | now rewrite Z.add_0_r]. }
  rewrite E.
  destruct (int_to_binary64 usable); cbn [rbind]; [| reflexivity].
  destruct (int_to_binary64 speed); reflexivity.
Qed.

Lemma int_to_binary64_raises (z : Z) (e : exn) :
  int_to_binary64 z = Raise e -> e = OverflowError.
Proof.
  unfold int_to_binary64.
  destruct (binary_normalize 53 1024 z 0 false); congruence.
Qed.

(** The ints that binary64 rejects start at 2^1024 - 2^970, on either side
    of zero; the bound of [float_of_int] is this one. *)
Lemma int_to_binary64_range :
  int_to_binary64 (2 ^ 1024 - 2 ^ 970) = Raise OverflowError /\
  int_to_binary64 (- (2 ^ 1024 - 2 ^ 970)) = Raise OverflowError /\
  (exists f, int_to_binary64 (2 ^ 1024 - 2 ^ 970 - 1) = Ok f) /\
  (exists f, int_to_binary64 (- (2 ^ 1024 - 2 ^ 970 - 1)) = Ok f).
Proof.
  split; [vm_compute; reflexivity |]. split; [vm_compute; reflexivity |].
  split; eexists; vm_compute; reflexivity.
Qed.

Section FloatEstimator.
Context {A : FloatArith}.

Lemma float_of_int_small (z : Z) :
  (Z.abs z <= 2 ^ 53)%Z -> float_of_int z = Ok (IZR z).
Proof.
  intros H. unfold float_of_int.
  destruct (Z.leb_spec (Z.abs z) (2 ^ 53)); [reflexivity | lia].
Qed.

Lemma float_of_int_raises (z : Z) (e : exn) :
  float_of_int z = Raise e ->
  e = OverflowError /\ (2 ^ 1024 - 2 ^ 970 <= Z.abs z)%Z.
Proof.
  unfold float_of_int.
  destruct (Z.leb_spec (Z.abs z) (2 ^ 53)); [discriminate |].
  destruct (Z.ltb_spec (Z.abs z) (2 ^ 1024 - 2 ^ 970)); [discriminate |].
  intros [= <-]. split; [reflexivity | assumption].
Qed.

(** On the floats of [python_float] likewise; the literals 2 and 3 convert
    exactly. *)
Lemma trip_logic_float (days speed sleep meal buffer : Z) (compromise : bool) :
  let usable := (days * 24 - days * (sleep + meal + buffer)
                 + (if compromise then sleep - 4 else 0))%Z in
  trip_logic (H := python_float) days speed sleep meal buffer compromise
  = (u <- float_of_int usable ;;
     s <- float_of_int speed ;;
     Ok ((2 / 3 * u * s)%fl, usable))%result.
Proof.
  intros usable. unfold trip_logic, int_truediv.
  cbn [of_int fmul fdiv python_float].
  rewrite (float_of_int_small 2), (float_of_int_small 3),
    (float_of_int_small 1) by (cbn; lia).
  cbn [rbind]. rewrite !truediv_ok by lra. cbn [rbind].
  assert (E : (if compromise
               then (days * 24 - days * (sleep + meal + buffer) + (sleep - 4))%Z
               else (days * 24 - days * (sleep + meal + buffer))%Z) = usable).
  { subst usable. destruct compromise; [reflexivity | now rewrite Z.add_0_r]. }
  rewrite E.
  destruct (float_of_int usable); cbn [rbind]; [| reflexivity].
  destruct (float_of_int speed); reflexivity.
Qed.

Lemma trip_logic_float_raises (days speed sleep meal buffer : Z)
    (compromise : bool) (e : exn) :
  trip_logic (H := python_float) days speed sleep meal buffer compromise
  = Raise e ->
  e = OverflowError.
Proof.
  rewrite trip_logic_float. cbv zeta.
  destruct (float_of_int _) as [u | e1] eqn:E1; cbn [rbind].
  - destruct (float_of_int speed) as [s | e2] eqn:E2; cbn [rbind];
      [discriminate |].
    intros [= <-]. exact (proj1 (float_of_int_raises _ _ E2)).
  - intros [= <-]. exact (proj1 (float_of_int_raises _ _ E1)).
Qed.

(** With the defaults of the signature a day has 13 usable hours. *)
Lemma trip_logic_float_defaults (days speed : Z) (max_distance : R) (usable : Z) :
  trip_logic (H := python_float) days speed 6 3 2 false
  = Ok (max_distance, usable) ->
  usable = (13 * days)%Z.
Proof.
  rewrite trip_logic_float. cbv zeta.
  destruct (float_of_int _) as [u |]; cbn [rbind]; [| discriminate].
  destruct (float_of_int speed) as [s |]; cbn [rbind]; [| discriminate].
  intros [= _ <-]. lia.
Qed.

(** The recommend operation, step by step. *)
Lemma recommend_cities_steps
    (sort_rows : (Row -> value) -> list Row -> list Row)
    (get_lat_lon : string -> result (option (R * R))) (df : addr)
    (request : RecommendRequest) (w : world) :
  recommend_cities sort_rows get_lat_lon df request w
  = match get_lat_lon (user_location request) with
    | Raise e => (Raise e, w)
    | Ok None => (Ok (ErrorResponse "Location not found"), w)
    | Ok (Some (lat, lon)) =>
        match trip_logic (H := python_float) (trip_days request)
                (speed request) 6 3 2 false with
        | Raise e => (Raise e, w)
        | Ok (max_distance, _) =>
            match filter_places sort_rows df lat lon max_distance 150 w with
            | (Ok tour_city, w') =>
                (Ok (Recommendation (fl_round2 max_distance)
                       (firstn 5 tour_city)), w')
            | (Raise e, w') => (Raise e, w')
            end
        end
    end.
Proof.
  unfold recommend_cities, bind at 1, lift at 1.
  destruct (get_lat_lon (user_location request)) as [[[lat lon] |] | e];
    [| reflexivity | reflexivity].
  unfold bind at 1, lift.
  change (trip_logic_kw (trip_days request) (Some (speed request))
            None None None None)
    with (trip_logic (H := python_float) (trip_days request) (speed request)
            6 3 2 false).
  destruct (trip_logic _ _ _ _ _ _) as [[max_distance usable] | e];
    [| reflexivity].
  unfold bind, filter_places_kw, ret.
  destruct (filter_places sort_rows df lat lon max_distance 150 w)
    as [[tour_city | e] w']; reflexivity.
Qed.

End FloatEstimator.

(** * The claims *)

(** ** Travel budget estimator *)

(** C8: with 3 days, speed 50 and the default allocations 6/3/2, relaxed off,
    [trip_logic] returns 39 usable hours and a maximum distance of exactly
    1300, in exact arithmetic and in binary64 arithmetic alike. *)
Theorem trip_logic_three_days :
  trip_logic (F := R) 3 50 6 3 2 false = Ok (1300, 39%Z) /\
  trip_logic (F := float) 3 50 6 3 2 false = Ok (1300%float, 39%Z).
Proof.
  split.
  - rewrite trip_logic_R. cbn. f_equal. f_equal. lra.
  - vm_compute. reflexivity.
Qed.

(** C4, as stated, fails: with 20 hours of sleep in a one-day trip the usable
    hours are -1 and [trip_logic] returns the negative distance -100/3
    instead of an error (binary64: a float below zero). *)
Lemma trip_logic_negative_distance :
  trip_logic (F := R) 1 50 20 3 2 false = Ok (- (100 / 3), (-1)%Z) /\
  exists d : float,
    trip_logic (F := float) 1 50 20 3 2 false = Ok (d, (-1)%Z) /\
    PrimFloat.ltb d 0%float = true.
Proof.
  split.
  - rewrite trip_logic_R. cbn. f_equal. f_equal. lra.
  - eexists. split; vm_compute; reflexivity.
Qed.

(** C4, amended: [trip_logic] has no domain check.  On binary64 numbers it
    raises nothing but [OverflowError], and that only when the usable hours
    or the speed are too large to be converted; otherwise it returns the
    pair, whose usable hours are days * 24 - days * (sleep + meal + buffer),
    plus sleep - 4 when relaxed, negative or not.  The distance is
    2/3 * usable * speed up to rounding: in exact arithmetic it is negative
    when the usable hours are negative and the speed is positive. *)
Theorem trip_logic_never_rejects
    (days speed sleep meal buffer : Z) (compromise : bool) :
  let usable := (days * 24 - days * (sleep + meal + buffer)
                 + (if compromise then sleep - 4 else 0))%Z in
  (forall e : exn,
     trip_logic (F := float) days speed sleep meal buffer compromise = Raise e ->
     e = OverflowError /\
     (int_to_binary64 usable = Raise OverflowError \/
      int_to_binary64 speed = Raise OverflowError)) /\
  (forall u s : float,
     int_to_binary64 usable = Ok u -> int_to_binary64 speed = Ok s ->
     trip_logic (F := float) days speed sleep meal buffer compromise
     = Ok (PrimFloat.mul (PrimFloat.mul (2 / 3)%float u) s, usable)) /\
  exists max_distance : R,
    trip_logic (F := R) days speed sleep meal buffer compromise
    = Ok (max_distance, usable) /\
    max_distance = 2 / 3 * IZR usable * IZR speed /\
    ((usable < 0)%Z -> (0 < speed)%Z -> max_distance < 0).
Proof.
  intros usable. split; [| split].
  - intros e. rewrite trip_logic_binary64. fold usable.
    destruct (int_to_binary64 usable) as [u | e1] eqn:E1; cbn [rbind].
    + destruct (int_to_binary64 speed) as [s | e2] eqn:E2; cbn [rbind];
        [discriminate |].
      intros [= <-]. pose proof (int_to_binary64_raises _ _ E2) as ->. auto.
    + intros [= <-]. pose proof (int_to_binary64_raises _ _ E1) as ->. auto.
  - intros u s Hu Hs. rewrite trip_logic_binary64. fold usable.
    now rewrite Hu, Hs.
  - eexists. split; [apply trip_logic_R |]. split; [reflexivity |].
    intros Hu Hs. apply IZR_lt in Hu, Hs. fold usable.
    set (x := IZR usable) in *. set (y := IZR speed) in *. nra.
Qed.

(** One day with 20 hours of sleep: a negative distance, on floats and in
    exact arithmetic; 10^400 days: the usable hours do not fit a float. *)
Lemma trip_logic_never_rejects_witness :
  (exists d : float,
     trip_logic (F := float) 1 50 20 3 2 false = Ok (d, (-1)%Z)) /\
  (exists max_distance : R,
     trip_logic (F := R) 1 50 20 3 2 false = Ok (max_distance, (-1)%Z) /\
     max_distance < 0) /\
  (forall e : exn,
     trip_logic (F := float) (10 ^ 400) 50 20 3 2 false = Raise e ->
     e = OverflowError) /\
  trip_logic (F := float) (10 ^ 400) 50 20 3 2 false = Raise OverflowError.
Proof.
  destruct (trip_logic_never_rejects 1 50 20 3 2 false) as [_ [Hf [d [H [_ Hneg]]]]].
  split; [| split; [| split]].
  - eexists. apply Hf; vm_compute; reflexivity.
  - exists d. split; [exact H |]. apply Hneg; reflexivity.
  - intros e He.
    exact (proj1 (proj1 (trip_logic_never_rejects (10 ^ 400) 50 20 3 2 false)
                    e He)).
  - vm_compute. reflexivity.
Defined.

(** C5, as stated, fails: with 2 hours of sleep the relaxed flag lowers the
    usable hours, from 17 to 15. *)
Lemma relaxed_lowers_usable_hours :
  trip_logic (F := R) 1 50 2 3 2 true = Ok (500, 15%Z) /\
  trip_logic (F := R) 1 50 2 3 2 false = Ok (1700 / 3, 17%Z) /\
  (15 < 17)%Z.
Proof.
  split; [| split; [| reflexivity]].
  - rewrite trip_logic_R. cbn. f_equal. f_equal. lra.
  - rewrite trip_logic_R. cbn. f_equal. f_equal. lra.
Qed.

(** C5, amended: the relaxed flag adds sleep - 4 hours exactly once, whatever
    the number of days; so the usable hours grow when sleep > 4, stay when
    sleep = 4 and shrink when sleep < 4. *)
Theorem relaxed_adds_sleep_minus_four (days speed sleep meal buffer : Z) :
  exists (d_on d_off : R) (u_on u_off : Z),
    trip_logic (F := R) days speed sleep meal buffer true = Ok (d_on, u_on) /\
    trip_logic (F := R) days speed sleep meal buffer false = Ok (d_off, u_off) /\
    u_on = (u_off + (sleep - 4))%Z /\
    ((4 < sleep)%Z -> (u_off < u_on)%Z) /\
    (sleep = 4%Z -> u_on = u_off) /\
    ((sleep < 4)%Z -> (u_on < u_off)%Z).
Proof.
  do 4 eexists.
  split; [apply trip_logic_R |]. split; [apply trip_logic_R |].
  repeat split; intros; lia.
Qed.

Lemma relaxed_adds_sleep_minus_four_witness :
  exists (d_on d_off : R) (u_on u_off : Z),
    trip_logic (F := R) 3 50 6 3 2 true = Ok (d_on, u_on) /\
    trip_logic (F := R) 3 50 6 3 2 false = Ok (d_off, u_off) /\
    u_on = (u_off + 2)%Z /\ (u_off < u_on)%Z.
Proof.
  destruct (relaxed_adds_sleep_minus_four 3 50 6 3 2)
    as [d1 [d0 [u1 [u0 [H1 [H0 [E [Hgt _]]]]]]]].
  exists d1, d0, u1, u0. repeat split; try assumption.
  apply Hgt. reflexivity.
Defined.

(** ** Distance metric *)


Lemma hav_antipodal :
  sin (math.radians (-12 - 12) / 2) ^ 2 +
  cos (math.radians 12) * cos (math.radians (-12)) *
  sin (math.radians (180 - 0) / 2) ^ 2 = 1.
Proof.
  rewrite !radians_exact.
  replace ((-12 - 12) * (PI / 180) / 2) with (- (12 * (PI / 180))) by lra.
  replace (-12 * (PI / 180)) with (- (12 * (PI / 180))) by lra.
  replace ((180 - 0) * (PI / 180) / 2) with (PI / 2) by lra.
  rewrite sin_neg, cos_neg, sin_PI2.
  pose proof (sin2_cos2 (12 * (PI / 180))) as H. unfold Rsqr in H. lra.
Qed.



(** ** Spatial prefilter *)

(** C1, as stated, fails: from 60N 0E the place 60N 60E is less than 3310 km
    away, and the box of radius 3310 stops short of longitude 60; with
    target 3160 and tolerance 150 the place is in the band, and
    [filter_places] drops it. *)
Lemma prefilter_drops_60N_60E :
  exists d min_lat max_lat min_lon max_lon : R,
    (-90 <= 60 <= 90 /\ -180 <= 0 <= 180) /\
    (-90 <= 60 <= 90 /\ -180 <= 60 <= 180) /\
    0 < 3310 /\
    haversine 60 0 60 60 = Ok d /\ d <= 3310 /\
    bounding_box 60 0 3310 = Ok (min_lat, max_lat, min_lon, max_lon) /\
    ~ (min_lon <= 60 <= max_lon) /\
    3160 - 150 <= d <= 3160 + 150 /\
    exists w' : world,
      filter_places stable_sort 0%nat 60 0 3160 150 (mkWorld [east_catalog] [])
      = (Ok [], w').
Proof.
  destruct haversine_60N_60E as [d [Hd [Hge Hle]]].
  exists d. do 4 eexists.
  split; [lra |]. split; [lra |]. split; [lra |].
  split; [exact Hd |]. split; [lra |].
  split; [apply bounding_box_60N |].
  split; [lra |]. split; [lra |]. exact east_run.
Qed.

(** C1, amended: the latitude range of the box is sound.  In exact
    arithmetic, for an origin and a place with valid latitudes, the poles
    included, a place within haversine distance r of the origin has its
    latitude inside [lat - r/111, lat + r/111]; these are the latitude
    bounds of every box that [bounding_box] returns for the origin and r.
    In any arithmetic [bounding_box] returns a box whenever the divisor
    111 * cos(radians(lat)) it computes is not 0, and the latitude bounds
    of a box it returns are lat - r/111 and lat + r/111 as that arithmetic
    rounds them.  Nothing of the kind holds of the longitude range. *)
Theorem prefilter_latitude_sound (lat lon lat2 lon2 r d : R) :
  -90 <= lat <= 90 -> -90 <= lat2 <= 90 ->
  haversine lat lon lat2 lon2 = Ok d -> d <= r ->
  lat - r / 111 <= lat2 <= lat + r / 111 /\
  (forall min_lat max_lat min_lon max_lon : R,
     bounding_box lat lon r = Ok (min_lat, max_lat, min_lon, max_lon) ->
     min_lat = lat - r / 111 /\ max_lat = lat + r / 111 /\
     min_lat <= lat2 <= max_lat) /\
  forall B : FloatArith,
    ((111 * math.cos (math.radians lat))%fl <> 0 ->
     exists min_lon max_lon : R,
       bounding_box (A := B) lat lon r
       = Ok ((lat - r / 111)%fl, (lat + r / 111)%fl, min_lon, max_lon)) /\
    forall min_lat max_lat min_lon max_lon : R,
      bounding_box (A := B) lat lon r = Ok (min_lat, max_lat, min_lon, max_lon) ->
      min_lat = (lat - r / 111)%fl /\ max_lat = (lat + r / 111)%fl.
Proof.
  intros H1 H2 Hd Hr.
  pose proof (haversine_lat_lower _ _ _ _ _ H1 H2 Hd) as Hlow.
  assert (Hlat : lat - r / 111 <= lat2 <= lat + r / 111)
    by (unfold Rabs in Hlow; destruct (Rcase_abs (lat2 - lat)); lra).
  split; [exact Hlat |].
  assert (Hgen : forall (B : FloatArith) (min_lat max_lat min_lon max_lon : R),
            bounding_box (A := B) lat lon r
            = Ok (min_lat, max_lat, min_lon, max_lon) ->
            min_lat = (lat - r / 111)%fl /\ max_lat = (lat + r / 111)%fl).
  { intros B min_lat max_lat min_lon max_lon Hbox.
    unfold bounding_box in Hbox. rewrite truediv_ok in Hbox by lra.
    cbn [rbind] in Hbox.
    destruct (truediv r _) as [dl | e]; cbn [rbind] in Hbox; [| discriminate].
    injection Hbox as <- <- _ _. split; reflexivity. }
  split.
  - intros min_lat max_lat min_lon max_lon Hbox.
    destruct (Hgen exact_arith _ _ _ _ Hbox) as [-> ->].
    exact_ops. lra.
  - intros B. split; [| apply Hgen].
    intros Hc. unfold bounding_box.
    rewrite (truediv_ok r 111) by lra. rewrite truediv_ok by exact Hc.
    cbn [rbind]. eauto.
Qed.

(** The place 61N 0E is 111.2 km from 60N 0E: within 112 km, and inside the
    latitude range 60 +- 112/111 by less than a hundredth of a degree. *)
Lemma prefilter_latitude_sound_witness :
  exists d min_lat max_lat min_lon max_lon : R,
    haversine 60 0 61 0 = Ok d /\ d <= 112 /\
    bounding_box 60 0 112 = Ok (min_lat, max_lat, min_lon, max_lon) /\
    60 - 112 / 111 <= 61 <= 60 + 112 / 111 /\
    min_lat <= 61 <= max_lat.
Proof.
  pose proof PI_bounds as HPI.
  assert (Hd : haversine 60 0 61 0 = Ok (6371 * (PI / 180)))
    by (rewrite haversine_asin, distance_61N; reflexivity).
  destruct (prefilter_latitude_sound 60 0 61 0 112 (6371 * (PI / 180)))
    as [Hlat [Hbox _]]; [lra | lra | exact Hd | lra |].
  exists (6371 * (PI / 180)), (60 - 112 / 111), (60 + 112 / 111),
    (0 - 112 / (111 / 2)), (0 + 112 / (111 / 2)).
  split; [exact Hd |]. split; [lra |].
  split; [apply bounding_box_60N |]. split; [exact Hlat |].
  exact (proj2 (proj2 (Hbox _ _ _ _ (bounding_box_60N 0 112)))).
Defined.

(** ** Range filter *)

(** C3: the band of step 3 is closed at both ends.  With a distance column
    of floats and missing values, [band_filter] returns a table holding
    exactly the candidate rows whose distance lies in
    [target - tolerance, target + tolerance]: for a tolerance that is not
    negative a row at distance target + tolerance or target - tolerance is
    kept, and a row at target + tolerance + 0.01 is dropped. *)
Theorem band_filter_inclusive (w : world) (candidates : addr)
    (max_distance_km tolerance : R) (idist : nat) :
  let cand := nth candidates (heap w) empty_frame in
  get_loc "distance_km" (columns cand) = Some idist ->
  Forall (fun r => numeric (cell idist r)) (rows cand) ->
  exists (filtered_df : addr) (w' : world),
    band_filter candidates max_distance_km tolerance w = (Ok filtered_df, w') /\
    let kept := rows (nth filtered_df (heap w') empty_frame) in
    (forall r, In r kept <->
               In r (rows cand) /\
               exists d, cell idist r = VNum d /\
                         max_distance_km - tolerance <= d
                         <= max_distance_km + tolerance) /\
    (0 <= tolerance ->
     forall r, In r (rows cand) ->
               cell idist r = VNum (max_distance_km + tolerance) \/
               cell idist r = VNum (max_distance_km - tolerance) ->
               In r kept) /\
    (forall r, cell idist r = VNum (max_distance_km + tolerance + 1 / 100) ->
               ~ In r kept).
Proof.
  intros cand Hd Hn.
  exists (List.length (heap w)),
    (mkWorld (heap w ++ [band_frame max_distance_km tolerance idist cand])
             (stdout w)).
  split; [apply band_filter_run; assumption |].
  cbn [heap]. rewrite nth_length_app. cbn [band_frame rows].
  assert (Hkept : forall r,
            In r (filter (fun r => in_band max_distance_km tolerance (cell idist r))
                         (rows cand)) <->
            In r (rows cand) /\
            exists d, cell idist r = VNum d /\
                      max_distance_km - tolerance <= d
                      <= max_distance_km + tolerance).
  { intros r. rewrite filter_In, in_band_true. reflexivity. }
  split; [exact Hkept |]. split.
  - intros Ht r Hr [E | E]; apply Hkept; (split; [exact Hr |]);
      eexists; (split; [exact E |]); lra.
  - intros r E Hr. apply Hkept in Hr. destruct Hr as [_ [d [E' Hd']]].
    rewrite E in E'. injection E' as <-. lra.
Qed.

Lemma band_filter_inclusive_witness :
  exists (filtered_df : addr) (w' : world),
    band_filter 0%nat 1300 150 (mkWorld [band_demo] []) = (Ok filtered_df, w') /\
    In [VStr "Alpha"; VNum 1450] (rows (nth filtered_df (heap w') empty_frame)) /\
    In [VStr "Gamma"; VNum 1150] (rows (nth filtered_df (heap w') empty_frame)) /\
    ~ In [VStr "Beta"; VNum (1450 + 1 / 100)]
         (rows (nth filtered_df (heap w') empty_frame)).
Proof.
  destruct (band_filter_inclusive (mkWorld [band_demo] []) 0%nat 1300 150 1%nat
              eq_refl)
    as [a [w' [Hrun [_ [Hend Hout]]]]].
  - repeat constructor.
  - exists a, w'. split; [exact Hrun |].
    assert (Ht : 0 <= 150) by lra.
    split; [| split].
    + apply (Hend Ht); [cbn; auto |]. left. cbn. f_equal. lra.
    + apply (Hend Ht); [cbn; auto |]. right. cbn. f_equal. lra.
    + apply Hout. cbn. f_equal. lra.
Defined.
(** C2, as stated, fails: the order is not by the nearest in-band place of a
    locality.  From 60N 0E with target 3160 and tolerance 150, Harbour, in
    Alpha, is in the band and nearer than every in-band place of Beta; the
    box leaves Harbour out, so Alpha is ranked by Mill, which is farther
    than Quay, and comes after Beta. *)
Lemma filter_places_box_hides_nearer_place :
  exists (d_harbour : R) (w' : world),
    in_band_place hidden_catalog 60 0 3160 150 (VStr "Alpha") d_harbour /\
    (forall d : R,
       in_band_place hidden_catalog 60 0 3160 150 (VStr "Beta") d ->
       d_harbour < d) /\
    filter_places stable_sort 0%nat 60 0 3160 150 (mkWorld [hidden_catalog] [])
    = (Ok [VStr "Beta"; VStr "Alpha"], w').
Proof.
  pose proof PI_bounds as HPI.
  destruct haversine_60N_60E as [d [Hd Hb]].
  destruct hidden_run as [w' Hrun].
  exists d, w'. split; [| split; [| exact Hrun]].
  - exists [VStr "Harbour"; VStr "Alpha"; VNum 60; VNum 60], 60, 60.
    split; [cbn; auto |]. split; [reflexivity |]. split; [reflexivity |].
    split; [reflexivity |]. split; [exact Hd |]. exact_ops. lra.
  - intros d' [r [la [lo [Hr [Hc [Hla [Hlo [Hh _]]]]]]]].
    cbn [hidden_catalog rows In] in Hr.
    destruct Hr as [<- | [<- | [<- | []]]]; try discriminate Hc.
    injection Hla as <-. injection Hlo as <-.
    rewrite haversine_asin, distance_Quay in Hh. injection Hh as <-. lra.
Qed.

(** The contract of the sort leaves the order of places at equal distance
    open: sorting the rows taken in reverse meets it too, and on the three
    places of [demo_catalog], two of them 111 km away, it puts Alpha before
    Beta where the stable sort puts Beta before Alpha. *)
Lemma reversing_sort_contract : sort_contract reversing_sort.
Proof.
  intros key l. unfold reversing_sort.
  destruct (stable_sort_contract key (rev l)) as [Hp Hs]. split.
  - eapply Permutation_trans; [exact Hp |].
    apply Permutation_sym, Permutation_rev.
  - intros Hn. apply Hs. apply Forall_forall. intros r Hr.
    rewrite Forall_forall in Hn. apply Hn. now apply in_rev.
Qed.

Lemma tie_order_follows_sort :
  exists w1 w2 : world,
    filter_places stable_sort 0%nat 60 0 100 150 demo_world
    = (Ok [VStr "Beta"; VStr "Alpha"], w1) /\
    filter_places reversing_sort 0%nat 60 0 100 150 demo_world
    = (Ok [VStr "Alpha"; VStr "Beta"], w2).
Proof.
  pose proof PI_bounds as HPI.
  destruct demo_run as [w1 H1]. exists w1. eexists. split; [exact H1 |].
  rewrite (filter_places_run reversing_sort demo_world 0%nat 60 0 100 150
             _ 2%nat 3%nat (bounding_box_60N 0 (100 + 150)) eq_refl eq_refl).
  2, 3: repeat constructor.
  change (nth 0 (heap demo_world) empty_frame) with demo_catalog.
  change (distance_loc (columns demo_catalog)) with 4%nat.
  unfold band_frame, candidate_frame, box_rows. cbn [rows columns].
  rewrite (filter_true (in_box _ 2 3)).
  2:{ repeat constructor; apply in_box_true; cbn [cell nth];
      do 2 eexists; (split; [reflexivity |]); (split; [reflexivity |]); lra. }
  change (distance_loc (columns demo_catalog)) with 4%nat.
  unfold with_distance. cbn [demo_catalog rows map].
  rewrite !distance_cell_exact. cbn [cell nth set_cell].
  rewrite distance_61N, distance_62N.
  rewrite filter_true.
  2:{ repeat constructor; apply in_band_exact; lra. }
  unfold reversing_sort, stable_sort.
  cbn [rev app fold_right insert_row cell nth key_leb].
  rewrite (Rleb_yes (6371 * (PI / 180)) (6371 * (PI / 90))) by lra.
  cbn [insert_row cell nth key_leb].
  rewrite (Rleb_yes (6371 * (PI / 180)) (6371 * (PI / 180))) by lra.
  reflexivity.
Qed.

(** C2, amended: whatever the arithmetic and whichever algorithm pandas
    sorts with, the cities a call of [filter_places] returns are pairwise
    distinct, at most 5, and in ascending order of the least computed
    distance at which a place of the city matches, that is, lies inside the
    box and in the band; cities of equal least distance come in the order
    the sort leaves them.  The call returns whenever the box is computed,
    the Latitude and Longitude columns hold floats and missing values, and
    no distance of a place in the box fails. *)
Theorem filter_places_ordered {A : FloatArith}
    (sort_rows : (Row -> value) -> list Row -> list Row)
    (w : world) (df : addr) (lat_x lon_x max_distance_km tolerance : R) :
  sort_contract sort_rows ->
  let cat := nth df (heap w) empty_frame in
  let run :=
    filter_places sort_rows df lat_x lon_x max_distance_km tolerance w in
  (forall (cities : list value) (w' : world),
     run = (Ok cities, w') ->
     NoDup cities /\ (List.length cities <= 5)%nat /\
     exists ds : list R,
       Forall2 (nearest_match cat lat_x lon_x max_distance_km tolerance)
               cities ds /\
       StronglySorted Rle ds) /\
  (forall (box : R * R * R * R) (ilat ilon : nat) (ds : list value),
     bounding_box lat_x lon_x (max_distance_km + tolerance)%fl = Ok box ->
     get_loc "Latitude" (columns cat) = Some ilat ->
     get_loc "Longitude" (columns cat) = Some ilon ->
     Forall (fun r => numeric (cell ilat r)) (rows cat) ->
     Forall (fun r => numeric (cell ilon r)) (rows cat) ->
     distances lat_x lon_x ilat ilon (box_rows box ilat ilon cat) = Ok ds ->
     exists (cities : list value) (w' : world), run = (Ok cities, w')).
Proof.
  intros Hsort cat run. split.
  2:{ intros box ilat ilon ds Hbox Hla Hlo Nla Nlo Hds. subst run.
      rewrite (filter_places_steps sort_rows w df lat_x lon_x max_distance_km
                 tolerance box ilat ilon Hbox Hla Hlo Nla Nlo).
      fold cat. cbn [rows]. rewrite Hds.
      destruct (get_loc "City" (columns cat)); [| eauto].
      destruct (get_loc "Name" (columns cat)); eauto. }
  intros cities w' Hrun. subst run.
  destruct (filter_places_inv _ _ _ _ _ _ _ _ _ Hrun)
    as [box [ilat [ilon [Hbox [Hla [Hlo Hres]]]]]].
  fold cat in Hbox, Hla, Hlo, Hres. cbv zeta in Hres.
  destruct (sorted_matches sort_rows cat lat_x lon_x max_distance_km tolerance
              box ilat ilon Hsort Hbox Hla Hlo) as [Hrows Hs].
  cbv zeta in Hrows, Hs.
  set (idist := distance_loc (columns cat)) in *.
  set (sorted := sort_rows (cell idist) _) in *.
  assert (Hempty : NoDup (@nil value) /\ (List.length (@nil value) <= 5)%nat /\
                   exists ds : list R,
                     Forall2 (nearest_match cat lat_x lon_x max_distance_km
                                tolerance) [] ds /\
                     StronglySorted Rle ds).
  { split; [constructor |]. split; [cbn; lia |].
    exists []. split; constructor. }
  destruct (get_loc "City" (columns cat)) as [icity |] eqn:Ec;
    [| destruct Hres as [-> _]; exact Hempty].
  destruct (get_loc "Name" (columns cat)) as [iname |];
    [| destruct Hres as [-> _]; exact Hempty].
  destruct Hres as [-> _]. clear Hempty.
  destruct (first_seen_nearest (cell icity) (distance_of idist) sorted Hs)
    as [Hnd [ds [Hq Hds]]].
  split; [apply NoDup_firstn; exact Hnd |].
  split; [apply firstn_le_length |].
  exists (firstn 5 ds). split; [| apply StronglySorted_firstn; exact Hds].
  apply Forall2_firstn. revert Hq. apply Forall2_impl.
  intros c d [[a [Ha [Hca Hda]]] Hmin].
  assert (Hcity : forall r, cell icity
                    (with_distance lat_x lon_x ilat ilon idist r) = cell icity r).
  { intros r. apply city_of_with_distance. exact Ec. }
  split.
  - apply Hrows in Ha. destruct Ha as [r [d0 [Hm [Er Ed]]]].
    exists r. unfold distance_of in Hda. rewrite Ed in Hda. subst d0.
    split; [exact Hm |]. unfold row_getitem. rewrite Ec. subst a.
    now rewrite Hcity in Hca; subst c.
  - intros r d' Hm Hrc. unfold row_getitem in Hrc. rewrite Ec in Hrc.
    injection Hrc as Hrc.
    assert (Hin : In (with_distance lat_x lon_x ilat ilon idist r) sorted).
    { apply Hrows. exists r, d'. split; [exact Hm |]. split; [reflexivity |].
      unfold with_distance. rewrite cell_set_cell_same.
      apply (matches_iff _ _ _ _ _ _ _ _ _ _ Hbox Hla Hlo) in Hm. tauto. }
    specialize (Hmin _ Hin). rewrite Hcity in Hmin. specialize (Hmin Hrc).
    unfold distance_of, with_distance in Hmin.
    rewrite cell_set_cell_same in Hmin.
    apply (matches_iff _ _ _ _ _ _ _ _ _ _ Hbox Hla Hlo) in Hm.
    destruct Hm as [_ [_ [Hd _]]]. now rewrite Hd in Hmin.
Qed.

Lemma filter_places_ordered_witness :
  exists w' : world,
    filter_places stable_sort 0%nat 60 0 100 150 demo_world
    = (Ok [VStr "Beta"; VStr "Alpha"], w') /\
    NoDup [VStr "Beta"; VStr "Alpha"] /\
    exists ds : list R,
      Forall2 (nearest_match demo_catalog 60 0 100 150)
              [VStr "Beta"; VStr "Alpha"] ds /\
      StronglySorted Rle ds.
Proof.
  destruct demo_run as [w' Hrun]. exists w'. split; [exact Hrun |].
  destruct (proj1 (filter_places_ordered stable_sort demo_world 0%nat
                     60 0 100 150 stable_sort_contract) _ _ Hrun)
    as [Hnd [_ Hds]].
  split; [exact Hnd | exact Hds].
Defined.

(** C6, as stated, fails: on a catalog without a City column, whose only
    place matches at about 111 km, [filter_places] returns the empty list,
    the result of a query without matches. *)
Lemma filter_places_no_city_returns_empty :
  get_loc "City" (columns no_city_catalog) = None /\
  (exists d, matches no_city_catalog 60 0 100 150
               [VStr "Fort"; VNum 61; VNum 0] d) /\
  exists w' : world,
    filter_places stable_sort 0%nat 60 0 100 150 (mkWorld [no_city_catalog] [])
    = (Ok [], w').
Proof.
  split; [reflexivity |]. split.
  - exists (6371 * (PI / 180)). split; [cbn; auto |].
    exists 61, 0. do 4 eexists.
    split; [reflexivity |]. split; [reflexivity |].
    split; [apply bounding_box_60N |].
    pose proof PI_bounds. exact_ops.
    split; [lra |]. split; [lra |].
    split; [rewrite haversine_asin, distance_61N; reflexivity | lra].
  - rewrite (filter_places_run stable_sort (mkWorld [no_city_catalog] []) 0%nat
               60 0 100 150 _ 1%nat 2%nat (bounding_box_60N 0 (100 + 150))
               eq_refl eq_refl).
    2, 3: repeat constructor.
    eexists. reflexivity.
Qed.

(** C6, amended: only a missing coordinate column is a schema error.
    Whatever the arithmetic: if the box cannot be computed the call raises
    what [bounding_box] raised; otherwise a catalog without 'Latitude'
    raises KeyError 'Latitude', and one with float latitudes but without
    'Longitude' raises KeyError 'Longitude', all before anything is created
    or printed.  A catalog with float coordinates that lacks 'City' or
    'Name' is no error: unless a distance of a place in the box fails, which
    raises ValueError and prints nothing, the call prints the diagnostic and
    returns the empty list. *)
Theorem filter_places_missing_columns {A : FloatArith}
    (sort_rows : (Row -> value) -> list Row -> list Row)
    (w : world) (df : addr) (lat_x lon_x max_distance_km tolerance : R) :
  let cat := nth df (heap w) empty_frame in
  let run := filter_places sort_rows df lat_x lon_x max_distance_km tolerance w in
  match bounding_box lat_x lon_x (max_distance_km + tolerance)%fl with
  | Raise e => run = (Raise e, w)
  | Ok box =>
      match get_loc "Latitude" (columns cat) with
      | None => run = (Raise (KeyError "Latitude"), w)
      | Some ilat =>
          Forall (fun r => numeric (cell ilat r)) (rows cat) ->
          match get_loc "Longitude" (columns cat) with
          | None => run = (Raise (KeyError "Longitude"), w)
          | Some ilon =>
              Forall (fun r => numeric (cell ilon r)) (rows cat) ->
              get_loc "City" (columns cat) = None \/
              get_loc "Name" (columns cat) = None ->
              match distances lat_x lon_x ilat ilon
                      (box_rows box ilat ilon cat) with
              | Ok _ =>
                  exists w' : world,
                    run = (Ok [], w') /\
                    stdout w' = stdout w ++ [PrintStr not_found_message]
              | Raise e =>
                  e = ValueError /\
                  exists w' : world,
                    run = (Raise ValueError, w') /\ stdout w' = stdout w
              end
          end
      end
  end.
Proof.
  intros cat run.
  destruct (bounding_box lat_x lon_x (max_distance_km + tolerance)%fl)
    as [box | e] eqn:Hbox.
  2:{ subst run. unfold filter_places, bind.
      now rewrite (box_candidates_no_box w df lat_x lon_x max_distance_km
                     tolerance e Hbox). }
  destruct (get_loc "Latitude" (columns cat)) as [ilat |] eqn:Hla.
  - intros Nla.
    destruct (get_loc "Longitude" (columns cat)) as [ilon |] eqn:Hlo.
    + intros Nlo Hmiss. subst run.
      rewrite (filter_places_steps sort_rows w df lat_x lon_x max_distance_km
                 tolerance box ilat ilon Hbox Hla Hlo Nla Nlo).
      fold cat. cbn [rows].
      destruct (distances lat_x lon_x ilat ilon (box_rows box ilat ilon cat))
        as [ds | e] eqn:Ed.
      * destruct (get_loc "City" (columns cat)) as [icity |].
        -- destruct (get_loc "Name" (columns cat)) as [iname |].
           ++ destruct Hmiss; discriminate.
           ++ eexists. split; reflexivity.
        -- eexists. split; reflexivity.
      * destruct (distances_raise _ _ _ _ _ _
                    (box_rows_numeric box ilat ilon cat) Ed) as [-> _].
        split; [reflexivity |]. eexists. split; reflexivity.
    + subst run. unfold filter_places, bind.
      now rewrite (box_candidates_no_longitude w df lat_x lon_x max_distance_km
                     tolerance box ilat Hbox Hla Nla Hlo).
  - subst run. unfold filter_places, bind.
    now rewrite (box_candidates_no_latitude w df lat_x lon_x max_distance_km
                   tolerance box Hbox Hla).
Qed.

Lemma filter_places_missing_columns_witness :
  exists w' : world,
    filter_places stable_sort 0%nat 60 0 100 150 (mkWorld [no_city_catalog] [])
    = (Ok [], w') /\
    stdout w' = [PrintStr not_found_message].
Proof.
  pose proof (filter_places_missing_columns (A := exact_arith) stable_sort
                (mkWorld [no_city_catalog] []) 0%nat 60 0 100 150) as H.
  cbv zeta in H. cbn [fl_add exact_arith] in H.
  rewrite (bounding_box_60N 0 (100 + 150)) in H.
  change (nth 0 (heap (mkWorld [no_city_catalog] [])) empty_frame)
    with no_city_catalog in H.
  change (get_loc "Latitude" (columns no_city_catalog)) with (Some 1%nat) in H.
  change (get_loc "Longitude" (columns no_city_catalog)) with (Some 2%nat) in H.
  cbv iota beta in H.
  assert (Hla : Forall (fun r => numeric (cell 1 r)) (rows no_city_catalog))
    by (repeat constructor).
  assert (Hlo : Forall (fun r => numeric (cell 2 r)) (rows no_city_catalog))
    by (repeat constructor).
  specialize (H Hla Hlo (or_introl eq_refl)).
  rewrite distances_exact in H by apply box_rows_numeric.
  exact H.
Defined.

(** C9: whatever the arithmetic, [filter_places] leaves every table that was
    on the heap before the call as it was, the catalog among them, whether
    it returns or raises: the distance column and the filters only touch
    objects the call itself created. *)
Theorem filter_places_keeps_catalog {A : FloatArith}
    (sort_rows : (Row -> value) -> list Row -> list Row)
    (w : world) (df : addr) (lat_x lon_x max_distance_km tolerance : R) :
  let w' := snd (filter_places sort_rows df lat_x lon_x max_distance_km
                   tolerance w) in
  firstn (List.length (heap w)) (heap w') = heap w /\
  forall a : addr,
    (a < List.length (heap w))%nat ->
    nth_error (heap w') a = nth_error (heap w) a.
Proof.
  intros w'. subst w'. apply keeps_heap. apply keeps_filter_places.
Qed.

Lemma filter_places_keeps_catalog_witness :
  nth_error
    (heap (snd (filter_places stable_sort 0%nat 60 0 100 150 demo_world))) 0
  = Some demo_catalog.
Proof.
  apply (proj2 (filter_places_keeps_catalog stable_sort demo_world 0%nat
                  60 0 100 150) 0%nat).
  cbn. lia.
Defined.

(** ** Recommend operation *)

(** C10: for every request, and whatever the arithmetic, [recommend_cities]
    runs the estimator as [trip_logic days speed 6 3 2 False], so on 13
    usable hours a day and never in relaxed mode, and the range filter with
    tolerance 150 around the resulting distance; the request holds nothing
    but the location, the days and the speed. *)
Theorem recommend_cities_fixed_defaults {A : FloatArith}
    (sort_rows : (Row -> value) -> list Row -> list Row)
    (get_lat_lon : string -> result (option (R * R))) (df : addr)
    (request : RecommendRequest) (w : world) :
  let days := trip_days request in
  let max_distance := 2 / 3 * IZR (13 * days) * IZR (speed request) in
  (forall (F : Type) (H : PyFloat F),
     trip_logic_kw (F := F) days (Some (speed request)) None None None None
     = trip_logic days (speed request) 6 3 2 false) /\
  trip_logic (F := R) days (speed request) 6 3 2 false
  = Ok (max_distance, (13 * days)%Z) /\
  trip_logic (H := python_float) days (speed request) 6 3 2 false
  = (u <- float_of_int (13 * days) ;;
     s <- float_of_int (speed request) ;;
     Ok ((2 / 3 * u * s)%fl, (13 * days)%Z))%result /\
  (forall lat lon d : R,
     filter_places_kw sort_rows df lat lon d None
     = filter_places sort_rows df lat lon d 150) /\
  recommend_cities sort_rows get_lat_lon df request w
  = match get_lat_lon (user_location request) with
    | Raise e => (Raise e, w)
    | Ok None => (Ok (ErrorResponse "Location not found"), w)
    | Ok (Some (lat, lon)) =>
        match trip_logic (H := python_float) days (speed request)
                6 3 2 false with
        | Raise e => (Raise e, w)
        | Ok (max_distance, _) =>
            match filter_places sort_rows df lat lon max_distance 150 w with
            | (Ok tour_city, w') =>
                (Ok (Recommendation (fl_round2 max_distance)
                       (firstn 5 tour_city)), w')
            | (Raise e, w') => (Raise e, w')
            end
        end
    end.
Proof.
  intros days max_distance.
  assert (E13 : (days * 24 - days * (6 + 3 + 2) + 0)%Z = (13 * days)%Z) by lia.
  split; [reflexivity |]. split.
  { rewrite trip_logic_R. subst max_distance. rewrite E13. reflexivity. }
  split.
  { rewrite trip_logic_float. cbv zeta. rewrite E13. reflexivity. }
  split; [reflexivity |].
  apply recommend_cities_steps.
Qed.
(** * Further properties *)

(** ** Distance metric *)

Lemma hav_cosines (lat1 lon1 lat2 lon2 : R) :
  hav lat1 lon1 lat2 lon2
  = (1 - (sin (math.radians lat1) * sin (math.radians lat2)
          + cos (math.radians lat1) * cos (math.radians lat2)
            * cos (math.radians (lon2 - lon1)))) / 2.
Proof.
  rewrite hav_exact, radians_minus, !sin_half_sq, cos_minus. lra.
Qed.

Lemma hav_sym (lat1 lon1 lat2 lon2 : R) :
  hav lat1 lon1 lat2 lon2 = hav lat2 lon2 lat1 lon1.
Proof.
  rewrite !hav_cosines.
  replace (math.radians (lon1 - lon2)) with (- math.radians (lon2 - lon1))
    by (rewrite !radians_exact; lra).
  rewrite cos_neg. lra.
Qed.

(** X1: the metric is symmetric: the distance from a to b is the distance
    from b to a. *)
Theorem haversine_sym (lat1 lon1 lat2 lon2 : R) :
  haversine lat1 lon1 lat2 lon2 = haversine lat2 lon2 lat1 lon1.
Proof.
  rewrite !haversine_asin, hav_sym. reflexivity.
Qed.

(** X2: a point is at distance exactly 0 from itself. *)
Theorem haversine_same_point (lat lon : R) :
  haversine lat lon lat lon = Ok 0.
Proof.
  rewrite haversine_meridian.
  - replace (lat - lat) with 0 by lra. rewrite Rabs_R0.
    rewrite radians_exact. f_equal. lra.
  - replace (lat - lat) with 0 by lra. rewrite Rabs_R0. lra.
Qed.

(** X3: the metric does not change when a longitude is shifted by a full
    turn: the raw longitude difference needs no normalisation across the
    antimeridian. *)
Theorem haversine_full_turn (lat1 lon1 lat2 lon2 : R) :
  haversine lat1 lon1 lat2 (lon2 + 360) = haversine lat1 lon1 lat2 lon2 /\
  haversine lat1 lon1 lat2 (lon2 - 360) = haversine lat1 lon1 lat2 lon2 /\
  haversine lat1 (lon1 + 360) lat2 lon2 = haversine lat1 lon1 lat2 lon2 /\
  haversine lat1 (lon1 - 360) lat2 lon2 = haversine lat1 lon1 lat2 lon2.
Proof.
  assert (Hp : forall x, cos (x + 2 * PI) = cos x) by (intros; apply cos_2PI_add ||
    (rewrite cos_plus, cos_2PI, sin_2PI; lra)).
  assert (Hm : forall x, cos (x - 2 * PI) = cos x).
  { intros x. rewrite <- (Hp (x - 2 * PI)). f_equal. lra. }
  rewrite !haversine_asin, !hav_cosines.
  replace (math.radians (lon2 + 360 - lon1))
    with (math.radians (lon2 - lon1) + 2 * PI) by (rewrite !radians_exact; lra).
  replace (math.radians (lon2 - 360 - lon1))
    with (math.radians (lon2 - lon1) - 2 * PI) by (rewrite !radians_exact; lra).
  replace (math.radians (lon2 - (lon1 + 360)))
    with (math.radians (lon2 - lon1) - 2 * PI) by (rewrite !radians_exact; lra).
  replace (math.radians (lon2 - (lon1 - 360)))
    with (math.radians (lon2 - lon1) + 2 * PI) by (rewrite !radians_exact; lra).
  rewrite Hp, Hm. auto.
Qed.

(** X4: in exact arithmetic the value of the metric is the great-circle
    distance of the spherical law of cosines on a sphere of radius 6371: the
    angle whose cosine is sin lat1 sin lat2 + cos lat1 cos lat2
    cos (lon2 - lon1), times 6371. *)
Theorem haversine_great_circle (lat1 lon1 lat2 lon2 : R) :
  haversine lat1 lon1 lat2 lon2
  = Ok (6371 * acos (sin (math.radians lat1) * sin (math.radians lat2)
                     + cos (math.radians lat1) * cos (math.radians lat2)
                       * cos (math.radians (lon2 - lon1)))).
Proof.
  rewrite haversine_asin. f_equal.
  pose proof (hav_bounds lat1 lon1 lat2 lon2) as Hb.
  rewrite hav_cosines in Hb |- *.
  set (c := sin (math.radians lat1) * sin (math.radians lat2) + _) in *.
  assert (Hc : -1 <= c <= 1) by lra.
  pose proof (acos_bound c) as Ha. pose proof PI_bounds as HPI.
  assert (E : (1 - c) / 2 = sin (acos c / 2) ^ 2).
  { rewrite sin_half_sq, cos_acos by exact Hc. reflexivity. }
  rewrite E, sqrt_sin_sq by lra. rewrite asin_sin by lra. lra.
Qed.

(** ** Travel budget estimator *)

(** X5: in exact arithmetic the maximum distance is linear in the speed: a
    speed k times as large gives k times the distance, on the same usable
    hours.  On binary64 numbers this holds up to rounding only: one day at
    speed 27 does not give 3 times the distance of one day at speed 9. *)
Theorem trip_logic_linear_in_speed
    (days speed sleep meal buffer k : Z) (compromise : bool) :
  (exists (d : R) (u : Z),
     trip_logic (F := R) days speed sleep meal buffer compromise = Ok (d, u) /\
     trip_logic (F := R) days (k * speed) sleep meal buffer compromise
     = Ok (IZR k * d, u)) /\
  exists d9 d27 : float,
    trip_logic (F := float) 1 9 6 3 2 false = Ok (d9, 13%Z) /\
    trip_logic (F := float) 1 27 6 3 2 false = Ok (d27, 13%Z) /\
    PrimFloat.eqb d27 (PrimFloat.mul 3 d9) = false.
Proof.
  split.
  - do 2 eexists. split; [apply trip_logic_R |].
    rewrite trip_logic_R. cbv zeta. f_equal. f_equal.
    rewrite mult_IZR. lra.
  - do 2 eexists. repeat split; vm_compute; reflexivity.
Qed.

(** X6: when the daily allocations fit in a day (sleep + meal + buffer <= 24),
    the days and the speed are not negative and, in relaxed mode, sleep is at
    least 4, neither the usable hours nor the maximum distance is negative. *)
Theorem trip_logic_nonnegative
    (days speed sleep meal buffer : Z) (compromise : bool) :
  (0 <= days)%Z -> (0 <= speed)%Z -> (sleep + meal + buffer <= 24)%Z ->
  (compromise = true -> (4 <= sleep)%Z) ->
  exists (d : R) (u : Z),
    trip_logic (F := R) days speed sleep meal buffer compromise = Ok (d, u) /\
    0 <= d /\ (0 <= u)%Z.
Proof.
  intros Hd Hs Hb Hc. do 2 eexists. split; [apply trip_logic_R |].
  cbv zeta.
  assert (Hu : (0 <= days * 24 - days * (sleep + meal + buffer)
                     + (if compromise then sleep - 4 else 0))%Z).
  { destruct compromise; [specialize (Hc eq_refl) |]; nia. }
  split; [| exact Hu].
  apply IZR_le in Hu, Hs.
  set (u := IZR (_ + _)) in *. set (s := IZR speed) in *. nra.
Qed.

Lemma trip_logic_nonnegative_witness :
  exists (d : R) (u : Z),
    trip_logic (F := R) 3 50 6 3 2 true = Ok (d, u) /\ 0 <= d /\ (0 <= u)%Z.
Proof.
  apply (trip_logic_nonnegative 3 50 6 3 2 true); lia.
Defined.

(** ** Spatial prefilter *)

Lemma cos_radians_pos (lat : R) : -90 < lat < 90 -> 0 < cos (math.radians lat).
Proof.
  intros H. pose proof PI_bounds. rewrite radians_exact. apply cos_gt_0; nra.
Qed.

(** X7: away from the poles and for a radius that is not negative, the box is
    centred on the origin and contains it; its longitude half-width is at
    least its latitude half-width r / 111. *)
Theorem bounding_box_centred (lat lon r : R) :
  -90 < lat < 90 -> 0 <= r ->
  exists delta_lat delta_lon : R,
    bounding_box lat lon r
    = Ok (lat - delta_lat, lat + delta_lat, lon - delta_lon, lon + delta_lon) /\
    delta_lat = r / 111 /\ 0 <= delta_lat <= delta_lon.
Proof.
  intros Hlat Hr. pose proof (cos_radians_pos lat Hlat) as Hc.
  pose proof (COS_bound (math.radians lat)) as Hb.
  exists (r / 111), (r / (111 * cos (math.radians lat))).
  split; [apply bounding_box_ok; lra |]. split; [reflexivity |].
  split; [lra |].
  unfold Rdiv. apply Rmult_le_compat_l; [exact Hr |].
  apply Rinv_le_contravar; nra.
Qed.

Lemma bounding_box_centred_witness :
  exists delta_lat delta_lon : R,
    bounding_box 60 0 250
    = Ok (60 - delta_lat, 60 + delta_lat, 0 - delta_lon, 0 + delta_lon) /\
    delta_lat = 250 / 111 /\ 0 <= delta_lat <= delta_lon.
Proof.
  apply (bounding_box_centred 60 0 250); lra.
Defined.

(** X8: away from the poles the box grows with the radius: a point inside the
    box of a radius is inside the box of every larger radius. *)
Theorem bounding_box_monotone (lat lon r1 r2 la lo : R)
    (min_lat1 max_lat1 min_lon1 max_lon1 : R)
    (min_lat2 max_lat2 min_lon2 max_lon2 : R) :
  -90 < lat < 90 -> r1 <= r2 ->
  bounding_box lat lon r1 = Ok (min_lat1, max_lat1, min_lon1, max_lon1) ->
  bounding_box lat lon r2 = Ok (min_lat2, max_lat2, min_lon2, max_lon2) ->
  min_lat1 <= la <= max_lat1 -> min_lon1 <= lo <= max_lon1 ->
  min_lat2 <= la <= max_lat2 /\ min_lon2 <= lo <= max_lon2.
Proof.
  intros Hlat Hr H1 H2 Hla Hlo. pose proof (cos_radians_pos lat Hlat) as Hc.
  rewrite bounding_box_ok in H1, H2 by lra.
  injection H1 as <- <- <- <-. injection H2 as <- <- <- <-.
  assert (Hd : r1 / (111 * cos (math.radians lat))
               <= r2 / (111 * cos (math.radians lat))).
  { unfold Rdiv. apply Rmult_le_compat_r; [| exact Hr].
    left. apply Rinv_0_lt_compat. nra. }
  rewrite radians_exact in Hd. lra.
Qed.

Lemma bounding_box_monotone_witness :
  exists min_lat max_lat min_lon max_lon : R,
    bounding_box 60 0 3310 = Ok (min_lat, max_lat, min_lon, max_lon) /\
    min_lat <= 61 <= max_lat /\ min_lon <= 1 <= max_lon.
Proof.
  do 4 eexists. split; [apply bounding_box_60N |].
  refine (bounding_box_monotone 60 0 250 3310 61 1 _ _ _ _ _ _ _ _
            _ _ (bounding_box_60N 0 250) (bounding_box_60N 0 3310) _ _); lra.
Defined.
(** ** Range filter *)

(** X9: no match is lost but to the cap: whatever the arithmetic, when the
    catalog has City and Name columns, the city of every matching place is
    among the cities returned, unless five cities are returned already. *)
Theorem filter_places_complete {A : FloatArith}
    (sort_rows : (Row -> value) -> list Row -> list Row)
    (w w' : world) (df : addr) (lat_x lon_x max_distance_km tolerance : R)
    (cities : list value) (icity iname : nat) (r : Row) (d : R) (c : value) :
  sort_contract sort_rows ->
  filter_places sort_rows df lat_x lon_x max_distance_km tolerance w
  = (Ok cities, w') ->
  let cat := nth df (heap w) empty_frame in
  get_loc "City" (columns cat) = Some icity ->
  get_loc "Name" (columns cat) = Some iname ->
  matches cat lat_x lon_x max_distance_km tolerance r d ->
  row_getitem (columns cat) r "City" = Ok c ->
  In c cities \/ List.length cities = 5%nat.
Proof.
  intros Hsort Hrun cat Ec En Hm Hc.
  destruct (filter_places_inv _ _ _ _ _ _ _ _ _ Hrun)
    as [box [ilat [ilon [Hbox [Hla [Hlo Hres]]]]]].
  fold cat in Hbox, Hla, Hlo, Hres. cbv zeta in Hres.
  rewrite Ec, En in Hres. destruct Hres as [-> _].
  apply In_firstn_or_full.
  unfold row_getitem in Hc. rewrite Ec in Hc. injection Hc as <-.
  exact (matches_city_listed sort_rows cat lat_x lon_x max_distance_km
           tolerance box ilat ilon icity r d Hsort Hbox Hla Hlo Ec Hm).
Qed.

Lemma demo_match_fort :
  matches demo_catalog 60 0 100 150
    [VStr "Fort"; VStr "Alpha"; VNum 62; VNum 0] (6371 * (PI / 90)).
Proof.
  pose proof PI_bounds. split; [cbn; auto |].
  exists 62, 0. do 4 eexists.
  split; [reflexivity |]. split; [reflexivity |].
  split; [apply bounding_box_60N |]. exact_ops.
  split; [lra |]. split; [lra |].
  split; [rewrite haversine_asin, distance_62N; reflexivity | lra].
Qed.

Lemma filter_places_complete_witness :
  exists w' : world,
    filter_places stable_sort 0%nat 60 0 100 150 demo_world
    = (Ok [VStr "Beta"; VStr "Alpha"], w') /\
    (In (VStr "Alpha") [VStr "Beta"; VStr "Alpha"] \/
     List.length [VStr "Beta"; VStr "Alpha"] = 5%nat).
Proof.
  destruct demo_run as [w' Hrun]. exists w'. split; [exact Hrun |].
  exact (filter_places_complete stable_sort demo_world w' 0%nat 60 0 100 150
           _ 1%nat 0%nat _ _ (VStr "Alpha") stable_sort_contract Hrun
           eq_refl eq_refl demo_match_fort eq_refl).
Defined.

(** X10: whatever the arithmetic, the first city returned holds the nearest
    match of the whole catalog: one of its places matches at a distance that
    no matching place of any city undercuts. *)
Theorem filter_places_first_is_nearest {A : FloatArith}
    (sort_rows : (Row -> value) -> list Row -> list Row)
    (w w' : world) (df : addr) (lat_x lon_x max_distance_km tolerance : R)
    (c : value) (rest : list value) :
  sort_contract sort_rows ->
  filter_places sort_rows df lat_x lon_x max_distance_km tolerance w
  = (Ok (c :: rest), w') ->
  let cat := nth df (heap w) empty_frame in
  exists (r : Row) (d : R),
    matches cat lat_x lon_x max_distance_km tolerance r d /\
    row_getitem (columns cat) r "City" = Ok c /\
    forall r' d', matches cat lat_x lon_x max_distance_km tolerance r' d' ->
                  d <= d'.
Proof.
  intros Hsort Hrun cat.
  destruct (filter_places_inv _ _ _ _ _ _ _ _ _ Hrun)
    as [box [ilat [ilon [Hbox [Hla [Hlo Hres]]]]]].
  fold cat in Hbox, Hla, Hlo, Hres. cbv zeta in Hres.
  destruct (sorted_matches sort_rows cat lat_x lon_x max_distance_km tolerance
              box ilat ilon Hsort Hbox Hla Hlo) as [Hrows Hs].
  cbv zeta in Hrows, Hs.
  set (idist := distance_loc (columns cat)) in *.
  set (sorted := sort_rows (cell idist) _) in *.
  destruct (get_loc "City" (columns cat)) as [icity |] eqn:Ec;
    [| destruct Hres; discriminate].
  destruct (get_loc "Name" (columns cat)) as [iname |];
    [| destruct Hres; discriminate].
  destruct Hres as [Hc _].
  destruct sorted as [| a sorted'] eqn:Es; [discriminate |].
  cbn [map first_seen value_in existsb app] in Hc.
  destruct (first_seen_prefix (map (cell icity) sorted') [cell icity a])
    as [l' El].
  rewrite El in Hc. cbn [app firstn] in Hc. injection Hc as Hc _.
  assert (Ha : In a (a :: sorted')) by now left.
  apply Hrows in Ha. destruct Ha as [r [d [Hm [Er Ed]]]].
  exists r, d. split; [exact Hm |]. split.
  - unfold row_getitem. rewrite Ec. f_equal. rewrite Hc, Er.
    symmetry. apply city_of_with_distance. exact Ec.
  - intros r' d' Hm'.
    assert (Hin : In (with_distance lat_x lon_x ilat ilon idist r')
                     (a :: sorted')).
    { apply Hrows. exists r', d'. split; [exact Hm' |]. split; [reflexivity |].
      unfold with_distance. rewrite cell_set_cell_same.
      apply (matches_iff _ _ _ _ _ _ _ _ _ _ Hbox Hla Hlo) in Hm'. tauto. }
    assert (Hd' : distance_of idist
                    (with_distance lat_x lon_x ilat ilon idist r') = d').
    { unfold distance_of, with_distance. rewrite cell_set_cell_same.
      apply (matches_iff _ _ _ _ _ _ _ _ _ _ Hbox Hla Hlo) in Hm'.
      destruct Hm' as [_ [_ [E _]]]. now rewrite E. }
    assert (Hd : distance_of idist a = d) by (unfold distance_of; now rewrite Ed).
    inversion Hs as [| ? ? _ Hall]; subst. rewrite Forall_forall in Hall.
    destruct Hin as [<- | Hin]; [lra |].
    specialize (Hall _ Hin). lra.
Qed.

Lemma filter_places_first_is_nearest_witness :
  exists (w' : world) (r : Row) (d : R),
    filter_places stable_sort 0%nat 60 0 100 150 demo_world
    = (Ok [VStr "Beta"; VStr "Alpha"], w') /\
    matches demo_catalog 60 0 100 150 r d /\
    row_getitem (columns demo_catalog) r "City" = Ok (VStr "Beta") /\
    d <= 6371 * (PI / 90).
Proof.
  destruct demo_run as [w' Hrun].
  destruct (filter_places_first_is_nearest stable_sort demo_world w' 0%nat
              60 0 100 150 _ _ stable_sort_contract Hrun)
    as [r [d [Hm [Hc Hmin]]]].
  exists w', r, d. split; [exact Hrun |]. split; [exact Hm |].
  split; [exact Hc |]. exact (Hmin _ _ demo_match_fort).
Defined.

Lemma firstn_nil_inv {A : Type} (n : nat) (l : list A) :
  firstn (S n) l = [] -> l = [].
Proof. destruct l; [reflexivity | discriminate]. Qed.

(** X11: whatever the arithmetic, with City and Name columns the empty list
    is returned exactly when no place of the catalog matches; an empty
    catalog is one such case. *)
Theorem filter_places_empty_iff_no_match {A : FloatArith}
    (sort_rows : (Row -> value) -> list Row -> list Row)
    (w w' : world) (df : addr) (lat_x lon_x max_distance_km tolerance : R)
    (cities : list value) (icity iname : nat) :
  sort_contract sort_rows ->
  filter_places sort_rows df lat_x lon_x max_distance_km tolerance w
  = (Ok cities, w') ->
  let cat := nth df (heap w) empty_frame in
  get_loc "City" (columns cat) = Some icity ->
  get_loc "Name" (columns cat) = Some iname ->
  (cities = [] <->
   forall r d, ~ matches cat lat_x lon_x max_distance_km tolerance r d).
Proof.
  intros Hsort Hrun cat Ec En.
  destruct (filter_places_inv _ _ _ _ _ _ _ _ _ Hrun)
    as [box [ilat [ilon [Hbox [Hla [Hlo Hres]]]]]].
  fold cat in Hbox, Hla, Hlo, Hres. cbv zeta in Hres.
  rewrite Ec, En in Hres. destruct Hres as [Hc _].
  destruct (sorted_matches sort_rows cat lat_x lon_x max_distance_km tolerance
              box ilat ilon Hsort Hbox Hla Hlo) as [Hrows _].
  cbv zeta in Hrows. split.
  - intros E r d Hm. rewrite E in Hc. symmetry in Hc.
    apply firstn_nil_inv in Hc.
    pose proof (matches_city_listed sort_rows cat lat_x lon_x max_distance_km
                  tolerance box ilat ilon icity r d Hsort Hbox Hla Hlo Ec Hm)
      as Hin.
    cbv zeta in Hin. rewrite Hc in Hin. exact Hin.
  - intros Hno. rewrite Hc.
    destruct (sort_rows _ _) as [| a sorted'] eqn:Es; [reflexivity | exfalso].
    assert (Ha : In a (a :: sorted')) by now left.
    apply Hrows in Ha. destruct Ha as [r [d [Hm _]]]. exact (Hno r d Hm).
Qed.

Lemma filter_places_empty_iff_no_match_witness :
  exists w' : world,
    filter_places stable_sort 0%nat 60 0 3160 150 (mkWorld [east_catalog] [])
    = (Ok [], w') /\
    forall r d, ~ matches east_catalog 60 0 3160 150 r d.
Proof.
  destruct east_run as [w' Hrun]. exists w'. split; [exact Hrun |].
  exact (proj1 (filter_places_empty_iff_no_match stable_sort
                  (mkWorld [east_catalog] []) w' 0%nat 60 0 3160 150 []
                  1%nat 0%nat stable_sort_contract Hrun eq_refl eq_refl)
               eq_refl).
Defined.

(** X12: a negative radius finds nothing: when target + tolerance is below
    zero (a negative budget), the box is empty and the call returns the
    empty list whatever the catalog holds. *)
Theorem filter_places_negative_radius
    (sort_rows : (Row -> value) -> list Row -> list Row)
    (w : world) (df : addr) (lat_x lon_x max_distance_km tolerance : R)
    (ilat ilon : nat) :
  sort_contract sort_rows ->
  let cat := nth df (heap w) empty_frame in
  -90 < lat_x < 90 ->
  max_distance_km + tolerance < 0 ->
  get_loc "Latitude" (columns cat) = Some ilat ->
  get_loc "Longitude" (columns cat) = Some ilon ->
  Forall (fun r => numeric (cell ilat r)) (rows cat) ->
  Forall (fun r => numeric (cell ilon r)) (rows cat) ->
  exists w' : world,
    filter_places sort_rows df lat_x lon_x max_distance_km tolerance w
    = (Ok [], w').
Proof.
  intros Hsort cat Hlat Hneg Hla Hlo Nla Nlo.
  pose proof (cos_radians_pos lat_x Hlat) as Hc.
  assert (Hbox := bounding_box_ok lat_x lon_x (max_distance_km + tolerance)
                    ltac:(lra)).
  rewrite (filter_places_run sort_rows w df lat_x lon_x max_distance_km
             tolerance _ ilat ilon Hbox Hla Hlo Nla Nlo).
  fold cat.
  assert (E : box_rows
                (lat_x - (max_distance_km + tolerance) / 111,
                 lat_x + (max_distance_km + tolerance) / 111,
                 lon_x - (max_distance_km + tolerance)
                         / (111 * cos (math.radians lat_x)),
                 lon_x + (max_distance_km + tolerance)
                         / (111 * cos (math.radians lat_x)))
                ilat ilon cat = []).
  { unfold box_rows. generalize (rows cat). intros l.
    induction l as [| r rs IH]; [reflexivity |].
    cbn [filter]. destruct (in_box _ ilat ilon r) eqn:Hin; [| exact IH].
    apply in_box_true in Hin. destruct Hin as [la [lo [_ [_ [Hb _]]]]]. lra. }
  unfold band_frame, candidate_frame. cbn [rows columns]. rewrite E.
  cbn [map filter].
  assert (Es : forall key, sort_rows key [] = []).
  { intros key. destruct (Hsort key []) as [Hp _].
    apply Permutation_sym, Permutation_nil in Hp. exact Hp. }
  rewrite Es.
  destruct (get_loc "City" (columns cat)); [| eexists; reflexivity].
  destruct (get_loc "Name" (columns cat)); eexists; reflexivity.
Qed.

Lemma filter_places_negative_radius_witness :
  exists w' : world,
    filter_places stable_sort 0%nat 60 0 (-200) 150 demo_world = (Ok [], w').
Proof.
  apply (filter_places_negative_radius stable_sort demo_world 0%nat 60 0
           (-200) 150 2%nat 3%nat stable_sort_contract);
    try lra; try reflexivity; repeat constructor.
Defined.

Lemma matches_widen (cat : DataFrame) (lat_x lon_x md tol1 tol2 : R)
    (r : Row) (d : R) :
  -90 < lat_x < 90 -> tol1 <= tol2 ->
  matches cat lat_x lon_x md tol1 r d -> matches cat lat_x lon_x md tol2 r d.
Proof.
  intros Hlat Ht [Hr [la [lo [a [b [c [e [Hla [Hlo [Hb [H1 [H2 [Hh Hd]]]]]]]]]]]]].
  pose proof (cos_radians_pos lat_x Hlat) as Hc.
  rewrite bounding_box_ok in Hb by lra. injection Hb as <- <- <- <-.
  split; [exact Hr |]. exists la, lo. do 4 eexists.
  split; [exact Hla |]. split; [exact Hlo |].
  split; [apply bounding_box_ok; lra |].
  assert (Hdiv : (md + tol1) / (111 * cos (math.radians lat_x))
                 <= (md + tol2) / (111 * cos (math.radians lat_x))).
  { unfold Rdiv. apply Rmult_le_compat_r; [| lra].
    left. apply Rinv_0_lt_compat. nra. }
  exact_ops. rewrite radians_exact in *.
  split; [lra |]. split; [lra |]. split; [exact Hh | lra].
Qed.

(** X13: widening the tolerance loses no city but to the cap: away from the
    poles, a city returned with a tolerance is returned with every larger
    tolerance too, unless that call returns five cities. *)
Theorem filter_places_wider_tolerance
    (sort_rows : (Row -> value) -> list Row -> list Row)
    (w w1 w2 : world) (df : addr) (lat_x lon_x max_distance_km tol1 tol2 : R)
    (cities1 cities2 : list value) (icity iname : nat) (c : value) :
  sort_contract sort_rows ->
  let cat := nth df (heap w) empty_frame in
  -90 < lat_x < 90 -> tol1 <= tol2 ->
  get_loc "City" (columns cat) = Some icity ->
  get_loc "Name" (columns cat) = Some iname ->
  filter_places sort_rows df lat_x lon_x max_distance_km tol1 w
  = (Ok cities1, w1) ->
  filter_places sort_rows df lat_x lon_x max_distance_km tol2 w
  = (Ok cities2, w2) ->
  In c cities1 ->
  In c cities2 \/ List.length cities2 = 5%nat.
Proof.
  intros Hsort cat Hlat Ht Ec En Hrun1 Hrun2 Hin.
  destruct (filter_places_inv _ _ _ _ _ _ _ _ _ Hrun1)
    as [box1 [ilat1 [ilon1 [Hbox1 [Hla1 [Hlo1 Hres1]]]]]].
  destruct (filter_places_inv _ _ _ _ _ _ _ _ _ Hrun2)
    as [box2 [ilat2 [ilon2 [Hbox2 [Hla2 [Hlo2 Hres2]]]]]].
  fold cat in Hbox1, Hla1, Hlo1, Hres1, Hbox2, Hla2, Hlo2, Hres2.
  cbv zeta in Hres1, Hres2. rewrite Ec, En in Hres1, Hres2.
  destruct Hres1 as [E1 _]. destruct Hres2 as [E2 _].
  destruct (sorted_matches sort_rows cat lat_x lon_x max_distance_km tol1
              box1 ilat1 ilon1 Hsort Hbox1 Hla1 Hlo1) as [Hrows1 _].
  cbv zeta in Hrows1.
  rewrite E1 in Hin. apply In_firstn in Hin. apply first_seen_In in Hin.
  destruct Hin as [[] | Hin]. apply in_map_iff in Hin.
  destruct Hin as [r' [Hc Hr']]. apply Hrows1 in Hr'.
  destruct Hr' as [r [d [Hm [Er _]]]].
  rewrite Er, (city_of_with_distance _ _ _ _ _ _ _ Ec) in Hc. subst c.
  apply (matches_widen _ _ _ _ _ _ _ _ Hlat Ht) in Hm.
  rewrite E2. apply In_firstn_or_full.
  exact (matches_city_listed sort_rows cat lat_x lon_x max_distance_km tol2
           box2 ilat2 ilon2 icity r d Hsort Hbox2 Hla2 Hlo2 Ec Hm).
Qed.

Lemma filter_places_wider_tolerance_witness :
  exists (w1 w2 : world) (cities2 : list value),
    filter_places stable_sort 0%nat 60 0 100 150 demo_world
    = (Ok [VStr "Beta"; VStr "Alpha"], w1) /\
    filter_places stable_sort 0%nat 60 0 100 200 demo_world
    = (Ok cities2, w2) /\
    (In (VStr "Beta") cities2 \/ List.length cities2 = 5%nat).
Proof.
  destruct demo_run as [w1 Hrun1].
  assert (Hc : cos (math.radians 60) <> 0)
    by (rewrite radians_60, cos_PI3; lra).
  assert (Hn2 : Forall (fun r => numeric (cell 2 r)) (rows demo_catalog))
    by (repeat constructor).
  assert (Hn3 : Forall (fun r => numeric (cell 3 r)) (rows demo_catalog))
    by (repeat constructor).
  destruct (filter_places_total stable_sort demo_world 0%nat 60 0 100 200
              2%nat 3%nat Hc eq_refl eq_refl Hn2 Hn3)
    as [cities2 [w2 Hrun2]].
  exists w1, w2, cities2. split; [exact Hrun1 |]. split; [exact Hrun2 |].
  refine (filter_places_wider_tolerance stable_sort demo_world w1 w2 0%nat
            60 0 100 150 200 _ cities2 1%nat 0%nat (VStr "Beta")
            stable_sort_contract _ _ eq_refl eq_refl Hrun1 Hrun2 _);
    [lra | lra | cbn; auto].
Defined.

(** A string in a coordinate column, when the box is computed in the exact
    arithmetic. *)
Lemma box_candidates_string (w : world) (df : addr) (lat_x lon_x md tol : R)
    (ilat ilon : nat) :
  let cat := nth df (heap w) empty_frame in
  cos (math.radians lat_x) <> 0 ->
  get_loc "Latitude" (columns cat) = Some ilat ->
  get_loc "Longitude" (columns cat) = Some ilon ->
  Exists (fun r => ~ numeric (cell ilat r) \/ ~ numeric (cell ilon r))
         (rows cat) ->
  box_candidates df lat_x lon_x md tol w = (Raise TypeError, w).
Proof.
  intros cat Hc Hla Hlo Hstr.
  pose proof (bounding_box_ok lat_x lon_x (md + tol) Hc) as Hbox.
  apply (box_candidates_text w df lat_x lon_x md tol _ ilat Hbox Hla).
  fold cat.
  destruct (Forall_Exists_dec (fun r => numeric (cell ilat r))
              (fun r => numeric_dec (cell ilat r)) (rows cat)) as [Nla | Sla];
    [| left; exact Sla].
  right. exists ilon. split; [exact Hlo |].
  apply Exists_exists in Hstr. destruct Hstr as [r [Hr Hs]].
  apply Exists_exists. exists r. split; [exact Hr |].
  destruct Hs as [Hs | Hs]; [| exact Hs].
  rewrite Forall_forall in Nla. exfalso. exact (Hs (Nla r Hr)).
Qed.

(** X14: a string among the coordinates is a type error: when a Latitude or
    Longitude cell holds a string, the first comparison on that column raises
    TypeError, before anything is created or printed. *)
Theorem filter_places_string_coordinate
    (sort_rows : (Row -> value) -> list Row -> list Row)
    (w : world) (df : addr) (lat_x lon_x max_distance_km tolerance : R)
    (ilat ilon : nat) :
  let cat := nth df (heap w) empty_frame in
  cos (math.radians lat_x) <> 0 ->
  get_loc "Latitude" (columns cat) = Some ilat ->
  get_loc "Longitude" (columns cat) = Some ilon ->
  Exists (fun r => ~ numeric (cell ilat r) \/ ~ numeric (cell ilon r))
         (rows cat) ->
  filter_places sort_rows df lat_x lon_x max_distance_km tolerance w
  = (Raise TypeError, w).
Proof.
  intros cat Hc Hla Hlo Hstr.
  unfold filter_places, bind at 1.
  rewrite (box_candidates_string w df lat_x lon_x max_distance_km tolerance
             ilat ilon Hc Hla Hlo Hstr).
  reflexivity.
Qed.

Lemma filter_places_string_coordinate_witness :
  filter_places stable_sort 0%nat 60 0 100 150 (mkWorld [text_catalog] [])
  = (Raise TypeError, mkWorld [text_catalog] []).
Proof.
  apply (filter_places_string_coordinate stable_sort
           (mkWorld [text_catalog] []) 0%nat 60 0 100 150 2%nat 3%nat).
  - rewrite radians_60, cos_PI3. lra.
  - reflexivity.
  - reflexivity.
  - constructor. left. cbn. tauto.
Defined.

(** ** A distance that fails

    Between 12N 0E and its antipode the exact [a] is 1.  In the arithmetic
    whose additions err upward [a] comes out above 1, [haversine] raises,
    and so does the range filter, after the selection and its copy were
    made: the place is inside the box of radius 20000 + 150. *)
Lemma haversine_antipodal_upward :
  haversine (A := upward_arith) 12 0 (-12) 180 = Raise ValueError.
Proof.
  apply (haversine_domain_error (A := upward_arith)). right. unfold hav.
  cbn [fl_add fl_sub fl_mul fl_div fl_pow fl_sin fl_cos fl_radians
       upward_arith math.sin math.cos math.radians].
  pose proof hav_antipodal as H. rewrite !radians_exact in H. rewrite H.
  assert (0 < / 2 ^ 53) by (apply Rinv_0_lt_compat, pow_lt; lra).
  lra.
Qed.

Lemma antipodal_run :
  filter_places (A := upward_arith) stable_sort 0%nat 12 0 20000 150
    (mkWorld [antipodal_catalog] [])
  = (Raise ValueError,
     mkWorld [antipodal_catalog; antipodal_catalog; antipodal_catalog] []).
Proof.
  pose proof PI_bounds as HPI.
  assert (He : 0 < / 2 ^ 53) by (apply Rinv_0_lt_compat, pow_lt; lra).
  set (eps := / 2 ^ 53) in *.
  assert (Hc : 0 < cos (12 * (PI / 180)) <= 1)
    by (split; [apply cos_gt_0; lra | apply COS_bound]).
  set (c := cos (12 * (PI / 180))) in *.
  set (r := (20000 + 150) * (1 + eps)).
  assert (Hbox : bounding_box (A := upward_arith) 12 0
                   (@fl_add upward_arith 20000 150)
                 = Ok (12 - r / 111, (12 + r / 111) * (1 + eps),
                       0 - r / (111 * c), (0 + r / (111 * c)) * (1 + eps))).
  { unfold bounding_box.
    rewrite (truediv_ok (A := upward_arith) _ 111) by lra.
    rewrite (truediv_ok (A := upward_arith)).
    - reflexivity.
    - cbn [fl_mul fl_cos fl_radians upward_arith math.cos math.radians].
      fold c. nra. }
  assert (Hn2 : Forall (fun r => numeric (cell 2 r)) (rows antipodal_catalog))
    by (repeat constructor).
  assert (Hn3 : Forall (fun r => numeric (cell 3 r)) (rows antipodal_catalog))
    by (repeat constructor).
  rewrite (filter_places_steps (A := upward_arith) stable_sort
             (mkWorld [antipodal_catalog] []) 0%nat 12 0 20000 150 _
             2%nat 3%nat Hbox eq_refl eq_refl Hn2 Hn3).
  change (nth 0 (heap (mkWorld [antipodal_catalog] [])) empty_frame)
    with antipodal_catalog.
  assert (E : box_rows (12 - r / 111, (12 + r / 111) * (1 + eps),
                        0 - r / (111 * c), (0 + r / (111 * c)) * (1 + eps))
                2 3 antipodal_catalog
              = rows antipodal_catalog).
  { unfold box_rows. apply filter_true. repeat constructor.
    apply in_box_true. cbn [cell nth]. do 2 eexists.
    split; [reflexivity |]. split; [reflexivity |].
    assert (Hr : 181 <= r / 111) by (unfold r; lra).
    assert (Hd : r / 111 <= r / (111 * c)).
    { unfold Rdiv. apply Rmult_le_compat_l; [unfold r; nra |].
      apply Rinv_le_contravar; nra. }
    split; split; nra. }
  cbn [rows]. rewrite E.
  unfold distances. cbn [antipodal_catalog rows mapM cell nth haversine_cells].
  rewrite haversine_antipodal_upward. reflexivity.
Qed.

(** X15: whatever the arithmetic, a call that raises has printed nothing;
    it has left the state as it was, or, when a distance failed with
    ValueError, has only added the selection and its copy to the heap.  A
    call that returns has printed exactly one line: the list it returns, or
    the diagnostic when City or Name is missing and the list is empty. *)
Theorem filter_places_effects {A : FloatArith}
    (sort_rows : (Row -> value) -> list Row -> list Row)
    (w : world) (df : addr) (lat_x lon_x max_distance_km tolerance : R) :
  let run :=
    filter_places sort_rows df lat_x lon_x max_distance_km tolerance w in
  (forall e w',
     run = (Raise e, w') ->
     stdout w' = stdout w /\
     (w' = w \/
      e = ValueError /\ exists sel, heap w' = heap w ++ [sel; sel])) /\
  (forall cities w',
     run = (Ok cities, w') ->
     stdout w' = stdout w ++ [PrintList cities] \/
     (cities = [] /\ stdout w' = stdout w ++ [PrintStr not_found_message])).
Proof.
  intros run. split.
  - intros e w' Hrun.
    destruct (filter_places_outcome sort_rows w df lat_x lon_x max_distance_km
                tolerance) as [[e0 [w0 [H0 Hout]]] | [cities [w0 H0]]];
      fold run in H0; [| congruence].
    assert (e0 = e) by congruence. assert (w0 = w') by congruence.
    subst e0 w0. exact Hout.
  - intros cities w' Hrun.
    destruct (filter_places_inv _ _ _ _ _ _ _ _ _ Hrun)
      as [box [ilat [ilon [_ [_ [_ Hres]]]]]].
    cbv zeta in Hres.
    destruct (get_loc "City" _); [| right; exact Hres].
    destruct (get_loc "Name" _); [left; tauto | right; exact Hres].
Qed.

Lemma filter_places_effects_witness :
  (forall e w',
     filter_places stable_sort 0%nat 60 0 100 150 (mkWorld [text_catalog] [])
     = (Raise e, w') -> stdout w' = []) /\
  (exists w' : world,
     filter_places stable_sort 0%nat 60 0 100 150 demo_world
     = (Ok [VStr "Beta"; VStr "Alpha"], w') /\
     (stdout w' = [PrintList [VStr "Beta"; VStr "Alpha"]] \/
      ([VStr "Beta"; VStr "Alpha"] = [] /\
       stdout w' = [PrintStr not_found_message]))) /\
  exists w' : world,
    filter_places (A := upward_arith) stable_sort 0%nat 12 0 20000 150
      (mkWorld [antipodal_catalog] [])
    = (Raise ValueError, w') /\
    stdout w' = [] /\
    (w' = mkWorld [antipodal_catalog] [] \/
     ValueError = ValueError /\
     exists sel, heap w' = [antipodal_catalog] ++ [sel; sel]).
Proof.
  split; [| split].
  - intros e w' Hrun.
    exact (proj1 (proj1 (filter_places_effects stable_sort
                           (mkWorld [text_catalog] []) 0%nat 60 0 100 150)
                    e w' Hrun)).
  - destruct demo_run as [w' Hrun]. exists w'. split; [exact Hrun |].
    exact (proj2 (filter_places_effects stable_sort demo_world 0%nat
                    60 0 100 150) _ _ Hrun).
  - eexists. split; [exact antipodal_run |].
    exact (proj1 (filter_places_effects (A := upward_arith) stable_sort
                    (mkWorld [antipodal_catalog] []) 0%nat 12 0 20000 150)
                 _ _ antipodal_run).
Defined.

(** ** Recommend operation *)

Lemma round2_close (x : R) :
  Rabs (round2 x - x) <= 1 / 200 /\ exists n : Z, round2 x = IZR n / 100.
Proof.
  unfold round2. set (y := x * 100). set (n := Int_part y).
  destruct (base_Int_part y) as [H1 H2]. fold n in H1, H2.
  assert (Hx : x = y / 100) by (unfold y; lra).
  destruct (Rlt_dec (y - IZR n) (1 / 2)) as [Hlt | Hge].
  - split; [| exists n; reflexivity].
    apply Rabs_le. rewrite Hx. lra.
  - destruct (Rlt_dec (1 / 2) (y - IZR n)) as [Hgt | Hle].
    + split; [| exists (n + 1)%Z; reflexivity].
      apply Rabs_le. rewrite Hx, plus_IZR. lra.
    + destruct (Z.even n).
      * split; [| exists n; reflexivity]. apply Rabs_le. rewrite Hx. lra.
      * split; [| exists (n + 1)%Z; reflexivity].
        apply Rabs_le. rewrite Hx, plus_IZR. lra.
Qed.

Lemma firstn_firstn_same {A : Type} (n : nat) (l : list A) :
  firstn n (firstn n l) = firstn n l.
Proof. rewrite firstn_firstn, Nat.min_id. reflexivity. Qed.


(** A request from 60N 0E for one day at speed 20, in the exact arithmetic:
    the distance is 173.33 km and both cities of [demo_catalog] are in
    reach. *)
Lemma demo_recommend :
  exists w' : world,
    recommend_cities stable_sort (fun _ => Ok (Some (60, 0))) 0%nat
      (mkRequest "Oslo" 1 20) demo_world
    = (Ok (Recommendation (round2 (2 / 3 * 13 * 20))
             [VStr "Beta"; VStr "Alpha"]), w').
Proof.
  destruct (demo_run_any (2 / 3 * 13 * 20) 150) as [w' Hf]; [lra | lra |].
  exists w'. rewrite recommend_cities_steps.
  cbn [user_location trip_days speed].
  rewrite trip_logic_float. cbv zeta.
  change (1 * 24 - 1 * (6 + 3 + 2) + 0)%Z with 13%Z.
  rewrite (float_of_int_small 13), (float_of_int_small 20) by (cbn; lia).
  cbn [rbind]. exact_ops. rewrite Hf. reflexivity.
Qed.

(** X16: whatever the arithmetic, a recommendation means that the location
    was resolved, that the estimator returned a distance, 2/3 * usable *
    speed as the floats compute it on 13 usable hours a day, and that the
    range filter returned for that distance and tolerance 150 exactly the
    cities of the recommendation (the second truncation changes nothing):
    they are distinct and at most five.  The distance reported is the
    rounding of that distance to two decimals: in exact arithmetic a
    multiple of 0.01 within 0.005 of it. *)
Theorem recommend_cities_response {A : FloatArith}
    (sort_rows : (Row -> value) -> list Row -> list Row)
    (get_lat_lon : string -> result (option (R * R))) (df : addr)
    (request : RecommendRequest) (w w' : world)
    (km : R) (cities : list value) :
  recommend_cities sort_rows get_lat_lon df request w
  = (Ok (Recommendation km cities), w') ->
  exists lat lon max_distance u s : R,
    get_lat_lon (user_location request) = Ok (Some (lat, lon)) /\
    trip_logic (H := python_float) (trip_days request) (speed request)
      6 3 2 false
    = Ok (max_distance, (13 * trip_days request)%Z) /\
    float_of_int (13 * trip_days request) = Ok u /\
    float_of_int (speed request) = Ok s /\
    max_distance = (2 / 3 * u * s)%fl /\
    filter_places sort_rows df lat lon max_distance 150 w = (Ok cities, w') /\
    km = fl_round2 max_distance /\
    NoDup cities /\ (List.length cities <= 5)%nat /\
    (A = exact_arith ->
     Rabs (km - max_distance) <= 1 / 200 /\ exists n : Z, km = IZR n / 100).
Proof.
  intros Hrun. rewrite recommend_cities_steps in Hrun.
  destruct (get_lat_lon (user_location request)) as [[[lat lon] |] | e0];
    [| discriminate | discriminate].
  destruct (trip_logic (H := python_float) (trip_days request) (speed request)
              6 3 2 false) as [[max_distance usable] | e0] eqn:Ht;
    [| discriminate].
  pose proof (trip_logic_float_defaults _ _ _ _ Ht) as ->.
  destruct (filter_places sort_rows df lat lon max_distance 150 w)
    as [[tour_city | e0] w1] eqn:Hf; [| discriminate].
  assert (Hkm : km = fl_round2 max_distance) by congruence.
  assert (Hc : cities = firstn 5 tour_city) by congruence.
  assert (Hw : w1 = w') by congruence.
  subst w1 km.
  destruct (filter_places_inv _ _ _ _ _ _ _ _ _ Hf)
    as [box [ilat [ilon [_ [_ [_ Hres]]]]]].
  cbv zeta in Hres.
  assert (Hfirst : tour_city = firstn 5 tour_city /\ NoDup tour_city).
  { destruct (get_loc "City" _) as [icity |].
    - destruct (get_loc "Name" _).
      + destruct Hres as [E _]. rewrite E at 1.
        rewrite E, firstn_firstn_same. split; [reflexivity |].
        apply NoDup_firstn, first_seen_NoDup. constructor.
      + destruct Hres as [-> _]. split; [reflexivity | constructor].
    - destruct Hres as [-> _]. split; [reflexivity | constructor]. }
  destruct Hfirst as [Hfirst Hnd]. rewrite <- Hfirst in Hc. subst cities.
  pose proof Ht as Hus. rewrite trip_logic_float in Hus. cbv zeta in Hus.
  replace (trip_days request * 24 - trip_days request * (6 + 3 + 2) + 0)%Z
    with (13 * trip_days request)%Z in Hus by lia.
  destruct (float_of_int (13 * trip_days request)) as [u |] eqn:Eu;
    cbn [rbind] in Hus; [| discriminate].
  destruct (float_of_int (speed request)) as [s |] eqn:Es;
    cbn [rbind] in Hus; [| discriminate].
  exists lat, lon, max_distance, u, s.
  split; [reflexivity |]. split; [reflexivity |].
  split; [reflexivity |]. split; [reflexivity |].
  split; [congruence |]. split; [exact Hf |]. split; [reflexivity |].
  split; [exact Hnd |].
  split; [rewrite Hfirst; apply firstn_le_length |].
  intros ->. apply round2_close.
Qed.

Lemma recommend_cities_response_witness :
  exists (km max_distance : R) (w' : world),
    recommend_cities stable_sort (fun _ => Ok (Some (60, 0))) 0%nat
      (mkRequest "Oslo" 1 20) demo_world
    = (Ok (Recommendation km [VStr "Beta"; VStr "Alpha"]), w') /\
    filter_places stable_sort 0%nat 60 0 max_distance 150 demo_world
    = (Ok [VStr "Beta"; VStr "Alpha"], w') /\
    NoDup [VStr "Beta"; VStr "Alpha"] /\
    Rabs (km - max_distance) <= 1 / 200.
Proof.
  destruct demo_recommend as [w' Hrun].
  destruct (recommend_cities_response stable_sort
              (fun _ => Ok (Some (60, 0))) 0%nat (mkRequest "Oslo" 1 20)
              demo_world w' _ _ Hrun)
    as [lat [lon [md [u [s [Hloc [_ [_ [_ [_ [Hf [_ [Hnd [_ Hkm]]]]]]]]]]]]]].
  injection Hloc as <- <-.
  exists (round2 (2 / 3 * 13 * 20)), md, w'.
  split; [exact Hrun |]. split; [exact Hf |]. split; [exact Hnd |].
  exact (proj1 (Hkm eq_refl)).
Defined.

(** X17: whatever the arithmetic, the recommend operation leaves every
    table that was on the heap before the request as it was, the catalog
    among them, whatever the request and whether it answers, reports an
    unknown location or raises. *)
Theorem recommend_cities_keeps_catalog {A : FloatArith}
    (sort_rows : (Row -> value) -> list Row -> list Row)
    (get_lat_lon : string -> result (option (R * R))) (df : addr)
    (request : RecommendRequest) (w : world) :
  let w' := snd (recommend_cities sort_rows get_lat_lon df request w) in
  firstn (List.length (heap w)) (heap w') = heap w /\
  forall a : addr,
    (a < List.length (heap w))%nat ->
    nth_error (heap w') a = nth_error (heap w) a.
Proof.
  intros w'. subst w'. apply keeps_heap. apply keeps_recommend_cities.
Qed.

Lemma recommend_cities_keeps_catalog_witness :
  nth_error
    (heap (snd (recommend_cities stable_sort (fun _ => Ok (Some (60, 0)))
                  0%nat (mkRequest "Oslo" 3 50) demo_world))) 0
  = Some demo_catalog.
Proof.
  apply (proj2 (recommend_cities_keeps_catalog stable_sort
                  (fun _ => Ok (Some (60, 0))) 0%nat (mkRequest "Oslo" 3 50)
                  demo_world) 0%nat).
  cbn. lia.
Defined.

(** X18: whatever the arithmetic, a request that ends in an exception has
    printed nothing, and the exception is one of three: that of the
    geocoder; the OverflowError of the estimator, when the days or the speed
    are too large for a float; or that of the range filter, called with the
    distance of the estimator and tolerance 150.  In the first two cases the
    state is as it was. *)
Theorem recommend_cities_raises {A : FloatArith}
    (sort_rows : (Row -> value) -> list Row -> list Row)
    (get_lat_lon : string -> result (option (R * R))) (df : addr)
    (request : RecommendRequest) (w w' : world) (e : exn) :
  recommend_cities sort_rows get_lat_lon df request w = (Raise e, w') ->
  stdout w' = stdout w /\
  (get_lat_lon (user_location request) = Raise e /\ w' = w \/
   exists lat lon : R,
     get_lat_lon (user_location request) = Ok (Some (lat, lon)) /\
     (trip_logic (H := python_float) (trip_days request) (speed request)
        6 3 2 false = Raise e /\
      e = OverflowError /\ w' = w \/
      exists max_distance : R,
        trip_logic (H := python_float) (trip_days request) (speed request)
          6 3 2 false
        = Ok (max_distance, (13 * trip_days request)%Z) /\
        filter_places sort_rows df lat lon max_distance 150 w
        = (Raise e, w'))).
Proof.
  intros Hrun. rewrite recommend_cities_steps in Hrun.
  destruct (get_lat_lon (user_location request)) as [[[lat lon] |] | e0];
    [| discriminate |].
  2:{ injection Hrun as <- <-. split; [reflexivity |]. left. auto. }
  destruct (trip_logic (H := python_float) (trip_days request) (speed request)
              6 3 2 false) as [[max_distance usable] | e0] eqn:Ht.
  2:{ injection Hrun as <- <-. split; [reflexivity |]. right.
      exists lat, lon. split; [reflexivity |]. left.
      split; [reflexivity |]. split; [| reflexivity].
      exact (trip_logic_float_raises _ _ _ _ _ _ _ Ht). }
  pose proof (trip_logic_float_defaults _ _ _ _ Ht) as ->.
  destruct (filter_places_outcome sort_rows w df lat lon max_distance 150)
    as [[e0 [w0 [H0 [Hout _]]]] | [cities [w0 H0]]]; rewrite H0 in Hrun;
    [| discriminate].
  injection Hrun as <- <-. split; [exact Hout |]. right.
  exists lat, lon. split; [reflexivity |]. right.
  exists max_distance. split; [reflexivity | exact H0].
Qed.

(** A string for a latitude stops the request with TypeError, a trip of
    10^400 days with OverflowError, a failure of the geocoder with the
    exception of the geocoder. *)
Lemma recommend_cities_raises_witness :
  recommend_cities stable_sort (fun _ => Ok (Some (60, 0))) 0%nat
    (mkRequest "Oslo" 3 50) (mkWorld [text_catalog] [])
  = (Raise TypeError, mkWorld [text_catalog] []) /\
  (exists max_distance : R,
     filter_places stable_sort 0%nat 60 0 max_distance 150
       (mkWorld [text_catalog] [])
     = (Raise TypeError, mkWorld [text_catalog] [])) /\
  recommend_cities stable_sort (fun _ => Ok (Some (60, 0))) 0%nat
    (mkRequest "Oslo" (10 ^ 400) 50) demo_world
  = (Raise OverflowError, demo_world) /\
  recommend_cities stable_sort (fun _ => Raise GeocoderError) 0%nat
    (mkRequest "Oslo" 3 50) demo_world
  = (Raise GeocoderError, demo_world).
Proof.
  assert (Hc : cos (math.radians 60) <> 0)
    by (rewrite radians_60, cos_PI3; lra).
  assert (Hs : Exists (fun r => ~ numeric (cell 2 r) \/ ~ numeric (cell 3 r))
                 (rows text_catalog))
    by (constructor; left; cbn; tauto).
  assert (Hrun : recommend_cities stable_sort (fun _ => Ok (Some (60, 0)))
                   0%nat (mkRequest "Oslo" 3 50) (mkWorld [text_catalog] [])
                 = (Raise TypeError, mkWorld [text_catalog] [])).
  { rewrite recommend_cities_steps. cbn [user_location trip_days speed].
    rewrite trip_logic_float. cbv zeta.
    change (3 * 24 - 3 * (6 + 3 + 2) + 0)%Z with 39%Z.
    rewrite (float_of_int_small 39), (float_of_int_small 50) by (cbn; lia).
    cbn [rbind]. unfold filter_places, bind at 1.
    rewrite (box_candidates_string (mkWorld [text_catalog] []) 0%nat 60 0
               _ 150 2%nat 3%nat Hc eq_refl eq_refl Hs).
    reflexivity. }
  split; [exact Hrun |]. split; [| split].
  3:{ rewrite recommend_cities_steps. reflexivity. }
  - destruct (recommend_cities_raises stable_sort
                (fun _ => Ok (Some (60, 0))) 0%nat (mkRequest "Oslo" 3 50)
                (mkWorld [text_catalog] []) _ _ Hrun)
      as [_ [[Hg _] | [lat [lon [Hloc [[Ht _] | [md [_ Hf]]]]]]]].
    + discriminate Hg.
    + exfalso. rewrite trip_logic_float in Ht. cbv zeta in Ht.
      cbn [trip_days speed] in Ht.
      change (3 * 24 - 3 * (6 + 3 + 2) + 0)%Z with 39%Z in Ht.
      rewrite (float_of_int_small 39), (float_of_int_small 50) in Ht
        by (cbn; lia).
      discriminate Ht.
    + injection Hloc as <- <-. exists md. exact Hf.
  - rewrite recommend_cities_steps. cbn [user_location trip_days speed].
    rewrite trip_logic_float. cbv zeta.
    assert (E : float_of_int (10 ^ 400 * 24 - 10 ^ 400 * (6 + 3 + 2) + 0)
                = Raise OverflowError) by (vm_compute; reflexivity).
    rewrite E. reflexivity.
Defined.

(** ** Range filter, continued *)

Section SameTable.
Context {A : FloatArith}.

(** The cities a call returns are a function of the catalog table alone. *)
Lemma filter_places_same_table
    (sort_rows : (Row -> value) -> list Row -> list Row)
    (w1 w1' w2 : world) (df1 df2 : addr) (lat_x lon_x md tol : R)
    (cities : list value) (box : R * R * R * R) (ilat ilon : nat) :
  let cat1 := nth df1 (heap w1) empty_frame in
  let cat2 := nth df2 (heap w2) empty_frame in
  filter_places sort_rows df1 lat_x lon_x md tol w1 = (Ok cities, w1') ->
  bounding_box lat_x lon_x (md + tol)%fl = Ok box ->
  get_loc "Latitude" (columns cat1) = Some ilat ->
  get_loc "Longitude" (columns cat1) = Some ilon ->
  columns cat2 = columns cat1 ->
  box_rows box ilat ilon cat2 = box_rows box ilat ilon cat1 ->
  Forall (fun r => numeric (cell ilat r)) (rows cat2) ->
  Forall (fun r => numeric (cell ilon r)) (rows cat2) ->
  exists w2' : world,
    filter_places sort_rows df2 lat_x lon_x md tol w2 = (Ok cities, w2').
Proof.
  intros cat1 cat2 Hrun Hbox Hla Hlo Hcols Hrows N2la N2lo.
  destruct (filter_places_ok_pre _ _ _ _ _ _ _ _ _ Hrun)
    as [box' [ilat' [ilon' [Hbox' [Hla' [Hlo' [Nla Nlo]]]]]]].
  fold cat1 in Hla', Hlo', Nla, Nlo.
  assert (box' = box) by congruence. assert (ilat' = ilat) by congruence.
  assert (ilon' = ilon) by congruence. subst box' ilat' ilon'.
  rewrite (filter_places_steps sort_rows w1 df1 lat_x lon_x md tol box ilat ilon
             Hbox Hla Hlo Nla Nlo) in Hrun.
  fold cat1 in Hrun.
  assert (Hla2 : get_loc "Latitude" (columns cat2) = Some ilat)
    by (rewrite Hcols; exact Hla).
  assert (Hlo2 : get_loc "Longitude" (columns cat2) = Some ilon)
    by (rewrite Hcols; exact Hlo).
  rewrite (filter_places_steps sort_rows w2 df2 lat_x lon_x md tol box ilat ilon
             Hbox Hla2 Hlo2 N2la N2lo).
  fold cat2.
  assert (Ec : candidate_frame lat_x lon_x box ilat ilon cat2
               = candidate_frame lat_x lon_x box ilat ilon cat1).
  { unfold candidate_frame. now rewrite Hcols, Hrows. }
  cbn [rows] in Hrun |- *. rewrite Ec, Hcols, Hrows.
  destruct (distances lat_x lon_x ilat ilon (box_rows box ilat ilon cat1))
    as [ds | e]; [| discriminate].
  destruct (get_loc "City" (columns cat1)) as [icity |].
  - destruct (get_loc "Name" (columns cat1)) as [iname |];
      eexists; f_equal; congruence.
  - eexists. f_equal. congruence.
Qed.

End SameTable.

Lemma filter_filter_implied {A : Type} (f g : A -> bool) (l : list A) :
  (forall x, f x = true -> g x = true) ->
  filter f (filter g l) = filter f l.
Proof.
  intros H. induction l as [| x l IH]; cbn; [reflexivity |].
  destruct (g x) eqn:Eg; cbn.
  - now rewrite IH.
  - rewrite IH. destruct (f x) eqn:Ef; [| reflexivity].
    apply H in Ef. congruence.
Qed.

(** X19: places without coordinates count for nothing: whatever the
    arithmetic, a catalog from which the rows with a missing latitude or
    longitude have been removed gives the same cities. *)
Theorem filter_places_ignores_missing_coordinates {A : FloatArith}
    (sort_rows : (Row -> value) -> list Row -> list Row)
    (w1 w1' w2 : world) (df1 df2 : addr)
    (lat_x lon_x max_distance_km tolerance : R)
    (cities : list value) (ilat ilon : nat) :
  let cat1 := nth df1 (heap w1) empty_frame in
  get_loc "Latitude" (columns cat1) = Some ilat ->
  get_loc "Longitude" (columns cat1) = Some ilon ->
  nth df2 (heap w2) empty_frame
  = mkDF (columns cat1) (filter (has_coordinates ilat ilon) (rows cat1)) ->
  filter_places sort_rows df1 lat_x lon_x max_distance_km tolerance w1
  = (Ok cities, w1') ->
  exists w2' : world,
    filter_places sort_rows df2 lat_x lon_x max_distance_km tolerance w2
    = (Ok cities, w2').
Proof.
  intros cat1 Hla Hlo Hcat2 Hrun.
  destruct (filter_places_ok_pre _ _ _ _ _ _ _ _ _ Hrun)
    as [box [ilat' [ilon' [Hbox [Hla' [Hlo' [Nla Nlo]]]]]]].
  fold cat1 in Hla', Hlo', Nla, Nlo.
  assert (ilat' = ilat) by congruence. assert (ilon' = ilon) by congruence.
  subst ilat' ilon'.
  apply (filter_places_same_table sort_rows w1 w1' w2 df1 df2 lat_x lon_x
           max_distance_km tolerance cities box ilat ilon Hrun Hbox Hla Hlo);
    rewrite Hcat2; cbn [columns rows].
  - reflexivity.
  - unfold box_rows. cbn [rows]. apply filter_filter_implied.
    intros r Hin. destruct box as [[[a b] c] d].
    apply in_box_true in Hin. destruct Hin as [la [lo [Ela [Elo _]]]].
    unfold has_coordinates. now rewrite Ela, Elo.
  - apply Forall_forall. intros r Hr. apply filter_In in Hr.
    rewrite Forall_forall in Nla. apply Nla. tauto.
  - apply Forall_forall. intros r Hr. apply filter_In in Hr.
    rewrite Forall_forall in Nlo. apply Nlo. tauto.
Qed.

Lemma filter_places_ignores_missing_coordinates_witness :
  exists (cities : list value) (w1' w2' : world),
    filter_places stable_sort 0%nat 60 0 100 150 (mkWorld [gappy_catalog] [])
    = (Ok cities, w1') /\
    filter_places stable_sort 0%nat 60 0 100 150
      (mkWorld [mkDF (columns gappy_catalog)
                  (filter (has_coordinates 2 3) (rows gappy_catalog))] [])
    = (Ok cities, w2').
Proof.
  assert (Hc : cos (math.radians 60) <> 0)
    by (rewrite radians_60, cos_PI3; lra).
  assert (Hn2 : Forall (fun r => numeric (cell 2 r)) (rows gappy_catalog))
    by (repeat constructor).
  assert (Hn3 : Forall (fun r => numeric (cell 3 r)) (rows gappy_catalog))
    by (repeat constructor).
  destruct (filter_places_total stable_sort (mkWorld [gappy_catalog] [])
              0%nat 60 0 100 150 2%nat 3%nat Hc eq_refl eq_refl Hn2 Hn3)
    as [cities [w1' Hrun]].
  destruct (filter_places_ignores_missing_coordinates stable_sort
              (mkWorld [gappy_catalog] []) w1'
              (mkWorld [mkDF (columns gappy_catalog)
                          (filter (has_coordinates 2 3)
                             (rows gappy_catalog))] [])
              0%nat 0%nat 60 0 100 150 cities 2%nat 3%nat
              eq_refl eq_refl eq_refl Hrun) as [w2' Hrun2].
  exists cities, w1', w2'. split; assumption.
Defined.

Lemma nth_kept (n : nat) (h h' : list DataFrame) (a : addr) :
  firstn n h' = firstn n h -> (a < n)%nat ->
  nth a h' empty_frame = nth a h empty_frame.
Proof.
  intros Hf Ha.
  assert (E : forall (m b : nat) (l : list DataFrame), (b < m)%nat ->
                nth b (firstn m l) empty_frame = nth b l empty_frame).
  { clear. induction m as [| m IH]; intros b l Hb; [lia |].
    destruct l as [| x l]; [reflexivity |].
    destruct b as [| b]; [reflexivity |]. cbn. apply IH. lia. }
  rewrite <- (E n a h' Ha), <- (E n a h Ha). now rewrite Hf.
Qed.

(** X20: a query can be repeated: whatever the arithmetic, on the world a
    returning call has left, the same call returns the same cities again. *)
Theorem filter_places_repeatable {A : FloatArith}
    (sort_rows : (Row -> value) -> list Row -> list Row)
    (w w' : world) (df : addr) (lat_x lon_x max_distance_km tolerance : R)
    (cities : list value) :
  (df < List.length (heap w))%nat ->
  filter_places sort_rows df lat_x lon_x max_distance_km tolerance w
  = (Ok cities, w') ->
  exists w'' : world,
    filter_places sort_rows df lat_x lon_x max_distance_km tolerance w'
    = (Ok cities, w'').
Proof.
  intros Hdf Hrun.
  destruct (filter_places_ok_pre _ _ _ _ _ _ _ _ _ Hrun)
    as [box [ilat [ilon [Hbox [Hla [Hlo [Nla Nlo]]]]]]].
  destruct (keeps_filter_places sort_rows (List.length (heap w)) df lat_x lon_x
              max_distance_km tolerance w (le_n _)) as [Hf _].
  rewrite Hrun in Hf. cbn [snd] in Hf.
  assert (Ecat : nth df (heap w') empty_frame = nth df (heap w) empty_frame)
    by (apply (nth_kept (List.length (heap w))); assumption).
  apply (filter_places_same_table sort_rows w w' w' df df lat_x lon_x
           max_distance_km tolerance cities box ilat ilon Hrun Hbox Hla Hlo);
    rewrite Ecat; try reflexivity; assumption.
Qed.

Lemma filter_places_repeatable_witness :
  exists w' w'' : world,
    filter_places stable_sort 0%nat 60 0 100 150 demo_world
    = (Ok [VStr "Beta"; VStr "Alpha"], w') /\
    filter_places stable_sort 0%nat 60 0 100 150 w'
    = (Ok [VStr "Beta"; VStr "Alpha"], w'').
Proof.
  destruct demo_run as [w' Hrun].
  destruct (filter_places_repeatable stable_sort demo_world w' 0%nat
              60 0 100 150 _ ltac:(cbn; lia) Hrun) as [w'' Hrun2].
  exists w', w''. split; assumption.
Defined.

